(** * SeqTrace consensus core: a shallow embedding of [seqtrace/core/consens.py]

    The embedding comes first, one module per class of the Python module:
    - [Py]        : the few Python built-ins the classes rely on (slicing,
                    indexing, string repetition, list [append]/[pop], loops);
    - [Editable]  : class [ModifiableConsensSeqBuilder] (edit, undo, redo);
    - [Settings]  : class [ConsensSeqSettings];
    - [Builder]   : class [ConsensSeqBuilder] (single, legacy and Bayesian
                    consensus, quality trimming).
    The vocabulary of the specification and the properties follow.

    Python integers are unbounded and are modelled by [Z]; Python strings are
    lists of characters; a call that may raise returns a [res].  The
    floating-point arithmetic of the Bayesian consensus is idealised as exact
    arithmetic over the reals.  The idealisation keeps the exception paths
    of the float program only where no intermediate value rounds to zero: a
    posterior within rounding of 1 makes [math.log10] raise in binary64
    (concordant calls reach it from score 77 on), and a denominator that
    underflows makes the division raise, while over the reals neither
    happens.  The properties of the Bayesian consensus that state a returned
    value are therefore stated for confidence scores up to 61, the largest
    score the settings accept, where the float program raises nothing. *)

From Stdlib Require Import ZArith Bool Ascii Lia.
From Stdlib Require Import String.
From Stdlib Require Import List.
From Stdlib Require Import Reals Lra Psatz.
Import ListNotations.

Local Open Scope Z_scope.

(** A Python string. *)
Definition str : Type := list ascii.

(** Outcome of a Python call: a value, or a raised exception. *)
Inductive exn : Type :=
| ConsensSeqSettingsError
| ConsensSeqBuilderError
| KeyError
| IndexError
| NameError
| ZeroDivisionError
| ValueError
| Diverged.

Inductive res (A : Type) : Type :=
| Ok (a : A)
| Raise (e : exn).
Arguments Ok {A} a.
Arguments Raise {A} e.

Definition rbind {A B : Type} (r : res A) (k : A -> res B) : res B :=
  match r with
  | Ok a => k a
  | Raise e => Raise e
  end.

Declare Scope res_scope.
Delimit Scope res_scope with res.
Notation "x <- c ;; k" := (rbind c (fun x => k))
  (at level 61, c at next level, right associativity) : res_scope.
Notation "' p <- c ;; k" := (rbind c (fun x => let p := x in k))
  (at level 61, p pattern, c at next level, right associativity) : res_scope.

(** String literals and string equality ([==] on [str]). *)
Definition lit (s : String.string) : str := String.list_ascii_of_string s.
Arguments lit s%_string : simpl never.

Fixpoint str_eqb (s t : str) : bool :=
  match s, t with
  | [], [] => true
  | c :: s', d :: t' => Ascii.eqb c d && str_eqb s' t'
  | _, _ => false
  end.

(** ** Python built-ins *)
Module Py.

Section Sequences.
Context {A : Type}.

Definition len (s : list A) : Z := Z.of_nat (length s).

(** A slice bound is first shifted by the length when negative, then
    clipped to [0, len]. *)
Definition clip (n i : Z) : Z :=
  if i <? 0 then Z.max 0 (i + n) else Z.min i n.

(** [s[i:j]] *)
Definition slice (s : list A) (i j : Z) : list A :=
  let n := len s in
  let lo := clip n i in
  let hi := clip n j in
  firstn (Z.to_nat (hi - lo)) (skipn (Z.to_nat lo) s).

(** [s[i:]] *)
Definition slice_from (s : list A) (i : Z) : list A :=
  skipn (Z.to_nat (clip (len s) i)) s.

(** [s[i]]: negative indexes count from the end; out of range raises. *)
Definition index (s : list A) (i : Z) : res A :=
  let j := if i <? 0 then i + len s else i in
  if (j <? 0) || (len s <=? j) then Raise IndexError
  else match nth_error s (Z.to_nat j) with
       | Some a => Ok a
       | None => Raise IndexError
       end.

(** [x * n] for a one-element sequence [x]. *)
Definition times (a : A) (n : Z) : list A := repeat a (Z.to_nat n).

(** [l.append(x)] *)
Definition append (l : list A) (a : A) : list A := l ++ [a].

(** [l.pop()] on a non-empty list: the remaining list and the last item. *)
Fixpoint pop (l : list A) : option (list A * A) :=
  match l with
  | [] => None
  | a :: l' =>
      match pop l' with
      | None => Some ([], a)
      | Some (r, z) => Some (a :: r, z)
      end
  end.
End Sequences.

Definition space : ascii := " "%char.

(** [' ' * n] *)
Definition spaces (n : Z) : str := times space n.

(** [range(n)] *)
Definition range (n : Z) : list Z := map Z.of_nat (seq 0 (Z.to_nat n)).

(** [sum(l)] *)
Definition sum (l : list Z) : Z := fold_left Z.add l 0.

Section Loops.
Context {S : Type}.

(** [for x in xs: body], the loop variables threaded through [S]. *)
Fixpoint for_each (xs : list Z) (body : Z -> S -> res S) (s : S) : res S :=
  match xs with
  | [] => Ok s
  | x :: xs' => (s' <- body x s ;; for_each xs' body s')%res
  end.

(** [while cond: body], cut after [fuel] tests of the condition. *)
Fixpoint while (fuel : nat) (cond : S -> bool) (body : S -> res S) (s : S)
  : res S :=
  match fuel with
  | O => Raise Diverged
  | Datatypes.S fuel' =>
      if cond s then (s' <- body s ;; while fuel' cond body s')%res
      else Ok s
  end.
(** The same, for a condition whose evaluation can raise. *)
Fixpoint while_raising (fuel : nat) (cond : S -> res bool)
    (body : S -> res S) (s : S) : res S :=
  match fuel with
  | O => Raise Diverged
  | Datatypes.S fuel' =>
      (c <- cond s ;;
       if c then s' <- body s ;; while_raising fuel' cond body s'
       else Ok s)%res
  end.
End Loops.

(** Reading a local variable that may not have been assigned yet. *)
Definition local {A : Type} (v : option A) : res A :=
  match v with
  | Some a => Ok a
  | None => Raise NameError
  end.

End Py.

(** ** [ModifiableConsensSeqBuilder] *)
Module Editable.

(** The events of [defineObservableEvents], with their payloads. *)
Inductive event : Type :=
| consensus_changed (start_index end_index : Z)
| undo_state_changed (available : bool)
| redo_state_changed (available : bool).

(** The dictionaries [{'start': .., 'end': .., 'data': ..}] kept on the
    stacks. *)
Record edit : Type := mkEdit {
  e_start : Z;
  e_end : Z;
  e_data : str
}.

(** The attributes the editing methods read and write.

    Modelled from the spec: [Observable.notifyObservers] (module [observable]
    is not part of the sources at hand) publishes an event synchronously to
    the subscribers; the model records the published events, oldest first,
    in [published]. *)
Record state : Type := mkState {
  consensus : str;
  undo_stack : list edit;
  redo_stack : list edit;
  published : list event
}.

Definition notifyObservers (ev : event) (st : state) : state :=
  mkState (consensus st) (undo_stack st) (redo_stack st)
          (published st ++ [ev]).

(** "swap the start and end points, if necessary" *)
Definition ordered (start_index end_index : Z) : Z * Z :=
  if start_index >? end_index then (end_index, start_index)
  else (start_index, end_index).

(** [consensus[0:start] + mid + consensus[end+1:]] *)
Definition splice (s : str) (start_index end_index : Z) (mid : str) : str :=
  Py.slice s 0 start_index ++ mid ++ Py.slice_from s (end_index + 1).

Definition deleteBases (start_index end_index : Z) (st : state) : state :=
  let '(start_index, end_index) := ordered start_index end_index in
  let undo' :=
    Py.append (undo_stack st)
      (mkEdit start_index end_index
              (Py.slice (consensus st) start_index (end_index + 1))) in
  let cons' :=
    splice (consensus st) start_index end_index
           (Py.spaces (end_index - start_index + 1)) in
  let st1 := mkState cons' undo' (redo_stack st) (published st) in
  let st2 := notifyObservers (consensus_changed start_index end_index) st1 in
  if Py.len (undo_stack st2) =? 1
  then notifyObservers (undo_state_changed true) st2
  else st2.

Definition modifyBases (start_index end_index : Z) (newseq : str)
    (st : state) : res state :=
  let '(start_index, end_index) := ordered start_index end_index in
  if negb (Py.len newseq =? end_index - start_index + 1)
  then Raise ConsensSeqBuilderError
  else
    let undo' :=
      Py.append (undo_stack st)
        (mkEdit start_index end_index
                (Py.slice (consensus st) start_index (end_index + 1))) in
    let cons' := splice (consensus st) start_index end_index newseq in
    let st1 := mkState cons' undo' (redo_stack st) (published st) in
    let st2 := notifyObservers (consensus_changed start_index end_index) st1 in
    Ok (if Py.len (undo_stack st2) =? 1
        then notifyObservers (undo_state_changed true) st2
        else st2).

Definition undo (st : state) : state :=
  match Py.pop (undo_stack st) with
  | None => st
  | Some (undo', u) =>
      let start_index := e_start u in
      let end_index := e_end u in
      let redo' :=
        Py.append (redo_stack st)
          (mkEdit start_index end_index
                  (Py.slice (consensus st) start_index (end_index + 1))) in
      let cons' := splice (consensus st) start_index end_index (e_data u) in
      let st1 := mkState cons' undo' redo' (published st) in
      let st2 := notifyObservers (consensus_changed start_index end_index) st1 in
      let st3 := if Py.len (redo_stack st2) =? 1
                 then notifyObservers (redo_state_changed true) st2
                 else st2 in
      if Py.len (undo_stack st3) =? 0
      then notifyObservers (undo_state_changed false) st3
      else st3
  end.

Definition redo (st : state) : state :=
  match Py.pop (redo_stack st) with
  | None => st
  | Some (redo', r) =>
      let start_index := e_start r in
      let end_index := e_end r in
      let undo' :=
        Py.append (undo_stack st)
          (mkEdit start_index end_index
                  (Py.slice (consensus st) start_index (end_index + 1))) in
      let cons' := splice (consensus st) start_index end_index (e_data r) in
      let st1 := mkState cons' undo' redo' (published st) in
      let st2 := notifyObservers (consensus_changed start_index end_index) st1 in
      let st3 := if Py.len (undo_stack st2) =? 1
                 then notifyObservers (undo_state_changed true) st2
                 else st2 in
      if Py.len (redo_stack st3) =? 0
      then notifyObservers (redo_state_changed false) st3
      else st3
  end.

End Editable.

(** ** [ConsensSeqSettings] *)
Module Settings.

(** The events of [defineObservableEvents].  Only [min_confscore_change]
    carries a payload, the new and the old value. *)
Inductive event : Type :=
| settings_change
| min_confscore_change (newval oldval : Z)
| autotrim_change
| consensus_algorithm_change.

(** The attributes of a settings object.  [change_made] is created by
    [setAll]; it is read only there, after it was set.

    Modelled from the spec: [Observable.notifyObservers] (module [observable]
    is not part of the sources at hand) publishes an event synchronously to
    the subscribers; the model records the published events, oldest first,
    in [published]. *)
Record state : Type := mkState {
  min_confscore : Z;
  consensus_algorithm : str;
  do_autotrim : bool;
  autotrim_winsize : Z;
  autotrim_basecnt : Z;
  trim_endgaps : bool;
  notify_all : bool;
  change_made : bool;
  published : list event
}.

(** [__init__] *)
Definition init : state :=
  mkState 30 (lit "Bayesian") true 10 8 true true false [].

Definition set_min_confscore (v : Z) (st : state) : state :=
  mkState v (consensus_algorithm st) (do_autotrim st) (autotrim_winsize st)
          (autotrim_basecnt st) (trim_endgaps st) (notify_all st)
          (change_made st) (published st).

Definition set_consensus_algorithm (v : str) (st : state) : state :=
  mkState (min_confscore st) v (do_autotrim st) (autotrim_winsize st)
          (autotrim_basecnt st) (trim_endgaps st) (notify_all st)
          (change_made st) (published st).

Definition set_do_autotrim (v : bool) (st : state) : state :=
  mkState (min_confscore st) (consensus_algorithm st) v (autotrim_winsize st)
          (autotrim_basecnt st) (trim_endgaps st) (notify_all st)
          (change_made st) (published st).

Definition set_autotrim_winsize (v : Z) (st : state) : state :=
  mkState (min_confscore st) (consensus_algorithm st) (do_autotrim st) v
          (autotrim_basecnt st) (trim_endgaps st) (notify_all st)
          (change_made st) (published st).

Definition set_autotrim_basecnt (v : Z) (st : state) : state :=
  mkState (min_confscore st) (consensus_algorithm st) (do_autotrim st)
          (autotrim_winsize st) v (trim_endgaps st) (notify_all st)
          (change_made st) (published st).

Definition set_trim_endgaps (v : bool) (st : state) : state :=
  mkState (min_confscore st) (consensus_algorithm st) (do_autotrim st)
          (autotrim_winsize st) (autotrim_basecnt st) v (notify_all st)
          (change_made st) (published st).

Definition set_notify_all (v : bool) (st : state) : state :=
  mkState (min_confscore st) (consensus_algorithm st) (do_autotrim st)
          (autotrim_winsize st) (autotrim_basecnt st) (trim_endgaps st) v
          (change_made st) (published st).

Definition set_change_made (v : bool) (st : state) : state :=
  mkState (min_confscore st) (consensus_algorithm st) (do_autotrim st)
          (autotrim_winsize st) (autotrim_basecnt st) (trim_endgaps st)
          (notify_all st) v (published st).

Definition notifyObservers (ev : event) (st : state) : state :=
  mkState (min_confscore st) (consensus_algorithm st) (do_autotrim st)
          (autotrim_winsize st) (autotrim_basecnt st) (trim_endgaps st)
          (notify_all st) (change_made st) (published st ++ [ev]).

(** A method: it may update the object and either returns or raises. *)
Definition method (A : Type) : Type := state -> state * res A.

Definition ret {A : Type} (a : A) : method A := fun st => (st, Ok a).

Definition raise {A : Type} (e : exn) : method A := fun st => (st, Raise e).

Definition bind {A B : Type} (m : method A) (k : A -> method B) : method B :=
  fun st =>
    let '(st1, r) := m st in
    match r with
    | Ok a => k a st1
    | Raise e => (st1, Raise e)
    end.

Definition update (f : state -> state) : method unit :=
  fun st => (f st, Ok tt).

(** [try: body finally: cleanup]: the cleanup runs on the object as the body
    left it, and the outcome of the body is kept. *)
Definition try_finally {A : Type} (body : method A) (cleanup : state -> state)
  : method A :=
  fun st => let '(st1, r) := body st in (cleanup st1, r).

Declare Scope method_scope.
Delimit Scope method_scope with method.
Notation "m1 ;; m2" := (bind m1 (fun _ => m2))
  (at level 61, right associativity) : method_scope.

(** The tail shared by the five setters: the generic event, or the note that
    a change was made while [setAll] runs. *)
Definition settings_changed (st : state) : state :=
  if notify_all st then notifyObservers settings_change st
  else set_change_made true st.

Definition setMinConfScore (newval : Z) : method unit :=
  fun st =>
    if (newval >? 61) || (newval <? 1) then raise ConsensSeqSettingsError st
    else if negb (min_confscore st =? newval) then
      let oldval := min_confscore st in
      let st := set_min_confscore newval st in
      let st := notifyObservers
                  (min_confscore_change (min_confscore st) oldval) st in
      ret tt (settings_changed st)
    else ret tt st.

Definition setConsensusAlgorithm (newval : str) : method unit :=
  fun st =>
    if negb (existsb (str_eqb newval) [lit "Bayesian"; lit "legacy"])
    then raise ConsensSeqSettingsError st
    else if negb (str_eqb (consensus_algorithm st) newval) then
      let st := set_consensus_algorithm newval st in
      let st := notifyObservers consensus_algorithm_change st in
      ret tt (settings_changed st)
    else ret tt st.

Definition setDoAutoTrim (newval : bool) : method unit :=
  fun st =>
    if negb (Bool.eqb (do_autotrim st) newval) then
      let st := set_do_autotrim newval st in
      let st := notifyObservers autotrim_change st in
      ret tt (settings_changed st)
    else ret tt st.

Definition setAutoTrimParams (windowsize basecount : Z) : method unit :=
  fun st =>
    if basecount >? windowsize then raise ConsensSeqSettingsError st
    else if negb (autotrim_winsize st =? windowsize)
            || negb (autotrim_basecnt st =? basecount) then
      let st := set_autotrim_winsize windowsize st in
      let st := set_autotrim_basecnt basecount st in
      let st := notifyObservers autotrim_change st in
      ret tt (settings_changed st)
    else ret tt st.

Definition setTrimEndGaps (newval : bool) : method unit :=
  fun st =>
    if negb (Bool.eqb (trim_endgaps st) newval) then
      let st := set_trim_endgaps newval st in
      let st := notifyObservers autotrim_change st in
      ret tt (settings_changed st)
    else ret tt st.

Definition setAll (min_confscore : Z) (consensus_algorithm : str)
    (do_autotrim : bool) (autotrim_params : Z * Z) (trim_endgaps : bool)
  : method unit :=
  (update (set_notify_all false) ;;
   update (set_change_made false) ;;
   try_finally
     (setMinConfScore min_confscore ;;
      setConsensusAlgorithm consensus_algorithm ;;
      setDoAutoTrim do_autotrim ;;
      setAutoTrimParams (fst autotrim_params) (snd autotrim_params) ;;
      setTrimEndGaps trim_endgaps)
     (fun st =>
        let st := set_notify_all true st in
        if change_made st then notifyObservers settings_change st
        else st))%method.

(** The six stored settings. *)
Definition stored (st : state) : Z * str * bool * Z * Z * bool :=
  (min_confscore st, consensus_algorithm st, do_autotrim st,
   autotrim_winsize st, autotrim_basecnt st, trim_endgaps st).

(** The getters. *)
Definition getMinConfScore (st : state) : Z := min_confscore st.
Definition getConsensusAlgorithm (st : state) : str := consensus_algorithm st.
Definition getDoAutoTrim (st : state) : bool := do_autotrim st.
Definition getAutoTrimParams (st : state) : Z * Z :=
  (autotrim_winsize st, autotrim_basecnt st).
Definition getTrimEndGaps (st : state) : bool := trim_endgaps st.

(** [copyFrom]: plain assignments from the getters of [settings]; no setter
    runs, so nothing is validated and nothing is published. *)
Definition copyFrom (settings : state) (st : state) : state :=
  let st := set_min_confscore (getMinConfScore settings) st in
  let st := set_consensus_algorithm (getConsensusAlgorithm settings) st in
  let st := set_do_autotrim (getDoAutoTrim settings) st in
  let st := set_autotrim_winsize (fst (getAutoTrimParams settings)) st in
  let st := set_autotrim_basecnt (snd (getAutoTrimParams settings)) st in
  set_trim_endgaps (getTrimEndGaps settings) st.

End Settings.

(** ** [ConsensSeqBuilder] *)
Module Builder.

(** Modelled from the spec: a sequencing trace (class [SequenceTrace] is not
    part of the sources at hand) offers its base calls and, for an index of
    its own, the Phred-type confidence score of the call, an integer. *)
Record trace : Type := mkTrace {
  getBaseCalls : str;
  getBaseCallConf : Z -> Z
}.

(** The attributes [__init__] sets up for the consensus methods: the traces,
    the aligned sequences and, for each alignment column, the index of the
    column in the originating trace. *)
Record builder : Type := mkBuilder {
  seqt1 : trace;
  seqt2 : trace;
  seq1aligned : str;
  seq2aligned : str;
  seq1indexed : list Z;
  seq2indexed : list Z
}.

(** [__init__] for a single trace: the trace is its own alignment. *)
Definition init_single (t : trace) : builder :=
  mkBuilder t t (getBaseCalls t) []
            (Py.range (Py.len (getBaseCalls t))) [].

Definition gap : ascii := "-"%char.
Definition N : ascii := "N"%char.

(** [c not in ('-', 'N')] *)
Definition usable (c : ascii) : bool :=
  negb (existsb (Ascii.eqb c) [gap; N]).

(** *** [makeSingleConsensus] *)

Definition single_body (b : builder) (min_confscore : Z) (cnt : Z)
    (acc : str * list Z) : res (str * list Z) :=
  (let '(cons_, consconf) := acc in
   cbase <- Py.index (seq1aligned b) cnt ;;
   i <- Py.index (seq1indexed b) cnt ;;
   let cscore := getBaseCallConf (seqt1 b) i in
   let cbase := if cscore <? min_confscore then N else cbase in
   Ok (Py.append cons_ cbase, Py.append consconf cscore))%res.

Definition makeSingleConsensus (min_confscore : Z) (b : builder)
  : res (str * list Z) :=
  Py.for_each (Py.range (Py.len (seq1aligned b)))
              (single_body b min_confscore) ([], []).

(** *** [makeLegacyConsensus] *)

(** The variables that live across the iterations of the loop: [cbase] and
    [cbase2] keep the value of an earlier column when the current one
    assigns none, and are unbound before their first assignment. *)
Record legacy_vars : Type := mkLegacy {
  l_cbase : option ascii;
  l_cbase2 : option ascii;
  l_cons : str;
  l_consconf : list Z
}.

Definition legacy_body (b : builder) (min_confscore : Z) (cnt : Z)
    (v : legacy_vars) : res legacy_vars :=
  (let cscore := -1 in
   let cscore2 := -1 in
   c1 <- Py.index (seq1aligned b) cnt ;;
   '(cbase, cscore) <-
     (if negb (Ascii.eqb c1 gap) && negb (Ascii.eqb c1 N) then
        i <- Py.index (seq1indexed b) cnt ;;
        Ok (Some c1, getBaseCallConf (seqt1 b) i)
      else Ok (l_cbase v, cscore)) ;;
   c2 <- Py.index (seq2aligned b) cnt ;;
   '(cbase2, cscore2) <-
     (if negb (Ascii.eqb c2 gap) && negb (Ascii.eqb c2 N) then
        i <- Py.index (seq2indexed b) cnt ;;
        Ok (Some c2, getBaseCallConf (seqt2 b) i)
      else Ok (l_cbase2 v, cscore2)) ;;
   '(cbase, cscore) <-
     (if cscore >=? min_confscore then
        if cscore2 >=? min_confscore then
          x <- Py.local cbase ;;
          y <- Py.local cbase2 ;;
          if negb (Ascii.eqb x y) then Ok (Some N, cscore)
          else Ok (cbase, cscore)
        else Ok (cbase, cscore)
      else if cscore2 >=? min_confscore then
        y <- Py.local cbase2 ;;
        Ok (Some y, cscore2)
      else Ok (Some N, cscore)) ;;
   x <- Py.local cbase ;;
   Ok (mkLegacy cbase cbase2
         (Py.append (l_cons v) x)
         (Py.append (l_consconf v)
                    (if cscore >? cscore2 then cscore else cscore2))))%res.

Definition makeLegacyConsensus (min_confscore : Z) (b : builder)
  : res (str * list Z) :=
  (v <- Py.for_each (Py.range (Py.len (seq1aligned b)))
                    (legacy_body b min_confscore)
                    (mkLegacy None None [] []) ;;
   Ok (l_cons v, l_consconf v))%res.

(** *** [trimConsensus] *)

(** The dictionary [base_to_int]; a character that is not a key raises. *)
Definition base_to_int (c : ascii) : res Z :=
  if existsb (Ascii.eqb c) ["A"; "C"; "G"; "T"]%char then Ok 1
  else if existsb (Ascii.eqb c) ["N"; " "]%char then Ok 0
  else Raise KeyError.

(** [[base_to_int[base] for base in consensus]] *)
Fixpoint consvals_of (consensus : str) : res (list Z) :=
  match consensus with
  | [] => Ok []
  | c :: rest =>
      (x <- base_to_int c ;; xs <- consvals_of rest ;; Ok (x :: xs))%res
  end.

(** One slide of the window to the right: the loop variables are [index] and
    [num_good]. *)
Definition slide_right (consvals : list Z) (winsize : Z) (s : Z * Z)
  : res (Z * Z) :=
  (let '(index, num_good) := s in
   x <- Py.index consvals (index + winsize) ;;
   let num_good := num_good + x in
   y <- Py.index consvals index ;;
   let num_good := num_good - y in
   Ok (index + 1, num_good))%res.

(** One slide of the window to the left. *)
Definition slide_left (consvals : list Z) (winsize : Z) (s : Z * Z)
  : res (Z * Z) :=
  (let '(index, num_good) := s in
   x <- Py.index consvals (index - winsize) ;;
   let num_good := num_good + x in
   y <- Py.index consvals index ;;
   let num_good := num_good - y in
   Ok (index - 1, num_good))%res.

(** The two sliding loops of [trimConsensus]: [index_left], [index_right]
    and the count of good bases in the last window looked at.  Neither loop
    can test its condition more than [len(consensus) + 1] times without
    raising, which bounds the fuel. *)
Definition trimCutoffs (winsize basecnt : Z) (consensus : str)
  : res (Z * Z * Z) :=
  (let n := Py.len consensus in
   let fuel := Datatypes.S (Datatypes.S (length consensus)) in
   consvals <- consvals_of consensus ;;
   let index := 0 in
   let num_good := Py.sum (Py.slice consvals 0 winsize) in
   '(index, num_good) <-
     Py.while fuel
       (fun '(index, num_good) =>
          (num_good <? basecnt) && (index + winsize <? n))
       (slide_right consvals winsize) (index, num_good) ;;
   let index_left := index in
   let index := n - 1 in
   let num_good :=
     Py.sum (Py.slice consvals (Py.len consvals - winsize) (Py.len consvals)) in
   '(index, num_good) <-
     Py.while fuel
       (fun '(index, num_good) =>
          (num_good <? basecnt) && (index - winsize >=? index_left))
       (slide_left consvals winsize) (index, num_good) ;;
   let index_right := index in
   Ok (index_left, index_right, num_good))%res.

Definition trimConsensus (winsize basecnt : Z) (consensus : str) : res str :=
  (if Py.len consensus <? winsize then Ok consensus
   else
     '(index_left, index_right, num_good) <-
       trimCutoffs winsize basecnt consensus ;;
     if num_good <? basecnt then Ok (Py.spaces (Py.len consensus))
     else Ok (Py.spaces index_left
              ++ Py.slice consensus index_left (index_right + 1)
              ++ Py.spaces (Py.len consensus - index_right - 1)))%res.

(** *** [makeBayesianConsensus] *)

(** A dictionary indexed by base characters.  The dictionaries of the
    Bayesian consensus are created with the keys ['A'], ['T'], ['G'], ['C'],
    and these are the only keys ever read, so no lookup can raise.  The
    values are reals where the program has binary64 floats: probabilities
    and scores carry no rounding. *)
Definition dict : Type := ascii -> R.

(** [d[k] = v] *)
Definition dict_set (d : dict) (k : ascii) (v : R) : dict :=
  fun x => if Ascii.eqb x k then v else d x.

(** [{'A': 0.0, 'T': 0.0, 'G': 0.0, 'C': 0.0}] *)
Definition zero_dist : dict := fun _ => 0%R.

(** [('A', 'T', 'G', 'C')] *)
Definition bases : list ascii := ["A"; "T"; "G"; "C"]%char.

(** [x / y] on floats: dividing by zero raises.  Over the reals the
    denominator of the posterior is zero only when every product is zero;
    in binary64 it can also underflow to zero, at scores far above any the
    properties below admit. *)
Definition fdiv (x y : R) : res R :=
  if Req_dec_T y 0 then Raise ZeroDivisionError else Ok (x / y)%R.

(** [math.log10(x)]: a domain error unless [x] is positive.  Over the reals
    [1 - p] is zero only for a posterior [p] of exactly 1; in binary64 it is
    also zero when [p] rounds to 1, which two concordant calls reach from
    score 77 on.  For scores up to 61 the two agree on which branch is
    taken. *)
Definition log10 (x : R) : res R :=
  if Rle_dec x 0 then Raise ValueError else Ok (ln x / ln 10)%R.

Definition defineBasePrDist (basecall : ascii) (score : Z) (distdict : dict)
  : dict :=
  let eprob := Rpower 10 (IZR score / -10) in
  let distdict := dict_set distdict basecall (1 - eprob)%R in
  fold_left
    (fun distdict base =>
       if negb (Ascii.eqb base basecall)
       then dict_set distdict base (eprob / 3)%R
       else distdict)
    bases distdict.

Definition calcPosteriorBasePrDist (base1 : ascii) (score1 : Z)
    (base2 : ascii) (score2 : Z) (distdict : dict) : res dict :=
  let prior := defineBasePrDist base1 score1 zero_dist in
  let distdict := defineBasePrDist base2 score2 distdict in
  let denom :=
    fold_left (fun denom base => (denom + distdict base * prior base)%R)
              bases 0%R in
  fold_left
    (fun r base =>
       (distdict <- r ;;
        q <- fdiv (distdict base * prior base) denom ;;
        Ok (dict_set distdict base q))%res)
    bases (Ok distdict).

Definition getMostProbableBase (nppd : dict) : res (ascii * R) :=
  (let cbase :=
     fold_left
       (fun cbase base =>
          if Rgt_dec (nppd base) (nppd cbase) then base else cbase)
       ["T"; "G"; "C"]%char "A"%char in
   cscore <-
     (if Rgt_dec (nppd cbase) 0 then
        l <- log10 (1 - nppd cbase) ;; Ok (-10 * l)%R
      else Ok 0%R) ;;
   let cscore := (cscore + 1 / 1000000)%R in
   Ok (cbase, cscore))%res.

(** The variables that live across the iterations of the loop: [score1] and
    [score2] keep the value of an earlier column when the current one
    assigns none, and [nppd] is one dictionary updated in place. *)
Record bayes_vars : Type := mkBayes {
  b_score1 : option Z;
  b_score2 : option Z;
  b_nppd : dict;
  b_cons : str;
  b_consconf : list R
}.

Definition bayes_body (b : builder) (min_confscore : Z) (cnt : Z)
    (v : bayes_vars) : res bayes_vars :=
  (let base1 := N in
   let base2 := N in
   c1 <- Py.index (seq1aligned b) cnt ;;
   '(base1, score1) <-
     (if usable c1 then
        i <- Py.index (seq1indexed b) cnt ;;
        Ok (c1, Some (getBaseCallConf (seqt1 b) i))
      else Ok (base1, b_score1 v)) ;;
   c2 <- Py.index (seq2aligned b) cnt ;;
   '(base2, score2) <-
     (if usable c2 then
        i <- Py.index (seq2indexed b) cnt ;;
        Ok (c2, Some (getBaseCallConf (seqt2 b) i))
      else Ok (base2, b_score2 v)) ;;
   '(cbase, cscore, nppd) <-
     (if negb (Ascii.eqb base1 N) && negb (Ascii.eqb base2 N) then
        s1 <- Py.local score1 ;;
        s2 <- Py.local score2 ;;
        nppd <- calcPosteriorBasePrDist base1 s1 base2 s2 (b_nppd v) ;;
        '(cbase, cscore) <- getMostProbableBase nppd ;;
        Ok (cbase, cscore, nppd)
      else if negb (Ascii.eqb base1 N) then
        s1 <- Py.local score1 ;; Ok (base1, IZR s1, b_nppd v)
      else if negb (Ascii.eqb base2 N) then
        s2 <- Py.local score2 ;; Ok (base2, IZR s2, b_nppd v)
      else Ok (N, 1%R, b_nppd v)) ;;
   let cons_ :=
     if Rge_dec cscore (IZR min_confscore)
     then Py.append (b_cons v) cbase
     else Py.append (b_cons v) N in
   Ok (mkBayes score1 score2 nppd cons_ (Py.append (b_consconf v) cscore))
  )%res.

Definition makeBayesianConsensus (min_confscore : Z) (b : builder)
  : res (str * list R) :=
  (v <- Py.for_each (Py.range (Py.len (seq1aligned b)))
                    (bayes_body b min_confscore)
                    (mkBayes None None zero_dist [] []) ;;
   Ok (b_cons v, b_consconf v))%res.

End Builder.

(** ** [ConsensSeqBuilder]: the object and its other methods *)
Module BuilderObject.
Import Builder.

(** A builder object: the number of traces, the settings object, the
    attributes of the alignment, and the consensus with its confidence
    scores (integers of the traces or floats of the Bayesian consensus). *)
Record object : Type := mkObject {
  numseqs : Z;
  settings : Settings.state;
  alignment : builder;
  consensus : str;
  consconf : list R
}.

Definition set_consensus (c : str) (o : object) : object :=
  mkObject (numseqs o) (settings o) (alignment o) c (consconf o).

Definition set_result (c : str) (conf : list R) (o : object) : object :=
  mkObject (numseqs o) (settings o) (alignment o) c conf.

Definition getNumSeqs (o : object) : Z := numseqs o.

Definition getSettings (o : object) : Settings.state := settings o.

Definition setConsensSequence (use_consens_seq : str) (o : object)
  : res object :=
  if Py.len use_consens_seq =? Py.len (consensus o)
  then Ok (set_consensus use_consens_seq o)
  else Raise ConsensSeqBuilderError.

(** [getConsensus(startindex=0, endindex=-1)] *)
Definition getConsensus (startindex endindex : Z) (o : object) : str :=
  let endindex :=
    if endindex =? -1 then Py.len (consensus o) - 1 else endindex in
  Py.slice (consensus o) startindex (endindex + 1).

(** [self.consensus.replace(' ', '')] *)
Definition getCompactConsensus (o : object) : str :=
  filter (fun c => negb (Ascii.eqb c Py.space)) (consensus o).

(** The test that opens the three accessors by sequence number. *)
Definition invalid_sequence_number (sequence_num : Z) (o : object) : bool :=
  (sequence_num <? 0) || (sequence_num >=? numseqs o).

Definition getAlignedSequence (sequence_num : Z) (o : object) : res str :=
  if invalid_sequence_number sequence_num o
  then Raise ConsensSeqBuilderError
  else if sequence_num =? 0 then Ok (seq1aligned (alignment o))
  else Ok (seq2aligned (alignment o)).

Definition getSequenceTrace (sequence_num : Z) (o : object) : res trace :=
  if invalid_sequence_number sequence_num o
  then Raise ConsensSeqBuilderError
  else if sequence_num =? 0 then Ok (seqt1 (alignment o))
  else Ok (seqt2 (alignment o)).

Definition getActualSeqIndex (sequence_num alignment_index : Z) (o : object)
  : res Z :=
  if invalid_sequence_number sequence_num o
  then Raise ConsensSeqBuilderError
  else if sequence_num =? 0
       then Py.index (seq1indexed (alignment o)) alignment_index
       else Py.index (seq2indexed (alignment o)) alignment_index.

(** [(i < len(self.seq1aligned)) and (seq[i] == '-')] *)
Definition gap_ahead (o : object) (seq : str) (lgindex : Z) : res bool :=
  if lgindex <? Py.len (seq1aligned (alignment o)) then
    (c <- Py.index seq lgindex ;; Ok (Ascii.eqb c gap))%res
  else Ok false.

(** [(i >= 0) and (seq[i] == '-')] *)
Definition gap_behind (seq : str) (rgindex : Z) : res bool :=
  if rgindex >=? 0 then
    (c <- Py.index seq rgindex ;; Ok (Ascii.eqb c gap))%res
  else Ok false.

(** The loops of the two methods below move one column per iteration, so
    neither tests its condition more than [len(seq1aligned) + 1] times. *)
Definition scan_fuel (o : object) : nat :=
  Datatypes.S (Datatypes.S (length (seq1aligned (alignment o)))).

Definition getLeftEndGapStart (o : object) : res Z :=
  (if numseqs o =? 1 then Ok (-1)
   else
     let lgindex := 0 in
     c1 <- Py.index (seq1aligned (alignment o)) 0 ;;
     lgindex <-
       (if Ascii.eqb c1 gap then
          Py.while_raising (scan_fuel o)
            (gap_ahead o (seq1aligned (alignment o)))
            (fun lgindex => Ok (lgindex + 1)) lgindex
        else
          c2 <- Py.index (seq2aligned (alignment o)) 0 ;;
          if Ascii.eqb c2 gap then
            Py.while_raising (scan_fuel o)
              (gap_ahead o (seq2aligned (alignment o)))
              (fun lgindex => Ok (lgindex + 1)) lgindex
          else Ok lgindex) ;;
     if lgindex =? Py.len (seq1aligned (alignment o)) then Ok (-1)
     else Ok lgindex)%res.

Definition getRightEndGapStart (o : object) : res Z :=
  (if numseqs o =? 1 then Ok (-1)
   else
     let rgindex := Py.len (seq1aligned (alignment o)) - 1 in
     c1 <- Py.index (seq1aligned (alignment o)) rgindex ;;
     if Ascii.eqb c1 gap then
       Py.while_raising (scan_fuel o)
         (gap_behind (seq1aligned (alignment o)))
         (fun rgindex => Ok (rgindex - 1)) rgindex
     else
       c2 <- Py.index (seq2aligned (alignment o)) rgindex ;;
       if Ascii.eqb c2 gap then
         Py.while_raising (scan_fuel o)
           (gap_behind (seq2aligned (alignment o)))
           (fun rgindex => Ok (rgindex - 1)) rgindex
       else Ok rgindex)%res.

Definition trimEndGaps (o : object) : res object :=
  (if numseqs o =? 1 then Ok o
   else
     lgindex <- getLeftEndGapStart o ;;
     rgindex <- getRightEndGapStart o ;;
     let lgindex := if rgindex =? -1 then 0 else lgindex in
     Ok (set_consensus
           (Py.spaces lgindex
            ++ Py.slice (consensus o) lgindex (rgindex + 1)
            ++ Py.spaces (Py.len (consensus o) - rgindex - 1)) o))%res.

(** The method [trimConsensus] on the object. *)
Definition trimConsensus (winsize basecnt : Z) (o : object) : res object :=
  (c <- Builder.trimConsensus winsize basecnt (consensus o) ;;
   Ok (set_consensus c o))%res.

Definition makeConsensusSequence (o : object) : res object :=
  (let min_confscore := Settings.getMinConfScore (settings o) in
   o <-
     (if numseqs o =? 1 then
        '(c, conf) <- makeSingleConsensus min_confscore (alignment o) ;;
        Ok (set_result c (map IZR conf) o)
      else if str_eqb (Settings.getConsensusAlgorithm (settings o))
                      (lit "Bayesian") then
        '(c, conf) <- makeBayesianConsensus min_confscore (alignment o) ;;
        Ok (set_result c conf o)
      else
        '(c, conf) <- makeLegacyConsensus min_confscore (alignment o) ;;
        Ok (set_result c (map IZR conf) o)) ;;
   if Settings.getDoAutoTrim (settings o) then
     o <- (if Settings.getTrimEndGaps (settings o) then trimEndGaps o
           else Ok o) ;;
     let '(winsize, basecnt) := Settings.getAutoTrimParams (settings o) in
     trimConsensus winsize basecnt o
   else Ok o)%res.

(** [__init__] with one trace: the trace is its own alignment, and the
    consensus is built at once.  (With two traces the aligned sequences
    come from [PairwiseAlignment], which is not part of the sources at
    hand.) *)
Definition init_one (t : trace) (settings : Settings.state) : res object :=
  makeConsensusSequence (mkObject 1 settings (init_single t) [] []).

End BuilderObject.

(** * Specification vocabulary *)

(** ** Settings *)

Section SettingsSpec.
Import Settings.

(** The arguments every validating setter of the batch accepts. *)
Definition accepted (mc : Z) (alg : str) (w b : Z) : Prop :=
  1 <= mc <= 61 /\ (alg = lit "Bayesian" \/ alg = lit "legacy") /\ b <= w.

(** The setters of [setAll], in the order of the [try] block. *)
Definition batch_body (mc : Z) (alg : str) (dat : bool) (w b : Z)
    (teg : bool) : method unit :=
  (setMinConfScore mc ;; setConsensusAlgorithm alg ;; setDoAutoTrim dat ;;
   setAutoTrimParams w b ;; setTrimEndGaps teg)%method.

(** What a setter that returns does while [setAll] runs: it stays in batch
    mode, publishes no [settings_change], raises [change_made] exactly when
    it [changes] its field, and leaves [sto] as the stored settings. *)
Record quiet_set (st st' : state) (changes : Prop)
    (sto : Z * str * bool * Z * Z * bool) : Prop := {
  qs_mode : notify_all st' = false;
  qs_events : exists evs,
      published st' = published st ++ evs /\ ~ In settings_change evs;
  qs_flag : change_made st' = true <-> change_made st = true \/ changes;
  qs_stored : stored st' = sto
}.

(** The object while the body of [setAll] runs, [st0] being the object at
    its start. *)
Record batch (st0 st : state) : Prop := {
  b_mode : notify_all st = false;
  b_events : exists evs,
      published st = published st0 ++ evs /\ ~ In settings_change evs;
  b_flag : change_made st = true <-> stored st <> stored st0
}.

(** The values the validating setters let through: the invariant of a
    settings object. *)
Definition valid (st : state) : Prop :=
  1 <= min_confscore st <= 61 /\
  (consensus_algorithm st = lit "Bayesian"
   \/ consensus_algorithm st = lit "legacy") /\
  autotrim_basecnt st <= autotrim_winsize st.

(** A setter call outside [setAll] that changes a value: the specific event
    [ev], then the generic one, and nothing else. *)
Definition announces (st st' : state) (ev : event) : Prop :=
  published st' = published st ++ [ev; settings_change] /\
  notify_all st' = notify_all st /\ change_made st' = change_made st.

End SettingsSpec.

(** ** Editing *)

Section EditableSpec.
Import Editable.

(** An edit record that fits a consensus of length [n]: a closed range
    inside the string, with data of the length of the range. *)
Definition fits (n : Z) (e : edit) : Prop :=
  0 <= e_start e <= e_end e /\ e_end e < n /\
  Py.len (e_data e) = e_end e - e_start e + 1.

(** The invariant of the editor: every record of both stacks fits the
    consensus. *)
Definition well_formed (st : state) : Prop :=
  Forall (fits (Py.len (consensus st))) (undo_stack st) /\
  Forall (fits (Py.len (consensus st))) (redo_stack st).

(** A user edit. *)
Inductive op : Type :=
| Delete (start_index end_index : Z)
| Modify (start_index end_index : Z) (newseq : str).

Definition run_op (o : op) (st : state) : res state :=
  match o with
  | Delete a b => Ok (deleteBases a b st)
  | Modify a b newseq => modifyBases a b newseq st
  end.

(** The edits of a list, one after the other, stopping at the first that
    raises. *)
Fixpoint run_ops (os : list op) (st : state) : res state :=
  match os with
  | [] => Ok st
  | o :: os' => (st' <- run_op o st ;; run_ops os' st')%res
  end.

(** An edit whose two indexes are inside a consensus of length [n], in
    either order, with a replacement of the length of the range. *)
Definition in_range (n : Z) (o : op) : Prop :=
  match o with
  | Delete a b => 0 <= a < n /\ 0 <= b < n
  | Modify a b newseq =>
      0 <= a < n /\ 0 <= b < n /\ Py.len newseq = Z.abs (b - a) + 1
  end.

End EditableSpec.

(** ** Consensus columns and trimming *)

Section BuilderSpec.
Import Builder.

(** What the loop has appended for the columns before [k]. *)
Definition single_done (b : builder) (t : Z) (k : nat)
    (acc : str * list Z) : Prop :=
  length (fst acc) = k /\ length (snd acc) = k /\
  forall j c i, (j < k)%nat ->
    nth_error (seq1aligned b) j = Some c ->
    nth_error (seq1indexed b) j = Some i ->
    nth_error (snd acc) j = Some (getBaseCallConf (seqt1 b) i) /\
    nth_error (fst acc) j =
      Some (if getBaseCallConf (seqt1 b) i <? t then N else c).

(** The score a sequence brings to a column: its trace confidence, or the
    sentinel. *)
Definition legacy_score (t : trace) (c : ascii) (i : Z) : Z :=
  if usable c then getBaseCallConf t i else -1.

(** The base of a column, by the four cases on who clears the threshold. *)
Definition legacy_base (min_confscore : Z) (c1 : ascii) (s1 : Z)
    (c2 : ascii) (s2 : Z) : ascii :=
  if min_confscore <=? s1 then
    if min_confscore <=? s2 then (if Ascii.eqb c1 c2 then c1 else N)
    else c1
  else if min_confscore <=? s2 then c2 else N.

(** What the loop has appended for the columns before [k]. *)
Definition legacy_done (b : builder) (min_confscore : Z) (k : nat)
    (v : legacy_vars) : Prop :=
  length (l_cons v) = k /\ length (l_consconf v) = k /\
  forall j c1 c2 i1 i2, (j < k)%nat ->
    nth_error (seq1aligned b) j = Some c1 ->
    nth_error (seq2aligned b) j = Some c2 ->
    nth_error (seq1indexed b) j = Some i1 ->
    nth_error (seq2indexed b) j = Some i2 ->
    let s1 := legacy_score (seqt1 b) c1 i1 in
    let s2 := legacy_score (seqt2 b) c2 i2 in
    nth_error (l_consconf v) j = Some (Z.max s1 s2) /\
    nth_error (l_cons v) j = Some (legacy_base min_confscore c1 s1 c2 s2).

(** The characters a consensus string is made of, the keys of
    [base_to_int]. *)
Definition in_alphabet (c : ascii) : Prop := In c (lit "ACGTN ").

(** A called base, as opposed to ['N'] and to a blank. *)
Definition is_base (c : ascii) : bool :=
  existsb (Ascii.eqb c) ["A"; "C"; "G"; "T"]%char.

(** The number of called bases in the window of [winsize] positions that
    starts at position [i] of a consensus string. *)
Definition good_bases (s : str) (winsize i : Z) : Z :=
  Py.len (filter is_base (Py.slice s i (i + winsize))).

(** The sum the loops of [trimConsensus] keep: the values of the window of
    [winsize] positions that starts at position [i]. *)
Definition window (winsize : Z) (consvals : list Z) (i : Z) : Z :=
  Py.sum (Py.slice consvals i (i + winsize)).

(** The number of gap characters a sequence of the alignment starts with,
    and the number it ends with. *)
Fixpoint leading_gaps (s : str) : Z :=
  match s with
  | c :: rest => if Ascii.eqb c gap then 1 + leading_gaps rest else 0
  | [] => 0
  end.

Definition trailing_gaps (s : str) : Z := leading_gaps (rev s).

(** No column of the alignment is a gap in both sequences. *)
Definition no_double_gap (a b : str) : Prop :=
  forall i, ~ (nth_error a i = Some gap /\ nth_error b i = Some gap).

(** Column [i] lies in the overlap of the two sequences: it is in the
    leading or trailing run of gaps of neither. *)
Definition in_overlap (a b : str) (i : Z) : bool :=
  (Z.max (leading_gaps a) (leading_gaps b) <=? i) &&
  (i <=? Py.len a - 1 - Z.max (trailing_gaps a) (trailing_gaps b)).

(** The builder with the two traces in the other order. *)
Definition swapped (b : builder) : builder :=
  mkBuilder (seqt2 b) (seqt1 b) (seq2aligned b) (seq1aligned b)
            (seq2indexed b) (seq1indexed b).

End BuilderSpec.

(** ** Bayesian mode *)

Section BayesSpec.
Import Builder.
Local Open Scope R_scope.

(** The error probability of a call with Phred score [s]. *)
Definition error_prob (s : Z) : R := Rpower 10 (IZR s / -10).

(** The distribution of a call [(b, s)] over the bases. *)
Definition call_dist (b : ascii) (s : Z) (x : ascii) : R :=
  if Ascii.eqb x b then 1 - error_prob s else error_prob s / 3.

(** Likelihood (second call) times prior (first call). *)
Definition joint (b1 : ascii) (s1 : Z) (b2 : ascii) (s2 : Z) (x : ascii) : R :=
  call_dist b2 s2 x * call_dist b1 s1 x.

(** The shared denominator: the sum of the joint weights of the bases. *)
Definition evidence (b1 : ascii) (s1 : Z) (b2 : ascii) (s2 : Z) : R :=
  joint b1 s1 b2 s2 "A" + joint b1 s1 b2 s2 "T"
  + joint b1 s1 b2 s2 "G" + joint b1 s1 b2 s2 "C".

Definition posterior (b1 : ascii) (s1 : Z) (b2 : ascii) (s2 : Z) (x : ascii)
  : R :=
  joint b1 s1 b2 s2 x / evidence b1 s1 b2 s2.

(** The place of a base in the order of preference A, T, G, C. *)
Definition rank (x : ascii) : nat :=
  if Ascii.eqb x "A" then 0
  else if Ascii.eqb x "T" then 1
  else if Ascii.eqb x "G" then 2
  else 3.

(** [cb] has the highest weight, and wins ties by coming first. *)
Definition most_probable (post : ascii -> R) (cb : ascii) : Prop :=
  In cb bases /\
  (forall x, In x bases -> post x <= post cb) /\
  (forall x, In x bases -> (rank x < rank cb)%nat -> post x < post cb).

(** The Phred-type score of a posterior probability, with the rounding
    allowance added. *)
Definition phred (p : R) : R :=
  (if Req_dec_T p 0 then 0 else -10 * (ln (1 - p) / ln 10)) + 1 / 1000000.

(** What Bayesian mode records for a column with characters [c1], [c2] and
    trace confidences [s1], [s2]: [cbase] is the consensus base before the
    threshold is applied, [base] and [score] are the recorded entries. *)
Definition bayes_column (min_confscore : Z) (c1 : ascii) (s1 : Z)
    (c2 : ascii) (s2 : Z) (base : ascii) (score : R) : Prop :=
  exists cbase,
    (score < IZR min_confscore -> base = N) /\
    (IZR min_confscore <= score -> base = cbase) /\
    (usable c1 = false -> usable c2 = false -> cbase = N /\ score = 1) /\
    (usable c1 = true -> usable c2 = false ->
     cbase = c1 /\ score = IZR s1) /\
    (usable c1 = false -> usable c2 = true ->
     cbase = c2 /\ score = IZR s2) /\
    (usable c1 = true -> usable c2 = true ->
     most_probable (posterior c1 s1 c2 s2) cbase /\
     score = phred (posterior c1 s1 c2 s2 cbase)).

(** What the loop has appended for the columns before [k]. *)
Definition bayes_done (b : builder) (min_confscore : Z) (k : nat)
    (v : bayes_vars) : Prop :=
  length (b_cons v) = k /\ length (b_consconf v) = k /\
  forall j c1 c2 i1 i2, (j < k)%nat ->
    nth_error (seq1aligned b) j = Some c1 ->
    nth_error (seq2aligned b) j = Some c2 ->
    nth_error (seq1indexed b) j = Some i1 ->
    nth_error (seq2indexed b) j = Some i2 ->
    exists base score,
      nth_error (b_cons v) j = Some base /\
      nth_error (b_consconf v) j = Some score /\
      bayes_column min_confscore c1 (getBaseCallConf (seqt1 b) i1)
                   c2 (getBaseCallConf (seqt2 b) i2) base score.

End BayesSpec.

(** * Properties *)

(** ** Python built-ins *)

Lemma pop_append {A : Type} (l : list A) (a : A) :
  Py.pop (Py.append l a) = Some (l, a).
Proof.
  unfold Py.append.
  induction l as [|x l IH]; simpl; [reflexivity|].
  now rewrite IH.
Qed.

Lemma clip_in_range (n i : Z) : 0 <= i <= n -> Py.clip n i = i.
Proof. unfold Py.clip. intros H. destruct (Z.ltb_spec i 0); lia. Qed.

Lemma len_app {A : Type} (s t : list A) : Py.len (s ++ t) = Py.len s + Py.len t.
Proof. unfold Py.len. rewrite length_app. lia. Qed.

Lemma len_nonneg {A : Type} (s : list A) : 0 <= Py.len s.
Proof. unfold Py.len. lia. Qed.

Lemma len_spaces (n : Z) : 0 <= n -> Py.len (Py.spaces n) = n.
Proof.
  intros H. unfold Py.len, Py.spaces, Py.times. rewrite repeat_length. lia.
Qed.

Lemma slice_prefix {A : Type} (s : list A) (i : Z) :
  0 <= i <= Py.len s -> Py.slice s 0 i = firstn (Z.to_nat i) s.
Proof.
  intros H. unfold Py.slice.
  rewrite (clip_in_range _ 0) by (pose proof (len_nonneg s); lia).
  rewrite (clip_in_range _ i) by lia.
  simpl. now rewrite Z.sub_0_r.
Qed.

Lemma slice_range {A : Type} (s : list A) (i j : Z) :
  0 <= i <= j -> j <= Py.len s ->
  Py.slice s i j = firstn (Z.to_nat (j - i)) (skipn (Z.to_nat i) s).
Proof.
  intros H1 H2. unfold Py.slice.
  now rewrite !clip_in_range by lia.
Qed.

Lemma slice_from_range {A : Type} (s : list A) (i : Z) :
  0 <= i <= Py.len s -> Py.slice_from s i = skipn (Z.to_nat i) s.
Proof. intros H. unfold Py.slice_from. now rewrite clip_in_range by lia. Qed.

(** In range, a string is its prefix, the selected range and its suffix. *)
Lemma slice_decompose {A : Type} (s : list A) (a b : Z) :
  0 <= a <= b -> b < Py.len s ->
  s = Py.slice s 0 a ++ Py.slice s a (b + 1) ++ Py.slice_from s (b + 1).
Proof.
  intros H1 H2.
  rewrite slice_prefix, slice_range, slice_from_range by lia.
  replace (Z.to_nat (b + 1)) with (Z.to_nat (b + 1 - a) + Z.to_nat a)%nat by lia.
  rewrite <- skipn_skipn.
  now rewrite !firstn_skipn.
Qed.

Lemma len_slice_prefix {A : Type} (s : list A) (i : Z) :
  0 <= i <= Py.len s -> Py.len (Py.slice s 0 i) = i.
Proof.
  intros H. rewrite slice_prefix by lia.
  unfold Py.len in *. rewrite length_firstn. lia.
Qed.

Lemma len_slice_range {A : Type} (s : list A) (i j : Z) :
  0 <= i <= j -> j <= Py.len s -> Py.len (Py.slice s i j) = j - i.
Proof.
  intros H1 H2. rewrite slice_range by lia.
  unfold Py.len in *. rewrite length_firstn, length_skipn. lia.
Qed.

Lemma len_slice_from {A : Type} (s : list A) (i : Z) :
  0 <= i <= Py.len s -> Py.len (Py.slice_from s i) = Py.len s - i.
Proof.
  intros H. rewrite slice_from_range by lia.
  unfold Py.len in *. rewrite length_skipn. lia.
Qed.

(** ** Editing: splicing a range *)

Section ThreeParts.
Context {A : Type}.
Variables (p m q : list A) (n k : nat).
Hypothesis Hp : length p = n.
Hypothesis Hm : length m = k.

Lemma firstn_parts : firstn n (p ++ m ++ q) = p.
Proof.
  subst n. rewrite firstn_app, Nat.sub_diag, firstn_all. simpl.
  apply app_nil_r.
Qed.

Lemma skipn_parts : skipn (n + k) (p ++ m ++ q) = q.
Proof.
  subst n k.
  rewrite app_assoc, <- length_app, skipn_app, Nat.sub_diag, skipn_all.
  reflexivity.
Qed.

Lemma middle_parts : firstn k (skipn n (p ++ m ++ q)) = m.
Proof.
  subst n k. rewrite skipn_app, Nat.sub_diag, skipn_all. simpl.
  rewrite firstn_app, Nat.sub_diag, firstn_all. simpl. apply app_nil_r.
Qed.
End ThreeParts.

Section Splice.
Import Editable.
Variables (s : str) (a b : Z).
Hypothesis Hab : 0 <= a <= b.
Hypothesis Hb : b < Py.len s.

Lemma splice_parts (mid : str) :
  splice s a b mid =
  firstn (Z.to_nat a) s ++ mid ++ skipn (Z.to_nat (b + 1)) s.
Proof.
  unfold splice. now rewrite slice_prefix, slice_from_range by lia.
Qed.

Lemma length_before : length (firstn (Z.to_nat a) s) = Z.to_nat a.
Proof. rewrite length_firstn. unfold Py.len in Hb. lia. Qed.

Lemma len_splice (mid : str) :
  Py.len mid = b - a + 1 -> Py.len (splice s a b mid) = Py.len s.
Proof.
  intros Hm. rewrite splice_parts.
  unfold Py.len in *.
  rewrite !length_app, length_before, length_skipn. lia.
Qed.

(** Reading back the range that was written. *)
Lemma slice_splice (mid : str) :
  Py.len mid = b - a + 1 -> Py.slice (splice s a b mid) a (b + 1) = mid.
Proof.
  intros Hm.
  rewrite slice_range by (rewrite ?len_splice; lia).
  rewrite splice_parts.
  apply middle_parts; [apply length_before | unfold Py.len in Hm; lia].
Qed.

(** Writing a range twice keeps only the second write. *)
Lemma splice_splice (mid mid' : str) :
  Py.len mid = b - a + 1 ->
  splice (splice s a b mid) a b mid' = splice s a b mid'.
Proof.
  intros Hm.
  assert (Hlen : Py.len (splice s a b mid) = Py.len s) by now apply len_splice.
  unfold splice at 1.
  rewrite slice_prefix, slice_from_range by lia.
  rewrite !splice_parts.
  f_equal; [|f_equal].
  - apply (firstn_parts _ _ _ _ length_before).
  - replace (Z.to_nat (b + 1)) with (Z.to_nat a + length mid)%nat
      by (unfold Py.len in Hm; lia).
    apply (skipn_parts _ _ _ _ _ length_before eq_refl).
Qed.

(** Writing back what is there changes nothing. *)
Lemma splice_same : splice s a b (Py.slice s a (b + 1)) = s.
Proof.
  unfold splice. symmetry. now apply slice_decompose.
Qed.
End Splice.

(** ** Editing: undo and redo *)

Section EditRoundTrip.
Import Editable.

Lemma modifyBases_ok (st : state) (a b : Z) (newseq : str) :
  a <= b -> Py.len newseq = b - a + 1 ->
  exists st1,
    modifyBases a b newseq st = Ok st1 /\
    consensus st1 = splice (consensus st) a b newseq /\
    undo_stack st1 =
      Py.append (undo_stack st)
        (mkEdit a b (Py.slice (consensus st) a (b + 1))) /\
    redo_stack st1 = redo_stack st.
Proof.
  intros Hab Hlen. unfold modifyBases, ordered.
  destruct (Z.gtb_spec a b) as [Hgt|_]; [lia|].
  rewrite Hlen, Z.eqb_refl. simpl negb. cbv iota.
  eexists. split; [reflexivity|].
  destruct (_ =? 1); simpl; auto.
Qed.

Lemma undo_after_push (st : state) (u : edit) (rest : list edit) :
  undo_stack st = Py.append rest u ->
  consensus (undo st) = splice (consensus st) (e_start u) (e_end u) (e_data u) /\
  redo_stack (undo st) =
    Py.append (redo_stack st)
      (mkEdit (e_start u) (e_end u)
              (Py.slice (consensus st) (e_start u) (e_end u + 1))) /\
  undo_stack (undo st) = rest.
Proof.
  intros Hu. unfold undo. rewrite Hu, pop_append.
  repeat match goal with |- context [if ?c then _ else _] => destruct c end;
    simpl; auto.
Qed.

Lemma redo_after_push (st : state) (r : edit) (rest : list edit) :
  redo_stack st = Py.append rest r ->
  consensus (redo st) = splice (consensus st) (e_start r) (e_end r) (e_data r).
Proof.
  intros Hr. unfold redo. rewrite Hr, pop_append.
  repeat match goal with |- context [if ?c then _ else _] => destruct c end;
    simpl; auto.
Qed.

(** C7: for an in-range closed range [a, b] and a replacement of matching
    length, [modifyBases] succeeds, a following [undo] gives back exactly the
    consensus string held before the edit, and a following [redo] gives back
    exactly the consensus string held after the edit. *)
Theorem modify_undo_redo_roundtrip (st : state) (a b : Z) (newseq : str) :
  0 <= a <= b -> b < Py.len (consensus st) ->
  Py.len newseq = b - a + 1 ->
  exists st1,
    modifyBases a b newseq st = Ok st1 /\
    consensus (undo st1) = consensus st /\
    consensus (redo (undo st1)) = consensus st1.
Proof.
  intros Hab Hb Hlen.
  destruct (modifyBases_ok st a b newseq) as (st1 & Hm & Hc & Hu & Hr);
    [lia | assumption |].
  exists st1. split; [assumption|].
  destruct (undo_after_push st1 _ _ Hu) as (Hc' & Hr' & _).
  simpl in Hc', Hr'.
  assert (Hback : consensus (undo st1) = consensus st).
  { rewrite Hc', Hc, splice_splice by assumption.
    now apply splice_same. }
  split; [assumption|].
  rewrite (redo_after_push _ _ _ Hr'). simpl.
  rewrite Hback, Hc, slice_splice by assumption.
  reflexivity.
Qed.

Lemma modify_undo_redo_roundtrip_witness :
  exists st1,
    modifyBases 1 2 ["G"; "G"]%char
      (mkState ["A"; "C"; "N"; "T"]%char [] [] []) = Ok st1 /\
    consensus (undo st1) = ["A"; "C"; "N"; "T"]%char /\
    consensus (redo (undo st1)) = consensus st1.
Proof.
  apply (modify_undo_redo_roundtrip
           (mkState ["A"; "C"; "N"; "T"]%char [] [] []) 1 2 ["G"; "G"]%char);
    vm_compute; intuition congruence.
Defined.

(** C10: on a range given in order, [deleteBases a b] leaves the editor in
    the very state [modifyBases a b s] reaches for [s] made of [b - a + 1]
    spaces: the same consensus string, the same undo record pushed, the same
    events published, [consensus_changed (a, b)] among them. *)
Theorem deleteBases_is_modifyBases_spaces (st : state) (a b : Z) :
  a <= b ->
  modifyBases a b (Py.spaces (b - a + 1)) st = Ok (deleteBases a b st) /\
  consensus (deleteBases a b st) =
    splice (consensus st) a b (Py.spaces (b - a + 1)) /\
  Py.pop (undo_stack (deleteBases a b st)) =
    Some (undo_stack st, mkEdit a b (Py.slice (consensus st) a (b + 1))) /\
  In (consensus_changed a b) (published (deleteBases a b st)).
Proof.
  intros Hab. unfold modifyBases, deleteBases, ordered.
  destruct (Z.gtb_spec a b) as [Hgt|_]; [lia|].
  rewrite len_spaces by lia. rewrite Z.eqb_refl. simpl negb. cbv iota.
  split; [reflexivity|].
  destruct (_ =? 1); simpl; rewrite pop_append;
    repeat split; auto; rewrite ?in_app_iff; simpl; auto.
Qed.

Lemma deleteBases_is_modifyBases_spaces_witness :
  let st := mkState ["A"; "C"; "N"; "T"]%char [] [] [] in
  modifyBases 1 2 (Py.spaces (2 - 1 + 1)) st = Ok (deleteBases 1 2 st) /\
  consensus (deleteBases 1 2 st) =
    splice (consensus st) 1 2 (Py.spaces (2 - 1 + 1)) /\
  Py.pop (undo_stack (deleteBases 1 2 st)) =
    Some (undo_stack st, mkEdit 1 2 (Py.slice (consensus st) 1 (2 + 1))) /\
  In (consensus_changed 1 2) (published (deleteBases 1 2 st)).
Proof.
  intro st.
  apply (deleteBases_is_modifyBases_spaces st 1 2). lia.
Defined.

End EditRoundTrip.

(** ** Settings *)

Lemma str_eqb_eq (s t : str) : str_eqb s t = true <-> s = t.
Proof.
  revert t. induction s as [|c s IH]; intros [|d t]; simpl;
    try (split; [discriminate | congruence]); [tauto|].
  rewrite andb_true_iff, Ascii.eqb_eq, IH.
  split; [intros [-> ->]; reflexivity | intros E; now inversion E].
Qed.

Lemma str_eqb_refl (s : str) : str_eqb s s = true.
Proof. now apply str_eqb_eq. Qed.

Lemma str_eqb_neq (s t : str) : str_eqb s t = false <-> s <> t.
Proof.
  rewrite <- str_eqb_eq. destruct (str_eqb s t); split; congruence.
Qed.

Ltac str_cases :=
  repeat match goal with
         | H : str_eqb _ _ = true |- _ => apply str_eqb_eq in H
         | H : str_eqb _ _ = false |- _ => apply str_eqb_neq in H
         end.

Section SetAll.
Import Settings.

Lemma quiet_set_same (st : state) (changes : Prop) :
  notify_all st = false -> ~ changes -> quiet_set st st changes (stored st).
Proof.
  intros Hq Hn. split; auto; [|tauto].
  exists []. rewrite app_nil_r. auto.
Qed.

Ltac one_event ev :=
  exists [ev]; simpl; split;
  [reflexivity | let X := fresh in intros [X|[]]; discriminate X].

Lemma setMinConfScore_batch (v : Z) (st : state) :
  notify_all st = false ->
  (1 <= v <= 61 /\ snd (setMinConfScore v st) = Ok tt /\
   quiet_set st (fst (setMinConfScore v st)) (min_confscore st <> v)
     (v, consensus_algorithm st, do_autotrim st, autotrim_winsize st,
      autotrim_basecnt st, trim_endgaps st))
  \/ ((v > 61 \/ v < 1) /\
      setMinConfScore v st = (st, Raise ConsensSeqSettingsError)).
Proof.
  intros Hq. unfold setMinConfScore, settings_changed, raise, ret.
  destruct (Z.gtb_spec v 61); destruct (Z.ltb_spec v 1); simpl orb; cbv iota;
    try (right; split; [lia | reflexivity]).
  left. split; [lia|].
  destruct (Z.eqb_spec (min_confscore st) v) as [E|N]; simpl negb; cbv iota.
  - split; [reflexivity|]. simpl fst. rewrite <- E at 2.
    now apply quiet_set_same.
  - simpl. rewrite Hq. simpl. split; [reflexivity|].
    split; simpl; auto; [|tauto].
    one_event (min_confscore_change v (min_confscore st)).
Qed.

Lemma setConsensusAlgorithm_batch (v : str) (st : state) :
  notify_all st = false ->
  ((v = lit "Bayesian" \/ v = lit "legacy") /\
   snd (setConsensusAlgorithm v st) = Ok tt /\
   quiet_set st (fst (setConsensusAlgorithm v st))
     (consensus_algorithm st <> v)
     (min_confscore st, v, do_autotrim st, autotrim_winsize st,
      autotrim_basecnt st, trim_endgaps st))
  \/ (v <> lit "Bayesian" /\ v <> lit "legacy" /\
      setConsensusAlgorithm v st = (st, Raise ConsensSeqSettingsError)).
Proof.
  intros Hq. unfold setConsensusAlgorithm, settings_changed, raise, ret.
  cbn [existsb]. rewrite orb_false_r.
  destruct (str_eqb v (lit "Bayesian") || str_eqb v (lit "legacy")) eqn:EV;
    simpl negb; cbv iota.
  2: { apply orb_false_elim in EV. destruct EV. str_cases. right. auto. }
  apply orb_prop in EV. left. split; [destruct EV; str_cases; auto|].
  destruct (str_eqb (consensus_algorithm st) v) eqn:EC; str_cases;
    simpl negb; cbv iota.
  - split; [reflexivity|]. simpl fst. rewrite <- EC at 2.
    now apply quiet_set_same.
  - simpl. rewrite Hq. simpl. split; [reflexivity|].
    split; simpl; auto; [|tauto].
    one_event consensus_algorithm_change.
Qed.

Lemma setDoAutoTrim_batch (v : bool) (st : state) :
  notify_all st = false ->
  snd (setDoAutoTrim v st) = Ok tt /\
  quiet_set st (fst (setDoAutoTrim v st)) (do_autotrim st <> v)
    (min_confscore st, consensus_algorithm st, v, autotrim_winsize st,
     autotrim_basecnt st, trim_endgaps st).
Proof.
  intros Hq. unfold setDoAutoTrim, settings_changed, ret.
  destruct (Bool.eqb (do_autotrim st) v) eqn:E; simpl negb; cbv iota.
  - apply eqb_prop in E. split; [reflexivity|]. simpl fst. rewrite <- E at 2.
    now apply quiet_set_same.
  - apply eqb_false_iff in E.
    simpl. rewrite Hq. simpl. split; [reflexivity|].
    split; simpl; auto; [|tauto].
    one_event autotrim_change.
Qed.

Lemma setAutoTrimParams_batch (w b : Z) (st : state) :
  notify_all st = false ->
  (b <= w /\ snd (setAutoTrimParams w b st) = Ok tt /\
   quiet_set st (fst (setAutoTrimParams w b st))
     (autotrim_winsize st <> w \/ autotrim_basecnt st <> b)
     (min_confscore st, consensus_algorithm st, do_autotrim st, w, b,
      trim_endgaps st))
  \/ (b > w /\ setAutoTrimParams w b st = (st, Raise ConsensSeqSettingsError)).
Proof.
  intros Hq. unfold setAutoTrimParams, settings_changed, raise, ret.
  destruct (Z.gtb_spec b w); cbv iota; [right; split; [lia|reflexivity]|].
  left. split; [lia|].
  destruct (Z.eqb_spec (autotrim_winsize st) w) as [E1|N1];
    destruct (Z.eqb_spec (autotrim_basecnt st) b) as [E2|N2];
    simpl negb; simpl orb; cbv iota.
  1: { split; [reflexivity|]. simpl fst. rewrite <- E1 at 2. rewrite <- E2 at 2.
       apply quiet_set_same; tauto. }
  all: simpl; rewrite Hq; simpl; (split; [reflexivity|]).
  all: split; simpl; auto; [one_event autotrim_change | tauto].
Qed.

Lemma setTrimEndGaps_batch (v : bool) (st : state) :
  notify_all st = false ->
  snd (setTrimEndGaps v st) = Ok tt /\
  quiet_set st (fst (setTrimEndGaps v st)) (trim_endgaps st <> v)
    (min_confscore st, consensus_algorithm st, do_autotrim st,
     autotrim_winsize st, autotrim_basecnt st, v).
Proof.
  intros Hq. unfold setTrimEndGaps, settings_changed, ret.
  destruct (Bool.eqb (trim_endgaps st) v) eqn:E; simpl negb; cbv iota.
  - apply eqb_prop in E. split; [reflexivity|]. simpl fst. rewrite <- E at 2.
    now apply quiet_set_same.
  - apply eqb_false_iff in E.
    simpl. rewrite Hq. simpl. split; [reflexivity|].
    split; simpl; auto; [|tauto].
    one_event autotrim_change.
Qed.

(** Two tuples of stored settings differ when some component does. *)
Lemma stored_neq (m m' : Z) (a a' : str) (d d' : bool) (w w' b b' : Z)
    (t t' : bool) :
  (m, a, d, w, b, t) <> (m', a', d', w', b', t') <->
  m <> m' \/ a <> a' \/ d <> d' \/ w <> w' \/ b <> b' \/ t <> t'.
Proof.
  split.
  - intros N.
    destruct (Z.eq_dec m m'); [subst|tauto].
    destruct (str_eqb a a') eqn:Ea; str_cases; [subst|tauto].
    destruct (bool_dec d d'); [subst|tauto].
    destruct (Z.eq_dec w w'); [subst|tauto].
    destruct (Z.eq_dec b b'); [subst|tauto].
    destruct (bool_dec t t'); [subst|tauto].
    now contradiction N.
  - intros H E. injection E as -> -> -> -> -> ->. tauto.
Qed.

Lemma batch_start (st0 : state) :
  notify_all st0 = false -> change_made st0 = false -> batch st0 st0.
Proof.
  intros Hq Hc. split; auto.
  - exists []. rewrite app_nil_r. auto.
  - rewrite Hc. split; [discriminate | congruence].
Qed.

Lemma batch_extend (st0 st st' : state) (changes : Prop)
    (sto : Z * str * bool * Z * Z * bool) :
  batch st0 st -> quiet_set st st' changes sto ->
  (stored st <> stored st0 \/ changes <-> sto <> stored st0) ->
  batch st0 st'.
Proof.
  intros [Hm (evs & He & Hn) Hf] [Hm' (evs' & He' & Hn') Hf' Hs] Hiff.
  split; auto.
  - exists (evs ++ evs'). rewrite He', He, app_assoc. split; [reflexivity|].
    rewrite in_app_iff. tauto.
  - rewrite Hf', Hf, Hs. exact Hiff.
Qed.

Ltac stored_fields H :=
  unfold stored in H; simpl in H;
  injection H as ?Fm ?Fa ?Fd ?Fw ?Fb ?Ft.

Lemma batch_body_spec (st0 : state) (mc : Z) (alg : str) (dat : bool)
    (w b : Z) (teg : bool) :
  notify_all st0 = false -> change_made st0 = false ->
  batch st0 (fst (batch_body mc alg dat w b teg st0)) /\
  (snd (batch_body mc alg dat w b teg st0) = Ok tt /\ accepted mc alg w b
   \/ snd (batch_body mc alg dat w b teg st0) = Raise ConsensSeqSettingsError
      /\ ~ accepted mc alg w b).
Proof.
  intros Hq Hc. pose proof (batch_start st0 Hq Hc) as B0.
  unfold batch_body, bind, accepted.
  (* setMinConfScore *)
  destruct (setMinConfScore_batch mc st0 Hq) as [(V1 & R1 & Q1)|(V1 & E1)].
  2: { rewrite E1. simpl. split; [assumption|]. right.
       split; [reflexivity|lia]. }
  destruct (setMinConfScore mc st0) as [s1 r1]. simpl in R1, Q1. subst r1.
  pose proof (qs_stored _ _ _ _ Q1) as S1.
  assert (B1 : batch st0 s1).
  { eapply batch_extend; [exact B0 | exact Q1 |].
    unfold stored. rewrite stored_neq. intuition congruence. }
  stored_fields S1.
  (* setConsensusAlgorithm *)
  destruct (setConsensusAlgorithm_batch alg s1 (b_mode _ _ B1))
    as [(V2 & R2 & Q2)|(V2 & V2' & E2)].
  2: { rewrite E2. simpl. split; [assumption|]. right.
       split; [reflexivity|tauto]. }
  destruct (setConsensusAlgorithm alg s1) as [s2 r2]. simpl in R2, Q2. subst r2.
  pose proof (qs_stored _ _ _ _ Q2) as S2.
  assert (B2 : batch st0 s2).
  { eapply batch_extend; [exact B1 | exact Q2 |].
    unfold stored. rewrite !stored_neq. intuition congruence. }
  stored_fields S2.
  (* setDoAutoTrim *)
  destruct (setDoAutoTrim_batch dat s2 (b_mode _ _ B2)) as (R3 & Q3).
  destruct (setDoAutoTrim dat s2) as [s3 r3]. simpl in R3, Q3. subst r3.
  pose proof (qs_stored _ _ _ _ Q3) as S3.
  assert (B3 : batch st0 s3).
  { eapply batch_extend; [exact B2 | exact Q3 |].
    unfold stored. rewrite !stored_neq. intuition congruence. }
  stored_fields S3.
  (* setAutoTrimParams *)
  destruct (setAutoTrimParams_batch w b s3 (b_mode _ _ B3))
    as [(V4 & R4 & Q4)|(V4 & E4)].
  2: { rewrite E4. simpl. split; [assumption|]. right.
       split; [reflexivity|lia]. }
  destruct (setAutoTrimParams w b s3) as [s4 r4]. simpl in R4, Q4. subst r4.
  pose proof (qs_stored _ _ _ _ Q4) as S4.
  assert (B4 : batch st0 s4).
  { eapply batch_extend; [exact B3 | exact Q4 |].
    unfold stored. rewrite !stored_neq. intuition congruence. }
  stored_fields S4.
  (* setTrimEndGaps *)
  destruct (setTrimEndGaps_batch teg s4 (b_mode _ _ B4)) as (R5 & Q5).
  destruct (setTrimEndGaps teg s4) as [s5 r5]. simpl in R5, Q5. subst r5.
  assert (B5 : batch st0 s5).
  { eapply batch_extend; [exact B4 | exact Q5 |].
    unfold stored. rewrite !stored_neq. intuition congruence. }
  simpl. split; [assumption|]. left. split; [reflexivity|]. tauto.
Qed.

Lemma setAll_unfold (st : state) (mc : Z) (alg : str) (dat : bool)
    (w b : Z) (teg : bool) :
  setAll mc alg dat (w, b) teg st =
  let '(s, r) := batch_body mc alg dat w b teg
                   (set_change_made false (set_notify_all false st)) in
  (if change_made s
   then notifyObservers settings_change (set_notify_all true s)
   else set_notify_all true s, r).
Proof. reflexivity. Qed.

(** C6: whatever the arguments, [setAll] leaves the object in normal
    notification mode, also when a setter raises (the exception is then the
    outcome of the call); the events it publishes are those of the setters,
    none of them [settings_change], followed by exactly one [settings_change]
    when a stored setting changed and by nothing otherwise. *)
Theorem setAll_notification (st : state) (mc : Z) (alg : str) (dat : bool)
    (w b : Z) (teg : bool) :
  let st' := fst (setAll mc alg dat (w, b) teg st) in
  let r := snd (setAll mc alg dat (w, b) teg st) in
  notify_all st' = true /\
  (r = Ok tt /\ accepted mc alg w b
   \/ r = Raise ConsensSeqSettingsError /\ ~ accepted mc alg w b) /\
  exists during after,
    published st' = published st ++ during ++ after /\
    ~ In settings_change during /\
    (stored st' = stored st -> after = []) /\
    (stored st' <> stored st -> after = [settings_change]).
Proof.
  set (s0 := set_change_made false (set_notify_all false st)).
  destruct (batch_body_spec s0 mc alg dat w b teg eq_refl eq_refl)
    as ([Hm (evs & He & Hn) Hf] & Hr).
  rewrite setAll_unfold. fold s0.
  destruct (batch_body mc alg dat w b teg s0) as [s r].
  cbn [fst snd] in *.
  change (stored s0) with (stored st) in Hf.
  change (published s0) with (published st) in He.
  split; [|split; [exact Hr|]].
  - destruct (change_made s); reflexivity.
  - destruct (change_made s) eqn:Hc.
    + exists evs, [settings_change]. simpl. rewrite He, <- app_assoc.
      repeat split; auto.
      intros E. change (stored s = stored st) in E.
      destruct Hf as [Hf _]. now destruct (Hf eq_refl).
    + exists evs, []. simpl. rewrite He, app_nil_r.
      repeat split; auto.
      intros N. change (stored s <> stored st) in N.
      destruct Hf as [_ Hf]. now specialize (Hf N).
Qed.

End SetAll.

Section AlgorithmSetter.
Import Settings.

(** C9: [setConsensusAlgorithm v] raises the settings error exactly when [v]
    is neither of the two algorithm names the code knows, ['Bayesian'] and
    ['legacy']; when it raises, the object, its stored algorithm included,
    is left as it was, and when it returns the stored algorithm is [v]. *)
Theorem setConsensusAlgorithm_two_names (st : state) (v : str) :
  let st' := fst (setConsensusAlgorithm v st) in
  let r := snd (setConsensusAlgorithm v st) in
  (r = Raise ConsensSeqSettingsError <->
   ~ (v = lit "Bayesian" \/ v = lit "legacy")) /\
  (r = Ok tt <-> v = lit "Bayesian" \/ v = lit "legacy") /\
  (r = Raise ConsensSeqSettingsError ->
   st' = st /\ consensus_algorithm st' = consensus_algorithm st) /\
  (r = Ok tt -> consensus_algorithm st' = v).
Proof.
  unfold setConsensusAlgorithm, settings_changed, raise, ret.
  cbn [existsb]. rewrite orb_false_r.
  destruct (str_eqb v (lit "Bayesian")) eqn:EB;
    destruct (str_eqb v (lit "legacy")) eqn:EL; str_cases;
    cbn [orb negb]; cbv iota.
  4: { cbn [fst snd]. repeat split; auto; try tauto; try discriminate. }
  all: destruct (str_eqb (consensus_algorithm st) v) eqn:EC; str_cases;
    cbn [negb]; cbv iota; try destruct (notify_all _);
    cbn [fst snd]; repeat split; auto; try tauto; try discriminate.
Qed.

Lemma setConsensusAlgorithm_two_names_witness :
  let st' := fst (setConsensusAlgorithm (lit "Legacy") init) in
  let r := snd (setConsensusAlgorithm (lit "Legacy") init) in
  r = Raise ConsensSeqSettingsError /\
  st' = init /\ consensus_algorithm st' = lit "Bayesian".
Proof.
  intros st' r.
  destruct (setConsensusAlgorithm_two_names init (lit "Legacy"))
    as (_ & _ & H & _).
  assert (E : r = Raise ConsensSeqSettingsError) by reflexivity.
  split; [exact E|]. exact (H E).
Defined.

(** The second name is spelled in lower case: ['legacy'] selects the legacy
    algorithm, and the capitalised spelling is refused like any other
    string. *)
Example setConsensusAlgorithm_legacy :
  setConsensusAlgorithm (lit "legacy") init =
    (mkState 30 (lit "legacy") true 10 8 true true false
             [consensus_algorithm_change; settings_change], Ok tt) /\
  setConsensusAlgorithm (lit "Legacy") init =
    (init, Raise ConsensSeqSettingsError).
Proof. split; reflexivity. Qed.

(** A run of [setAll] on a fresh settings object: the threshold changes, the
    algorithm name is refused; the exception comes out, one
    [settings_change] was published and the object notifies again. *)
Lemma setAll_notification_witness :
  let st' := fst (setAll 20 (lit "?") true (10, 8) true init) in
  let r := snd (setAll 20 (lit "?") true (10, 8) true init) in
  r = Raise ConsensSeqSettingsError /\
  notify_all st' = true /\
  published st' = [min_confscore_change 20 30; settings_change].
Proof.
  intros st' r.
  destruct (setAll_notification init 20 (lit "?") true 10 8 true)
    as (Hn & _ & _).
  split; [reflexivity|]. split; [exact Hn | reflexivity].
Defined.

End AlgorithmSetter.

(** ** Loops and indexing *)

Lemma index_nth_error {A : Type} (s : list A) (k : nat) (a : A) :
  nth_error s k = Some a -> Py.index s (Z.of_nat k) = Ok a.
Proof.
  intros H. unfold Py.index, Py.len.
  assert (k < length s)%nat by (apply nth_error_Some; congruence).
  destruct (Z.ltb_spec (Z.of_nat k) 0); [lia|].
  destruct (Z.ltb_spec (Z.of_nat k) 0); [lia|].
  destruct (Z.leb_spec (Z.of_nat (length s)) (Z.of_nat k)); [lia|].
  simpl. now rewrite Nat2Z.id, H.
Qed.

Lemma index_in_range {A : Type} (s : list A) (i : Z) :
  0 <= i < Py.len s ->
  exists a, Py.index s i = Ok a /\ nth_error s (Z.to_nat i) = Some a.
Proof.
  intros H. unfold Py.len in H.
  destruct (nth_error s (Z.to_nat i)) as [a|] eqn:E.
  - exists a. split; [|reflexivity].
    rewrite <- (Z2Nat.id i) by lia. now apply index_nth_error.
  - apply nth_error_None in E. lia.
Qed.

(** The rule of a [for] loop over [range(n)]: an invariant indexed by the
    number of iterations done. *)
Lemma for_each_range {S : Type} (body : Z -> S -> res S)
    (I : nat -> S -> Prop) (n : nat) :
  (forall k s, (k < n)%nat -> I k s ->
     exists s', body (Z.of_nat k) s = Ok s' /\ I (Datatypes.S k) s') ->
  forall s, I 0%nat s ->
  exists s', Py.for_each (Py.range (Z.of_nat n)) body s = Ok s' /\ I n s'.
Proof.
  intros Hbody. unfold Py.range. rewrite Nat2Z.id.
  assert (G : forall m k s, (k + m = n)%nat -> I k s ->
            exists s', Py.for_each (map Z.of_nat (seq k m)) body s = Ok s'
                       /\ I n s').
  { induction m as [|m IH]; intros k s Hk Hs; simpl.
    - exists s. split; [reflexivity|]. now replace n with k by lia.
    - destruct (Hbody k s) as (s1 & E1 & I1); [lia | assumption |].
      rewrite E1. simpl. apply IH; [lia | assumption]. }
  intros s Hs. now apply (G n 0%nat).
Qed.

(** The rule of a [while] loop: an invariant, and a measure that each
    iteration decreases and that the fuel exceeds. *)
Lemma while_rule {S : Type} (cond : S -> bool) (body : S -> res S)
    (I : S -> Prop) (m : S -> nat) :
  (forall s, I s -> cond s = true ->
     exists s', body s = Ok s' /\ I s' /\ (m s' < m s)%nat) ->
  forall fuel s, I s -> (m s < fuel)%nat ->
  exists s', Py.while fuel cond body s = Ok s' /\ I s' /\ cond s' = false.
Proof.
  intros Hbody. induction fuel as [|fuel IH]; intros s Hs Hm; [lia|].
  simpl. destruct (cond s) eqn:C.
  - destruct (Hbody s Hs C) as (s1 & E1 & I1 & M1).
    rewrite E1. simpl. apply IH; [assumption | lia].
  - exists s. auto.
Qed.

Lemma nth_error_append {A : Type} (l : list A) (a : A) (j : nat) :
  nth_error (Py.append l a) j =
  if (j <? length l)%nat then nth_error l j
  else if (j =? length l)%nat then Some a else None.
Proof.
  unfold Py.append.
  destruct (Nat.ltb_spec j (length l)).
  - now apply nth_error_app1.
  - rewrite nth_error_app2 by assumption.
    destruct (Nat.eqb_spec j (length l)) as [->|Hn].
    + now rewrite Nat.sub_diag.
    + destruct (j - length l)%nat as [|d] eqn:E; [lia|].
      simpl. now destruct d.
Qed.

Lemma length_append {A : Type} (l : list A) (a : A) :
  length (Py.append l a) = Datatypes.S (length l).
Proof. unfold Py.append. rewrite length_app. simpl. lia. Qed.

(** ** Single-sequence mode *)

Section SingleSequence.
Import Builder.
Variables (b : builder) (t : Z).
Hypothesis Hindexed : length (seq1indexed b) = length (seq1aligned b).

Lemma single_body_step (k : nat) (acc : str * list Z) :
  (k < length (seq1aligned b))%nat -> single_done b t k acc ->
  exists acc', single_body b t (Z.of_nat k) acc = Ok acc' /\
               single_done b t (Datatypes.S k) acc'.
Proof.
  intros Hk (L1 & L2 & Hcols). destruct acc as [cs conf]. simpl in *.
  destruct (nth_error (seq1aligned b) k) as [c|] eqn:Ec;
    [|apply nth_error_None in Ec; lia].
  destruct (nth_error (seq1indexed b) k) as [i|] eqn:Ei;
    [|apply nth_error_None in Ei; lia].
  unfold single_body.
  rewrite (index_nth_error _ _ _ Ec), (index_nth_error _ _ _ Ei). simpl.
  eexists. split; [reflexivity|].
  split; [|split]; simpl; rewrite ?length_append; try lia.
  intros j c' i' Hj Ec' Ei'. rewrite !nth_error_append, L1, L2.
  destruct (Nat.ltb_spec j k).
  - now apply Hcols.
  - assert (j = k) by lia. subst j. rewrite Nat.eqb_refl.
    rewrite Ec in Ec'. rewrite Ei in Ei'.
    injection Ec' as <-. injection Ei' as <-. auto.
Qed.

Lemma makeSingleConsensus_done :
  exists acc, makeSingleConsensus t b = Ok acc /\
              single_done b t (length (seq1aligned b)) acc.
Proof.
  unfold makeSingleConsensus, Py.len.
  apply (for_each_range (single_body b t) (single_done b t)).
  - intros k s Hk Hs. now apply single_body_step.
  - repeat split; auto; lia.
Qed.

End SingleSequence.

(** C3, as the code has it: in single-sequence mode every column records the
    trace's confidence score unmodified; the base is ['N'] when the score is
    below the threshold and the trace's own base call otherwise, so it is
    ['N'] exactly when the score is below the threshold or the trace itself
    calls ['N'] there. *)
Theorem single_consensus_columns (b : Builder.builder) (t : Z) :
  length (Builder.seq1indexed b) = length (Builder.seq1aligned b) ->
  exists cons_ consconf,
    Builder.makeSingleConsensus t b = Ok (cons_, consconf) /\
    length cons_ = length (Builder.seq1aligned b) /\
    length consconf = length (Builder.seq1aligned b) /\
    forall cnt c i,
      nth_error (Builder.seq1aligned b) cnt = Some c ->
      nth_error (Builder.seq1indexed b) cnt = Some i ->
      let score := Builder.getBaseCallConf (Builder.seqt1 b) i in
      nth_error consconf cnt = Some score /\
      exists base,
        nth_error cons_ cnt = Some base /\
        (score < t -> base = Builder.N) /\
        (t <= score -> base = c) /\
        (base = Builder.N <-> score < t \/ c = Builder.N).
Proof.
  intros Hlen.
  destruct (makeSingleConsensus_done b t Hlen) as ([cs conf] & E & L1 & L2 & H).
  exists cs, conf. simpl in *. repeat split; auto.
  - destruct (H cnt c i) as [Hc _]; auto.
    apply nth_error_Some. congruence.
  - destruct (H cnt c i) as [_ Hb]; auto.
    { apply nth_error_Some. congruence. }
    eexists. split; [exact Hb|].
    destruct (Z.ltb_spec (Builder.getBaseCallConf (Builder.seqt1 b) i) t);
      intuition (auto; lia).
Qed.

Lemma single_consensus_columns_witness :
  exists cons_ consconf,
    Builder.makeSingleConsensus 30
      (Builder.init_single
         (Builder.mkTrace (lit "ACN") (fun i => 20 * (i + 1)))) =
      Ok (cons_, consconf) /\
    length cons_ = 3%nat /\ length consconf = 3%nat.
Proof.
  destruct (single_consensus_columns
              (Builder.init_single
                 (Builder.mkTrace (lit "ACN") (fun i => 20 * (i + 1)))) 30
              eq_refl) as (cs & conf & E & L1 & L2 & _).
  exists cs, conf. auto.
Defined.

(** C3 as stated fails from right to left: a trace that calls ['N'] with a
    confidence of 40 yields ['N'] at threshold 30, although 40 is not below
    30. *)
Lemma single_consensus_N_above_threshold :
  exists cons_ consconf,
    Builder.makeSingleConsensus 30
      (Builder.init_single (Builder.mkTrace (lit "N") (fun _ => 40))) =
      Ok (cons_, consconf) /\
    nth_error cons_ 0 = Some Builder.N /\
    nth_error consconf 0 = Some 40 /\
    ~ 40 < 30.
Proof.
  exists [Builder.N], [40]. repeat split. lia.
Qed.

(** ** Legacy mode *)

Section Legacy.
Import Builder.
Variables (b : builder) (min_confscore : Z).
Hypothesis Hmin : -1 < min_confscore.
Hypothesis Hlen2 : length (seq2aligned b) = length (seq1aligned b).
Hypothesis Hidx1 : length (seq1indexed b) = length (seq1aligned b).
Hypothesis Hidx2 : length (seq2indexed b) = length (seq1aligned b).

Lemma usable_legacy_test (c : ascii) :
  negb (Ascii.eqb c gap) && negb (Ascii.eqb c N) = usable c.
Proof.
  unfold usable. simpl. rewrite orb_false_r. now rewrite negb_orb.
Qed.

(** One column: whatever the variables hold from earlier columns, the body
    raises nothing and appends the base and the score of this column. *)
Lemma legacy_column (v : legacy_vars) (c1 c2 : ascii) (i1 i2 : Z) (k : nat) :
  nth_error (seq1aligned b) k = Some c1 ->
  nth_error (seq2aligned b) k = Some c2 ->
  nth_error (seq1indexed b) k = Some i1 ->
  nth_error (seq2indexed b) k = Some i2 ->
  let s1 := legacy_score (seqt1 b) c1 i1 in
  let s2 := legacy_score (seqt2 b) c2 i2 in
  exists cb cb2,
    legacy_body b min_confscore (Z.of_nat k) v =
    Ok (mkLegacy cb cb2
          (Py.append (l_cons v) (legacy_base min_confscore c1 s1 c2 s2))
          (Py.append (l_consconf v) (Z.max s1 s2))).
Proof.
  clear Hlen2 Hidx1 Hidx2.
  intros E1 E2 E3 E4 s1 s2. unfold legacy_body.
  rewrite (index_nth_error _ _ _ E1), (index_nth_error _ _ _ E2),
    (index_nth_error _ _ _ E3), (index_nth_error _ _ _ E4).
  cbn [rbind]. rewrite !usable_legacy_test.
  subst s1 s2. unfold legacy_score, legacy_base.
  destruct (usable c1), (usable c2); cbn [rbind];
    repeat (match goal with
      | |- context [?x >=? ?y] => destruct (Z.geb_spec x y); try lia
      | |- context [?x <=? ?y] => destruct (Z.leb_spec x y); try lia
      | |- context [?x >? ?y] => destruct (Z.gtb_spec x y); try lia
      | |- context [Ascii.eqb c1 c2] => destruct (Ascii.eqb c1 c2)
      end; cbn [rbind Py.local negb]);
    do 2 eexists; repeat f_equal; lia.
Qed.

Lemma legacy_body_step (k : nat) (v : legacy_vars) :
  (k < length (seq1aligned b))%nat -> legacy_done b min_confscore k v ->
  exists v', legacy_body b min_confscore (Z.of_nat k) v = Ok v' /\
             legacy_done b min_confscore (Datatypes.S k) v'.
Proof.
  intros Hk (L1 & L2 & Hcols).
  destruct (nth_error (seq1aligned b) k) as [c1|] eqn:E1;
    [|apply nth_error_None in E1; lia].
  destruct (nth_error (seq2aligned b) k) as [c2|] eqn:E2;
    [|apply nth_error_None in E2; lia].
  destruct (nth_error (seq1indexed b) k) as [i1|] eqn:E3;
    [|apply nth_error_None in E3; lia].
  destruct (nth_error (seq2indexed b) k) as [i2|] eqn:E4;
    [|apply nth_error_None in E4; lia].
  destruct (legacy_column v c1 c2 i1 i2 k E1 E2 E3 E4) as (cb & cb2 & E).
  eexists. split; [exact E|].
  split; [|split]; simpl; rewrite ?length_append; try lia.
  intros j d1 d2 j1 j2 Hj D1 D2 D3 D4. rewrite !nth_error_append, L1, L2.
  destruct (Nat.ltb_spec j k).
  - now apply Hcols.
  - assert (j = k) by lia. subst j. rewrite Nat.eqb_refl.
    assert (d1 = c1) by congruence. assert (d2 = c2) by congruence.
    assert (j1 = i1) by congruence. assert (j2 = i2) by congruence.
    subst. auto.
Qed.

Lemma makeLegacyConsensus_done :
  exists v, makeLegacyConsensus min_confscore b = Ok (l_cons v, l_consconf v)
            /\ legacy_done b min_confscore (length (seq1aligned b)) v.
Proof.
  unfold makeLegacyConsensus, Py.len.
  destruct (for_each_range (legacy_body b min_confscore)
              (legacy_done b min_confscore) (length (seq1aligned b)))
    with (s := mkLegacy None None [] []) as (v & E & Hv).
  - intros k s Hk Hs. now apply legacy_body_step.
  - repeat split; auto; lia.
  - exists v. rewrite E. simpl. auto.
Qed.

End Legacy.

(** C2: in legacy mode, for a threshold above the sentinel (the settings
    keep it in 1..61) and aligned sequences and index maps of one length,
    the loop raises nothing, and in every column: a sequence whose character
    is a gap or ['N'] counts with score -1; the base is ['N'] when both
    scores clear the threshold and the bases differ, the common base when
    both clear and agree, the base of the only sequence that clears, and
    ['N'] when none clears; the recorded confidence is the larger of the two
    scores in every case. *)
Theorem legacy_consensus_columns (b : Builder.builder) (min_confscore : Z) :
  -1 < min_confscore ->
  length (Builder.seq2aligned b) = length (Builder.seq1aligned b) ->
  length (Builder.seq1indexed b) = length (Builder.seq1aligned b) ->
  length (Builder.seq2indexed b) = length (Builder.seq1aligned b) ->
  exists cons_ consconf,
    Builder.makeLegacyConsensus min_confscore b = Ok (cons_, consconf) /\
    length cons_ = length (Builder.seq1aligned b) /\
    length consconf = length (Builder.seq1aligned b) /\
    forall cnt c1 c2 i1 i2,
      nth_error (Builder.seq1aligned b) cnt = Some c1 ->
      nth_error (Builder.seq2aligned b) cnt = Some c2 ->
      nth_error (Builder.seq1indexed b) cnt = Some i1 ->
      nth_error (Builder.seq2indexed b) cnt = Some i2 ->
      let s1 := if Builder.usable c1
                then Builder.getBaseCallConf (Builder.seqt1 b) i1 else -1 in
      let s2 := if Builder.usable c2
                then Builder.getBaseCallConf (Builder.seqt2 b) i2 else -1 in
      nth_error consconf cnt = Some (Z.max s1 s2) /\
      exists base,
        nth_error cons_ cnt = Some base /\
        (min_confscore <= s1 -> min_confscore <= s2 -> c1 <> c2 ->
         base = Builder.N) /\
        (min_confscore <= s1 -> min_confscore <= s2 -> c1 = c2 ->
         base = c1) /\
        (min_confscore <= s1 -> s2 < min_confscore -> base = c1) /\
        (s1 < min_confscore -> min_confscore <= s2 -> base = c2) /\
        (s1 < min_confscore -> s2 < min_confscore -> base = Builder.N).
Proof.
  intros Hmin H2 H3 H4.
  destruct (makeLegacyConsensus_done b min_confscore Hmin H2 H3 H4)
    as (v & E & L1 & L2 & Hcols).
  exists (Builder.l_cons v), (Builder.l_consconf v).
  repeat split; auto.
  - destruct (Hcols cnt c1 c2 i1 i2) as [Hc _]; auto.
    apply nth_error_Some. congruence.
  - destruct (Hcols cnt c1 c2 i1 i2) as [_ Hb]; auto.
    { apply nth_error_Some. congruence. }
    eexists. split; [exact Hb|].
    unfold legacy_base, legacy_score.
    destruct (Z.leb_spec min_confscore
                (if Builder.usable c1
                 then Builder.getBaseCallConf (Builder.seqt1 b) i1 else -1));
      destruct (Z.leb_spec min_confscore
                  (if Builder.usable c2
                   then Builder.getBaseCallConf (Builder.seqt2 b) i2 else -1));
      destruct (Ascii.eqb_spec c1 c2);
      repeat split; intros; auto; try lia; congruence.
Qed.

Lemma legacy_consensus_columns_witness :
  let b := Builder.mkBuilder
             (Builder.mkTrace (lit "ACNGT") (fun i => 10 * (i + 1)))
             (Builder.mkTrace (lit "AGNT") (fun i => 5 * (i + 1) + 20))
             (lit "ACNGT") (lit "AGN-T") [0; 1; 2; 3; 4] [0; 1; 2; -1; 3] in
  exists cons_ consconf,
    Builder.makeLegacyConsensus 20 b = Ok (cons_, consconf) /\
    nth_error consconf 1 = Some 30 /\
    nth_error cons_ 1 = Some Builder.N.
Proof.
  intros b.
  destruct (legacy_consensus_columns b 20)
    as (cs & conf & E & _ & _ & Hcols);
    [lia | reflexivity | reflexivity | reflexivity |].
  exists cs, conf. split; [exact E|].
  destruct (Hcols 1%nat "C"%char "G"%char 1 1 eq_refl eq_refl eq_refl eq_refl)
    as (Hc & base & Hb & Hdiff & _).
  split; [exact Hc|].
  rewrite Hb. f_equal. apply Hdiff; simpl; [lia | lia | discriminate].
Defined.

(** With a threshold that the sentinel clears, which no settings object
    holds, the loop reads a base that no column has assigned yet. *)
Example legacy_sentinel_clears :
  Builder.makeLegacyConsensus (-1)
    (Builder.mkBuilder (Builder.mkTrace (lit "N") (fun _ => 40))
                       (Builder.mkTrace (lit "A") (fun _ => 40))
                       (lit "N") (lit "A") [0] [0]) = Raise NameError.
Proof. reflexivity. Qed.

(** ** Quality trimming *)

Section Trimming.
Import Builder.

Lemma base_to_int_alphabet (c : ascii) :
  in_alphabet c -> base_to_int c = Ok 0 \/ base_to_int c = Ok 1.
Proof.
  unfold in_alphabet. simpl.
  intros [<-|[<-|[<-|[<-|[<-|[<-|[]]]]]]]; vm_compute; auto.
Qed.

Lemma consvals_of_ok (s : str) :
  Forall in_alphabet s ->
  exists cv, consvals_of s = Ok cv /\ length cv = length s.
Proof.
  induction 1 as [|c s Hc Hs (cv & E & L)]; simpl.
  - exists []. auto.
  - rewrite E. destruct (base_to_int_alphabet c Hc) as [-> | ->]; simpl;
      eexists; split; try reflexivity; simpl; congruence.
Qed.

Lemma consvals_of_N (s : str) :
  Forall (eq N) s -> consvals_of s = Ok (repeat 0 (length s)).
Proof.
  induction 1 as [|c s <- Hs E]; simpl; [reflexivity|].
  rewrite E. reflexivity.
Qed.

Lemma sum_zeros (l : list Z) : Forall (eq 0) l -> Py.sum l = 0.
Proof.
  unfold Py.sum. induction 1 as [|x l <- Hl IH]; simpl; auto.
Qed.

Lemma Forall_slice {A : Type} (P : A -> Prop) (l : list A) (i j : Z) :
  Forall P l -> Forall P (Py.slice l i j).
Proof.
  intros H. unfold Py.slice.
  assert (G : forall k lo, Forall P (firstn k (skipn lo l))).
  { intros k lo.
    rewrite <- (firstn_skipn lo l) in H. apply Forall_app in H.
    destruct H as [_ H].
    rewrite <- (firstn_skipn k (skipn lo l)) in H. apply Forall_app in H.
    tauto. }
  apply G.
Qed.

Section Cutoffs.
Variables (winsize basecnt : Z) (s : str) (cv : list Z).
Variable Q : Z -> Prop.
Hypothesis Hcv : consvals_of s = Ok cv.
Hypothesis Hlen : length cv = length s.
Hypothesis Hwin : 0 <= winsize <= Py.len s.
Hypothesis Qsum : forall i j, Q (Py.sum (Py.slice cv i j)).
Hypothesis Qslide : forall g x y, In x cv -> In y cv -> Q g -> Q (g + x - y).

Lemma slide_in_range (i j g : Z) :
  0 <= i < Py.len s -> 0 <= j < Py.len s -> Q g ->
  exists x y, Py.index cv i = Ok x /\ Py.index cv j = Ok y /\ Q (g + x - y).
Proof.
  intros Hi Hj Hg.
  assert (Hl : Py.len cv = Py.len s) by (unfold Py.len; now rewrite Hlen).
  destruct (index_in_range cv i) as (x & Ex & Nx); [lia|].
  destruct (index_in_range cv j) as (y & Ey & Ny); [lia|].
  exists x, y. repeat split; auto.
  apply Qslide; auto; eapply nth_error_In; eauto.
Qed.

(** The loops end, and leave the window inside the string: the left cutoff
    leaves room for a window, and the right cutoff is the last position of a
    window that starts at or after the left cutoff. *)
Lemma trimCutoffs_spec :
  exists l r g,
    trimCutoffs winsize basecnt s = Ok (l, r, g) /\
    0 <= l /\ l + winsize <= Py.len s /\
    l + winsize - 1 <= r /\ r <= Py.len s - 1 /\ Q g.
Proof.
  unfold trimCutoffs. rewrite Hcv. cbn [rbind].
  set (n := Py.len s) in *.
  assert (Hn : n = Z.of_nat (length s)) by reflexivity.
  destruct (while_rule
    (fun '(index, num_good) =>
       (num_good <? basecnt) && (index + winsize <? n))
    (slide_right cv winsize)
    (fun '(index, g) => 0 <= index /\ index + winsize <= n /\ Q g)
    (fun '(index, _) => Z.to_nat (n - winsize - index)))
    with (fuel := Datatypes.S (Datatypes.S (length s)))
         (s := (0, Py.sum (Py.slice cv 0 winsize)))
    as ([l g1] & E1 & (Hl0 & Hl1 & _) & _).
  { intros [i g] (Hi0 & Hi1 & Hg) C.
    apply andb_prop in C. destruct C as [_ C]. apply Z.ltb_lt in C.
    destruct (slide_in_range (i + winsize) i g) as (x & y & Ex & Ey & Hq);
      [lia | lia | assumption |].
    unfold slide_right. rewrite Ex, Ey. cbn [rbind].
    eexists. split; [reflexivity|]. repeat split; auto; lia. }
  { repeat split; auto; lia. }
  { lia. }
  rewrite E1. cbn [rbind].
  destruct (while_rule
    (fun '(index, num_good) =>
       (num_good <? basecnt) && (index - winsize >=? l))
    (slide_left cv winsize)
    (fun '(index, g) => l + winsize - 1 <= index /\ index <= n - 1 /\ Q g)
    (fun '(index, _) => Z.to_nat (index - winsize - l + 1)))
    with (fuel := Datatypes.S (Datatypes.S (length s)))
         (s := (n - 1, Py.sum (Py.slice cv (Py.len cv - winsize) (Py.len cv))))
    as ([r g2] & E2 & (Hr0 & Hr1 & Hq2) & _).
  { intros [i g] (Hi0 & Hi1 & Hg) C.
    apply andb_prop in C. destruct C as [_ C]. apply Z.geb_le in C.
    destruct (slide_in_range (i - winsize) i g) as (x & y & Ex & Ey & Hq);
      [lia | lia | assumption |].
    unfold slide_left. rewrite Ex, Ey. cbn [rbind].
    eexists. split; [reflexivity|]. repeat split; auto; lia. }
  { repeat split; auto; lia. }
  { lia. }
  rewrite E2. cbn [rbind].
  exists l, r, g2. repeat split; auto.
Qed.

End Cutoffs.

(** The string left by the last statement of [trimConsensus]. *)
Lemma masked_length (s : str) (l r : Z) :
  0 <= l -> l <= r + 1 -> r < Py.len s ->
  length (Py.spaces l ++ Py.slice s l (r + 1)
          ++ Py.spaces (Py.len s - r - 1)) = length s.
Proof.
  intros H0 H1 H2.
  rewrite !length_app, slice_range by lia.
  unfold Py.spaces, Py.times, Py.len in *.
  rewrite !repeat_length, length_firstn, length_skipn. lia.
Qed.

Lemma masked_nth_error (s : str) (l r : Z) (i : nat) :
  0 <= l -> l <= r + 1 -> r < Py.len s -> (i < length s)%nat ->
  nth_error (Py.spaces l ++ Py.slice s l (r + 1)
             ++ Py.spaces (Py.len s - r - 1)) i =
  if (l <=? Z.of_nat i) && (Z.of_nat i <=? r) then nth_error s i
  else Some Py.space.
Proof.
  intros H0 H1 H2 Hi. rewrite slice_range by lia.
  unfold Py.spaces, Py.times, Py.len in *.
  rewrite !nth_error_app, !repeat_length, length_firstn, length_skipn.
  destruct (Z.leb_spec l (Z.of_nat i)); simpl andb.
  - destruct (Nat.ltb_spec i (Z.to_nat l)); [lia|].
    destruct (Z.leb_spec (Z.of_nat i) r).
    + destruct (Nat.ltb_spec (i - Z.to_nat l)
                  (Nat.min (Z.to_nat (r + 1 - l)) (length s - Z.to_nat l)));
        [|lia].
      rewrite nth_error_firstn, nth_error_skipn.
      destruct (Nat.ltb_spec (i - Z.to_nat l) (Z.to_nat (r + 1 - l))); [|lia].
      f_equal. lia.
    + destruct (Nat.ltb_spec (i - Z.to_nat l)
                  (Nat.min (Z.to_nat (r + 1 - l)) (length s - Z.to_nat l)));
        [lia|].
      apply nth_error_repeat. lia.
  - destruct (Nat.ltb_spec i (Z.to_nat l)); [|lia].
    apply nth_error_repeat. lia.
Qed.

(** C4: on ["NNNACGTNNN"] with a window of 3 and 2 good bases asked for,
    trimming gives ["  NACGTN  "].  In general, for a window size that is
    not negative and a consensus over its alphabet, trimming returns a
    string of the same length in which every position holds what it held or
    a space; when the last window looked at has enough good bases, the
    positions from the left cutoff to the right cutoff are unchanged and all
    others are spaces. *)
Theorem trimConsensus_masks :
  trimConsensus 3 2 (lit "NNNACGTNNN") = Ok (lit "  NACGTN  ") /\
  forall (winsize basecnt : Z) (s : str),
    0 <= winsize -> Forall in_alphabet s ->
    exists s',
      trimConsensus winsize basecnt s = Ok s' /\
      length s' = length s /\
      (forall i, (i < length s)%nat ->
         nth_error s' i = nth_error s i \/ nth_error s' i = Some Py.space) /\
      (Py.len s < winsize -> s' = s) /\
      (winsize <= Py.len s ->
       exists index_left index_right num_good,
         trimCutoffs winsize basecnt s =
           Ok (index_left, index_right, num_good) /\
         0 <= index_left /\ index_left <= index_right + 1 /\
         index_right < Py.len s /\
         (num_good < basecnt -> s' = Py.spaces (Py.len s)) /\
         (basecnt <= num_good ->
          forall i, (i < length s)%nat ->
            nth_error s' i =
            if (index_left <=? Z.of_nat i) && (Z.of_nat i <=? index_right)
            then nth_error s i else Some Py.space)).
Proof.
  split; [reflexivity|].
  intros winsize basecnt s Hw Hs. unfold trimConsensus.
  destruct (Z.ltb_spec (Py.len s) winsize) as [Hshort|Hlong].
  { exists s. repeat split; auto. lia. }
  destruct (consvals_of_ok s Hs) as (cv & Hcv & Hlen).
  destruct (trimCutoffs_spec winsize basecnt s cv (fun _ => True))
    as (l & r & g & E & Hl0 & Hl1 & Hr0 & Hr1 & _); auto.
  rewrite E. cbn [rbind].
  destruct (Z.ltb_spec g basecnt) as [Hbad|Hgood].
  - exists (Py.spaces (Py.len s)).
    assert (L : length (Py.spaces (Py.len s)) = length s).
    { unfold Py.spaces, Py.times, Py.len. rewrite repeat_length. lia. }
    repeat split; auto; try lia.
    + intros i Hi. right. apply nth_error_repeat. unfold Py.len. lia.
    + intros _. exists l, r, g. repeat split; auto; lia.
  - eexists. split; [reflexivity|].
    split; [apply masked_length; lia|].
    split; [|split; [lia|]].
    + intros i Hi. rewrite masked_nth_error by lia.
      destruct (_ && _); auto.
    + intros _. exists l, r, g. repeat split; auto; try lia.
      intros _ i Hi. apply masked_nth_error; lia.
Qed.

Lemma trimConsensus_masks_witness :
  exists s',
    trimConsensus 2 2 (lit "NACGN") = Ok s' /\ length s' = 5%nat.
Proof.
  destruct trimConsensus_masks as [_ H].
  destruct (H 2 2 (lit "NACGN")) as (s' & E & L & _).
  - lia.
  - repeat constructor; unfold in_alphabet; simpl; tauto.
  - exists s'. split; [exact E | exact L].
Defined.

(** The cutoffs of the example: the left window stops at position 2, the
    right one at position 7, with 2 good bases in the last window. *)
Example trimCutoffs_example :
  trimCutoffs 3 2 (lit "NNNACGTNNN") = Ok (2, 7, 2).
Proof. reflexivity. Qed.

(** C5, as the code has it: a consensus made of ['N'] only, at least as long
    as the window, is blanked to spaces whenever at least one good base is
    asked for. *)
Theorem trimConsensus_all_N (winsize basecnt : Z) (s : str) :
  Forall (eq N) s -> 0 < basecnt -> 0 <= winsize <= Py.len s ->
  trimConsensus winsize basecnt s = Ok (Py.spaces (Py.len s)).
Proof.
  intros Hs Hb Hw. unfold trimConsensus.
  destruct (Z.ltb_spec (Py.len s) winsize) as [Hshort|_]; [lia|].
  assert (Hz : Forall (eq 0) (repeat 0 (length s))).
  { apply Forall_forall. intros x Hx. symmetry. eapply repeat_spec; eauto. }
  destruct (trimCutoffs_spec winsize basecnt s (repeat 0 (length s))
              (fun g => g = 0))
    as (l & r & g & E & _ & _ & _ & _ & Hg).
  - now apply consvals_of_N.
  - apply repeat_length.
  - assumption.
  - intros i j. apply sum_zeros. now apply Forall_slice.
  - intros g x y Hx Hy ->.
    apply repeat_spec in Hx. apply repeat_spec in Hy. lia.
  - rewrite E. cbn [rbind].
    destruct (Z.ltb_spec g basecnt); [reflexivity | lia].
Qed.

Lemma trimConsensus_all_N_witness :
  trimConsensus 3 2 (lit "NNNNN") = Ok (Py.spaces 5).
Proof.
  apply (trimConsensus_all_N 3 2 (lit "NNNNN")).
  - repeat constructor.
  - lia.
  - vm_compute. split; discriminate.
Defined.

(** C5 as stated fails for a window longer than the consensus: the method
    returns at once and the string of ['N'] stays. *)
Lemma trimConsensus_short_all_N :
  Forall (eq N) (lit "NNN") /\ 0 < 2 /\
  trimConsensus 5 2 (lit "NNN") = Ok (lit "NNN") /\
  lit "NNN" <> Py.spaces (Py.len (lit "NNN")).
Proof.
  repeat split; try lia; try discriminate. repeat constructor.
Qed.

End Trimming.

(** ** Bayesian mode *)

Section BayesCode.
Import Builder.
Local Open Scope R_scope.

Ltac base_cases :=
  repeat match goal with
         | |- context [Ascii.eqb ?a ?b] =>
             destruct (Ascii.eqb_spec a b); subst; try discriminate
         end;
  try reflexivity; try congruence.

Lemma defineBasePrDist_bases (b : ascii) (s : Z) (d : dict) (x : ascii) :
  In x bases -> defineBasePrDist b s d x = call_dist b s x.
Proof.
  unfold defineBasePrDist, call_dist, error_prob, dict_set, bases.
  cbn [fold_left In].
  intros [<-|[<-|[<-|[<-|[]]]]]; base_cases.
Qed.

(** The posterior the code leaves in the dictionary is the one of Bayes'
    theorem, as long as the denominator is not zero. *)
Lemma calcPosteriorBasePrDist_posterior (b1 : ascii) (s1 : Z) (b2 : ascii)
    (s2 : Z) (d0 : dict) :
  evidence b1 s1 b2 s2 <> 0 ->
  exists d,
    calcPosteriorBasePrDist b1 s1 b2 s2 d0 = Ok d /\
    forall x, In x bases -> d x = posterior b1 s1 b2 s2 x.
Proof.
  intros Hev. unfold calcPosteriorBasePrDist.
  set (prior := defineBasePrDist b1 s1 zero_dist).
  set (dist := defineBasePrDist b2 s2 d0).
  assert (Hp : forall x, In x bases -> prior x = call_dist b1 s1 x)
    by (intros; now apply defineBasePrDist_bases).
  assert (Hd : forall x, In x bases -> dist x = call_dist b2 s2 x)
    by (intros; now apply defineBasePrDist_bases).
  assert (Hden : fold_left (fun denom base => denom + dist base * prior base)
                           bases 0 = evidence b1 s1 b2 s2).
  { cbn [fold_left bases]. rewrite !Hp, !Hd by (simpl; tauto).
    unfold evidence, joint. ring. }
  rewrite Hden. cbn [fold_left bases rbind]. unfold fdiv.
  destruct (Req_dec_T (evidence b1 s1 b2 s2) 0) as [E|_]; [contradiction|].
  cbn [rbind]. eexists. split; [reflexivity|].
  intros x [<-|[<-|[<-|[<-|[]]]]]; unfold dict_set; simpl;
    rewrite Hp, Hd by (simpl; tauto); reflexivity.
Qed.

(** The scan of [getMostProbableBase] ends on the most probable base, the
    first one among equals. *)
Lemma most_probable_scan (nppd : dict) :
  most_probable nppd
    (fold_left
       (fun cbase base =>
          if Rgt_dec (nppd base) (nppd cbase) then base else cbase)
       ["T"; "G"; "C"]%char "A"%char).
Proof.
  cbn [fold_left].
  destruct (Rgt_dec (nppd "T"%char) (nppd "A"%char));
    match goal with
    | |- context [Rgt_dec (nppd "G"%char) ?y] =>
        destruct (Rgt_dec (nppd "G"%char) y)
    end;
    match goal with
    | |- context [Rgt_dec (nppd "C"%char) ?y] =>
        destruct (Rgt_dec (nppd "C"%char) y)
    end;
    (split; [simpl; tauto|]);
    (split; intros x [<-|[<-|[<-|[<-|[]]]]]; try (vm_compute; lia);
     intros; try lra).
  all: try (exfalso; vm_compute in *; lia).
Qed.

Lemma getMostProbableBase_scan (nppd : dict) :
  exists cb,
    most_probable nppd cb /\
    getMostProbableBase nppd =
    (cscore <-
       (if Rgt_dec (nppd cb) 0 then
          l <- log10 (1 - nppd cb) ;; Ok (-10 * l)
        else Ok 0) ;;
     Ok (cb, cscore + 1 / 1000000))%res.
Proof.
  eexists. split; [apply most_probable_scan | reflexivity].
Qed.

(** *** Error probabilities *)

Lemma ln_10_pos : 0 < ln 10.
Proof. rewrite <- ln_1. apply ln_increasing; lra. Qed.

Lemma error_prob_pos (s : Z) : 0 < error_prob s.
Proof. unfold error_prob, Rpower. apply exp_pos. Qed.

Lemma error_prob_le_1 (s : Z) : (0 <= s)%Z -> error_prob s <= 1.
Proof.
  intros Hs. apply IZR_le in Hs. unfold error_prob, Rpower.
  pose proof ln_10_pos as L.
  assert (H : IZR s / -10 * ln 10 <= 0) by nra.
  destruct H as [H| ->].
  - left. rewrite <- exp_0. now apply exp_increasing.
  - right. apply exp_0.
Qed.

Section Weights.
Variables (b1 b2 : ascii) (s1 s2 : Z).
Hypothesis Hs1 : (0 <= s1)%Z.
Hypothesis Hs2 : (0 <= s2)%Z.

Lemma call_dist_nonneg (b : ascii) (s : Z) (x : ascii) :
  (0 <= s)%Z -> 0 <= call_dist b s x.
Proof.
  intros Hs. unfold call_dist.
  pose proof (error_prob_pos s). pose proof (error_prob_le_1 s Hs).
  destruct (Ascii.eqb x b); lra.
Qed.

Lemma call_dist_pos (b : ascii) (s : Z) (x : ascii) :
  x <> b -> 0 < call_dist b s x.
Proof.
  intros Hx. unfold call_dist. pose proof (error_prob_pos s).
  destruct (Ascii.eqb_spec x b); [contradiction | lra].
Qed.

Lemma joint_nonneg (x : ascii) : 0 <= joint b1 s1 b2 s2 x.
Proof.
  unfold joint. apply Rmult_le_pos; now apply call_dist_nonneg.
Qed.

Lemma joint_pos (x : ascii) : x <> b1 -> x <> b2 -> 0 < joint b1 s1 b2 s2 x.
Proof.
  intros H1 H2. unfold joint. apply Rmult_lt_0_compat; now apply call_dist_pos.
Qed.

(** Two calls leave at least one base, other than a given one, that neither
    names. *)
Lemma free_base (x : ascii) :
  In x bases -> exists y, In y bases /\ y <> x /\ y <> b1 /\ y <> b2.
Proof.
  clear Hs1 Hs2.
  assert (D : forall y, y = b1 \/ y = b2 \/ (y <> b1 /\ y <> b2)).
  { intros y. destruct (Ascii.eqb_spec y b1), (Ascii.eqb_spec y b2); tauto. }
  unfold bases. simpl.
  destruct (D "A"%char) as [A|[A|A]], (D "T"%char) as [T|[T|T]],
    (D "G"%char) as [G|[G|G]], (D "C"%char) as [C|[C|C]];
    try congruence;
    intros [<-|[<-|[<-|[<-|[]]]]];
    first
      [ exists "A"%char; repeat split; try tauto; discriminate
      | exists "T"%char; repeat split; try tauto; discriminate
      | exists "G"%char; repeat split; try tauto; discriminate
      | exists "C"%char; repeat split; try tauto; discriminate ].
Qed.

Lemma joint_below_evidence (x : ascii) :
  In x bases -> joint b1 s1 b2 s2 x < evidence b1 s1 b2 s2.
Proof.
  intros Hx. destruct (free_base x Hx) as (y & Hy & Hyx & Hy1 & Hy2).
  pose proof (joint_pos y Hy1 Hy2) as Py.
  pose proof (joint_nonneg "A") as PA. pose proof (joint_nonneg "T") as PT.
  pose proof (joint_nonneg "G") as PG. pose proof (joint_nonneg "C") as PC.
  unfold evidence. simpl in Hx, Hy.
  destruct Hx as [<-|[<-|[<-|[<-|[]]]]];
    destruct Hy as [<-|[<-|[<-|[<-|[]]]]]; try congruence; lra.
Qed.

Lemma evidence_pos : 0 < evidence b1 s1 b2 s2.
Proof.
  pose proof (joint_below_evidence "A" ltac:(simpl; tauto)).
  pose proof (joint_nonneg "A"). lra.
Qed.

Lemma posterior_nonneg (x : ascii) : 0 <= posterior b1 s1 b2 s2 x.
Proof.
  unfold posterior. apply Rmult_le_pos; [apply joint_nonneg|].
  left. apply Rinv_0_lt_compat, evidence_pos.
Qed.

Lemma posterior_below_1 (x : ascii) :
  In x bases -> posterior b1 s1 b2 s2 x < 1.
Proof.
  intros Hx. unfold posterior. pose proof evidence_pos as E.
  apply Rmult_lt_reg_r with (evidence b1 s1 b2 s2); [exact E|].
  unfold Rdiv. rewrite Rmult_assoc, Rinv_l, Rmult_1_r, Rmult_1_l by lra.
  now apply joint_below_evidence.
Qed.

(** A most probable base has a positive posterior. *)
Lemma most_probable_pos (cb : ascii) :
  most_probable (posterior b1 s1 b2 s2) cb -> 0 < posterior b1 s1 b2 s2 cb.
Proof.
  intros (Hcb & Hmax & _).
  destruct (free_base cb Hcb) as (y & Hy & _ & Hy1 & Hy2).
  apply Rlt_le_trans with (posterior b1 s1 b2 s2 y); [|now apply Hmax].
  unfold posterior. apply Rmult_lt_0_compat; [now apply joint_pos|].
  apply Rinv_0_lt_compat, evidence_pos.
Qed.

(** Both calls usable: the dictionary gets the posterior, and the base and
    the score are read off it without an exception. *)
Lemma bayes_both_usable (d0 : dict) :
  exists d cb,
    calcPosteriorBasePrDist b1 s1 b2 s2 d0 = Ok d /\
    getMostProbableBase d = Ok (cb, phred (posterior b1 s1 b2 s2 cb)) /\
    most_probable (posterior b1 s1 b2 s2) cb.
Proof.
  pose proof evidence_pos as E.
  destruct (calcPosteriorBasePrDist_posterior b1 s1 b2 s2 d0)
    as (d & Hd & Hpost); [lra|].
  destruct (getMostProbableBase_scan d) as (cb & Hm & Eg).
  assert (Hm' : most_probable (posterior b1 s1 b2 s2) cb).
  { destruct Hm as (H1 & H2 & H3). split; [exact H1|].
    split; intros x Hx; rewrite <- !Hpost by assumption; auto. }
  exists d, cb. split; [exact Hd|]. split; [|exact Hm'].
  assert (Hcb : In cb bases) by apply Hm'.
  rewrite Eg, (Hpost cb Hcb).
  pose proof (most_probable_pos cb Hm') as Hpos.
  pose proof (posterior_below_1 cb Hcb) as Hlt.
  destruct (Rgt_dec (posterior b1 s1 b2 s2 cb) 0) as [_|Hn]; [|lra].
  unfold log10.
  destruct (Rle_dec (1 - posterior b1 s1 b2 s2 cb) 0) as [Hle|_]; [lra|].
  cbn [rbind]. unfold phred.
  destruct (Req_dec_T (posterior b1 s1 b2 s2 cb) 0) as [Hz|_]; [lra|].
  reflexivity.
Qed.

End Weights.

End BayesCode.

Section BayesColumns.
Import Builder.
Local Open Scope R_scope.

Variables (b : builder) (min_confscore : Z).
Hypothesis Hlen2 : length (seq2aligned b) = length (seq1aligned b).
Hypothesis Hidx1 : length (seq1indexed b) = length (seq1aligned b).
Hypothesis Hidx2 : length (seq2indexed b) = length (seq1aligned b).
Hypothesis Hconf1 : forall i, (0 <= getBaseCallConf (seqt1 b) i)%Z.
Hypothesis Hconf2 : forall i, (0 <= getBaseCallConf (seqt2 b) i)%Z.

Lemma usable_not_N (c : ascii) : usable c = true -> Ascii.eqb c N = false.
Proof.
  unfold usable. simpl. rewrite orb_false_r, negb_true_iff.
  intros H. now apply orb_false_elim in H.
Qed.

Lemma threshold_cases (cbase : ascii) (cscore : R) (l : str) :
  exists base,
    (if Rge_dec cscore (IZR min_confscore)
     then Py.append l cbase else Py.append l N) = Py.append l base /\
    (cscore < IZR min_confscore -> base = N) /\
    (IZR min_confscore <= cscore -> base = cbase).
Proof.
  destruct (Rge_dec cscore (IZR min_confscore)) as [H|H].
  - exists cbase. repeat split; auto. intros. lra.
  - exists N. repeat split; auto. intros. lra.
Qed.

(** One column: whatever the variables hold from earlier columns, the body
    raises nothing and appends a base and a score as [bayes_column] says. *)
Lemma bayes_column_step (v : bayes_vars) (c1 c2 : ascii) (i1 i2 : Z)
    (k : nat) :
  nth_error (seq1aligned b) k = Some c1 ->
  nth_error (seq2aligned b) k = Some c2 ->
  nth_error (seq1indexed b) k = Some i1 ->
  nth_error (seq2indexed b) k = Some i2 ->
  exists sc1 sc2 d base score,
    bayes_body b min_confscore (Z.of_nat k) v =
    Ok (mkBayes sc1 sc2 d (Py.append (b_cons v) base)
                (Py.append (b_consconf v) score)) /\
    bayes_column min_confscore c1 (getBaseCallConf (seqt1 b) i1)
                 c2 (getBaseCallConf (seqt2 b) i2) base score.
Proof.
  intros E1 E2 E3 E4. unfold bayes_body.
  rewrite (index_nth_error _ _ _ E1), (index_nth_error _ _ _ E2),
    (index_nth_error _ _ _ E3), (index_nth_error _ _ _ E4).
  cbn [rbind].
  set (s1 := getBaseCallConf (seqt1 b) i1).
  set (s2 := getBaseCallConf (seqt2 b) i2).
  destruct (usable c1) eqn:U1; destruct (usable c2) eqn:U2; cbn [rbind];
    rewrite ?(usable_not_N _ U1), ?(usable_not_N _ U2);
    change (Ascii.eqb N N) with true; cbn [negb andb rbind Py.local].
  - destruct (bayes_both_usable c1 c2 s1 s2 (Hconf1 i1) (Hconf2 i2) (b_nppd v))
      as (d & cb & Ed & Eg & Hm).
    rewrite Ed. cbn [rbind]. rewrite Eg. cbn [rbind].
    destruct (threshold_cases cb (phred (posterior c1 s1 c2 s2 cb)) (b_cons v))
      as (base & -> & Hlow & Hhigh).
    do 5 eexists. split; [reflexivity|].
    exists cb. repeat split; auto; try congruence; apply Hm.
  - destruct (threshold_cases c1 (IZR s1) (b_cons v))
      as (base & -> & Hlow & Hhigh).
    do 5 eexists. split; [reflexivity|].
    exists c1. repeat split; auto; congruence.
  - destruct (threshold_cases c2 (IZR s2) (b_cons v))
      as (base & -> & Hlow & Hhigh).
    do 5 eexists. split; [reflexivity|].
    exists c2. repeat split; auto; congruence.
  - destruct (threshold_cases N 1 (b_cons v))
      as (base & -> & Hlow & Hhigh).
    do 5 eexists. split; [reflexivity|].
    exists N. repeat split; auto; congruence.
Qed.

Lemma bayes_body_step (k : nat) (v : bayes_vars) :
  (k < length (seq1aligned b))%nat -> bayes_done b min_confscore k v ->
  exists v', bayes_body b min_confscore (Z.of_nat k) v = Ok v' /\
             bayes_done b min_confscore (Datatypes.S k) v'.
Proof.
  intros Hk (L1 & L2 & Hcols).
  destruct (nth_error (seq1aligned b) k) as [c1|] eqn:E1;
    [|apply nth_error_None in E1; lia].
  destruct (nth_error (seq2aligned b) k) as [c2|] eqn:E2;
    [|apply nth_error_None in E2; lia].
  destruct (nth_error (seq1indexed b) k) as [i1|] eqn:E3;
    [|apply nth_error_None in E3; lia].
  destruct (nth_error (seq2indexed b) k) as [i2|] eqn:E4;
    [|apply nth_error_None in E4; lia].
  destruct (bayes_column_step v c1 c2 i1 i2 k E1 E2 E3 E4)
    as (sc1 & sc2 & d & base & score & E & Hcol).
  eexists. split; [exact E|].
  split; [|split]; simpl; rewrite ?length_append; try lia.
  intros j d1 d2 j1 j2 Hj D1 D2 D3 D4. rewrite !nth_error_append, L1, L2.
  destruct (Nat.ltb_spec j k).
  - now apply Hcols.
  - assert (j = k) by lia. subst j. rewrite Nat.eqb_refl.
    assert (d1 = c1) by congruence. assert (d2 = c2) by congruence.
    assert (j1 = i1) by congruence. assert (j2 = i2) by congruence.
    subst. eauto.
Qed.

Lemma makeBayesianConsensus_done :
  exists v, makeBayesianConsensus min_confscore b
              = Ok (b_cons v, b_consconf v)
            /\ bayes_done b min_confscore (length (seq1aligned b)) v.
Proof.
  unfold makeBayesianConsensus, Py.len.
  destruct (for_each_range (bayes_body b min_confscore)
              (bayes_done b min_confscore) (length (seq1aligned b)))
    with (s := mkBayes None None zero_dist [] []) as (v & E & Hv).
  - intros k s Hk Hs. now apply bayes_body_step.
  - repeat split; auto. intros. lia.
  - exists v. rewrite E. simpl. auto.
Qed.

End BayesColumns.

(** C1: in Bayesian mode, for aligned sequences and index maps of one length
    and traces whose confidences lie between 0 and 61, the loop raises nothing,
    and every column records the computed score and, as base, ['N'] when
    that score is below the threshold and the computed base otherwise.  The
    computed pair is ['N'] with score 1 when neither character is usable,
    the base and trace confidence of the only usable sequence when there is
    one, and, when both are usable, the base of highest Bayes posterior
    (prior from the first call, likelihood from the second, ties going to
    the first of A, T, G, C) with the Phred transform of its posterior plus
    one millionth. *)
Theorem bayesian_consensus_columns (b : Builder.builder) (min_confscore : Z) :
  length (Builder.seq2aligned b) = length (Builder.seq1aligned b) ->
  length (Builder.seq1indexed b) = length (Builder.seq1aligned b) ->
  length (Builder.seq2indexed b) = length (Builder.seq1aligned b) ->
  (forall i, 0 <= Builder.getBaseCallConf (Builder.seqt1 b) i <= 61) ->
  (forall i, 0 <= Builder.getBaseCallConf (Builder.seqt2 b) i <= 61) ->
  exists cons_ consconf,
    Builder.makeBayesianConsensus min_confscore b = Ok (cons_, consconf) /\
    length cons_ = length (Builder.seq1aligned b) /\
    length consconf = length (Builder.seq1aligned b) /\
    forall cnt c1 c2 i1 i2,
      nth_error (Builder.seq1aligned b) cnt = Some c1 ->
      nth_error (Builder.seq2aligned b) cnt = Some c2 ->
      nth_error (Builder.seq1indexed b) cnt = Some i1 ->
      nth_error (Builder.seq2indexed b) cnt = Some i2 ->
      exists base score,
        nth_error cons_ cnt = Some base /\
        nth_error consconf cnt = Some score /\
        bayes_column min_confscore
          c1 (Builder.getBaseCallConf (Builder.seqt1 b) i1)
          c2 (Builder.getBaseCallConf (Builder.seqt2 b) i2) base score.
Proof.
  intros H2 H3 H4 H5 H6.
  destruct (makeBayesianConsensus_done b min_confscore H2 H3 H4
              (fun i => proj1 (H5 i)) (fun i => proj1 (H6 i)))
    as (v & E & L1 & L2 & Hcols).
  exists (Builder.b_cons v), (Builder.b_consconf v).
  repeat split; auto.
  intros cnt c1 c2 i1 i2 E1 E2 E3 E4.
  apply Hcols; auto. apply nth_error_Some. congruence.
Qed.

Lemma bayesian_consensus_columns_witness :
  let b := Builder.mkBuilder
             (Builder.mkTrace (lit "AN") (fun _ => 40%Z))
             (Builder.mkTrace (lit "AC") (fun _ => 35%Z))
             (lit "AN") (lit "AC") [0; 1] [0; 1] in
  exists cons_ consconf,
    Builder.makeBayesianConsensus 30 b = Ok (cons_, consconf) /\
    length cons_ = 2%nat /\ length consconf = 2%nat.
Proof.
  intros b.
  destruct (bayesian_consensus_columns b 30)
    as (cs & conf & E & L1 & L2 & _);
    [reflexivity | reflexivity | reflexivity
    | intros i; simpl; lia | intros i; simpl; lia |].
  exists cs, conf. auto.
Defined.

(** ** Concordant calls *)

Section Concordant.
Import Builder.
Local Open Scope R_scope.

Lemma error_prob_pow (s : Z) (n : nat) :
  error_prob s ^ n = Rpower 10 (IZR s / -10 * INR n).
Proof.
  unfold error_prob.
  rewrite <- Rpower_pow by (unfold Rpower; apply exp_pos).
  apply Rpower_mult.
Qed.

Lemma Rpower_10_m1 : Rpower 10 (- (1)) = / 10.
Proof. rewrite Rpower_Ropp, Rpower_1 by lra. reflexivity. Qed.

(** A score of 1 is an error probability between 0.79 and 0.8. *)
Lemma error_prob_1 : 79 / 100 < error_prob 1 < 8 / 10.
Proof.
  pose proof (error_prob_pos 1) as Hpos.
  assert (H10 : error_prob 1 ^ 10 = / 10).
  { rewrite error_prob_pow. simpl INR.
    replace (1 / -10 * (1 + 1 + 1 + 1 + 1 + 1 + 1 + 1 + 1 + 1)) with (- (1))
      by field.
    apply Rpower_10_m1. }
  split.
  - apply Rnot_le_lt. intros Hle.
    assert (P : error_prob 1 ^ 10 <= (79 / 100) ^ 10)
      by (apply pow_incr; lra).
    rewrite H10 in P. simpl in P. lra.
  - apply Rnot_le_lt. intros Hle.
    assert (P : (8 / 10) ^ 10 <= error_prob 1 ^ 10)
      by (apply pow_incr; lra).
    rewrite H10 in P. simpl in P. lra.
Qed.

(** From a score of 2 on, the error probability is below 3/4. *)
Lemma error_prob_from_2 (s : Z) : (2 <= s)%Z -> error_prob s < 3 / 4.
Proof.
  intros Hs.
  assert (H5 : error_prob 2 ^ 5 = / 10).
  { rewrite error_prob_pow. simpl INR.
    replace (2 / -10 * (1 + 1 + 1 + 1 + 1)) with (- (1)) by field.
    apply Rpower_10_m1. }
  assert (H2 : error_prob 2 < 3 / 4).
  { pose proof (error_prob_pos 2).
    apply Rnot_le_lt. intros Hle.
    assert (P : (3 / 4) ^ 5 <= error_prob 2 ^ 5) by (apply pow_incr; lra).
    rewrite H5 in P. simpl in P. lra. }
  apply Rle_lt_trans with (error_prob 2); [|exact H2].
  unfold error_prob. apply Rle_Rpower; [lra|].
  apply IZR_le in Hs. lra.
Qed.

Lemma ln_error_prob (s : Z) : ln (error_prob s) = IZR s / -10 * ln 10.
Proof. unfold error_prob, Rpower. apply ln_exp. Qed.

Lemma ln_monotone (x y : R) : 0 < x -> x <= y -> ln x <= ln y.
Proof.
  intros Hx [Hlt | ->]; [|lra]. left. now apply ln_increasing.
Qed.

Variables (base : ascii) (s : Z).
Hypothesis Hbase : In base bases.

Lemma concordant_evidence :
  evidence base s base s
  = (1 - error_prob s) * (1 - error_prob s)
    + error_prob s * error_prob s / 3.
Proof.
  unfold evidence, joint, call_dist. simpl in Hbase.
  destruct Hbase as [<-|[<-|[<-|[<-|[]]]]]; simpl; field.
Qed.

Lemma concordant_joint_called :
  joint base s base s base = (1 - error_prob s) * (1 - error_prob s).
Proof. unfold joint, call_dist. now rewrite Ascii.eqb_refl. Qed.

Lemma concordant_joint_other (y : ascii) :
  y <> base ->
  joint base s base s y = error_prob s * error_prob s / 9.
Proof.
  intros Hy. unfold joint, call_dist.
  destruct (Ascii.eqb_spec y base); [contradiction | field].
Qed.

Hypothesis Hs : (1 <= s)%Z.

(** The weight of the most probable base leaves at most the error
    probability of one call. *)
Lemma concordant_remainder (cb : ascii) :
  most_probable (posterior base s base s) cb ->
  evidence base s base s - joint base s base s cb
  <= error_prob s * evidence base s base s.
Proof.
  intros (Hcb & Hmax & _).
  assert (Hs0 : (0 <= s)%Z) by lia.
  pose proof (evidence_pos base base s s Hs0 Hs0) as D.
  assert (Hj : forall x, In x bases ->
                 joint base s base s x <= joint base s base s cb).
  { intros x Hx. specialize (Hmax x Hx). unfold posterior in Hmax.
    apply Rmult_le_reg_r with (/ evidence base s base s); [|exact Hmax].
    now apply Rinv_0_lt_compat. }
  pose proof (Hj base Hbase) as J1. rewrite concordant_joint_called in J1.
  destruct (free_base base base base Hbase) as (y & Hy & Hyb & _).
  pose proof (Hj y Hy) as J2. rewrite (concordant_joint_other y Hyb) in J2.
  rewrite concordant_evidence in *.
  pose proof (error_prob_pos s) as E0.
  pose proof (error_prob_le_1 s Hs0) as E1.
  set (e := error_prob s) in *.
  destruct (Z.eq_dec s 1) as [->|Hne].
  - pose proof error_prob_1 as [Lo Hi]. fold e in Lo, Hi.
    assert (B1 : (1 - e) * ((1 - e) * (1 - e) + e * e / 3)
                 <= 21 / 100 * (21 / 100 * (21 / 100) + 8 / 10 * (8 / 10) / 3))
      by (apply Rmult_le_compat; nra).
    assert (B2 : 79 / 100 * (79 / 100) / 9 <= e * e / 9) by nra.
    nra.
  - assert (H34 : e < 3 / 4) by (apply error_prob_from_2; lia).
    assert (B : 0 <= e * ((1 - e) * (3 / 4 - e))) by
      (apply Rmult_le_pos; [lra | apply Rmult_le_pos; lra]).
    nra.
Qed.

End Concordant.

(** C8: for a base of A, C, G, T and a Phred score from 1 to 61, the two
    concordant calls combine without an exception, and the score Bayesian
    mode computes for them is strictly greater than the score of the
    calls. *)
Theorem bayes_concordant_reinforces (base : ascii) (s : Z)
    (d0 : Builder.dict) :
  In base Builder.bases -> 1 <= s <= 61 ->
  exists d cbase cscore,
    Builder.calcPosteriorBasePrDist base s base s d0 = Ok d /\
    Builder.getMostProbableBase d = Ok (cbase, cscore) /\
    (IZR s < cscore)%R.
Proof.
  intros Hbase [Hs1 Hs61].
  assert (Hs0 : 0 <= s) by lia.
  destruct (bayes_both_usable base base s s Hs0 Hs0 d0)
    as (d & cb & Ed & Eg & Hm).
  exists d, cb, (phred (posterior base s base s cb)).
  split; [exact Ed|]. split; [exact Eg|].
  pose proof (concordant_remainder base s Hbase Hs1 cb Hm) as Hrem.
  pose proof (evidence_pos base base s s Hs0 Hs0) as D.
  pose proof (most_probable_pos base base s s Hs0 Hs0 cb Hm) as Ppos.
  assert (Hcb : In cb Builder.bases) by apply Hm.
  pose proof (posterior_below_1 base base s s Hs0 Hs0 cb Hcb) as Plt.
  assert (Hle : (1 - posterior base s base s cb <= error_prob s)%R).
  { unfold posterior.
    apply Rmult_le_reg_r with (evidence base s base s); [exact D|].
    replace ((1 - joint base s base s cb / evidence base s base s)
             * evidence base s base s)%R
      with (evidence base s base s - joint base s base s cb)%R
      by (field; lra).
    exact Hrem. }
  unfold phred.
  destruct (Req_dec_T (posterior base s base s cb) 0) as [Hz|_]; [lra|].
  assert (Hrest : (0 < 1 - posterior base s base s cb)%R) by lra.
  pose proof (ln_monotone _ _ Hrest Hle) as Hln.
  rewrite ln_error_prob in Hln.
  pose proof ln_10_pos as L10.
  assert (Hq : (ln (1 - posterior base s base s cb) / ln 10
                <= IZR s / -10)%R).
  { apply Rmult_le_reg_r with (ln 10); [exact L10|].
    replace (ln (1 - posterior base s base s cb) / ln 10 * ln 10)%R
      with (ln (1 - posterior base s base s cb)) by (field; lra).
    exact Hln. }
  lra.
Qed.

Lemma bayes_concordant_reinforces_witness :
  exists d cbase cscore,
    Builder.calcPosteriorBasePrDist "G" 30 "G" 30 Builder.zero_dist = Ok d /\
    Builder.getMostProbableBase d = Ok (cbase, cscore) /\
    (30 < cscore)%R.
Proof.
  apply (bayes_concordant_reinforces "G" 30 Builder.zero_dist).
  - simpl. tauto.
  - lia.
Defined.


(** * Further properties *)

(** ** Settings: what a batch leaves behind *)

Section SettingsMore.
Import Settings.

Ltac fields_of H :=
  unfold stored in H; simpl in H;
  injection H as ?Fm ?Fa ?Fd ?Fw ?Fb ?Ft.

(** The stored settings after the body of [setAll], by the setter that
    raised, if any: the setters before it have stored their values. *)
Lemma batch_body_stored (st0 : state) (mc : Z) (alg : str) (dat : bool)
    (w b : Z) (teg : bool) :
  notify_all st0 = false ->
  let st' := fst (batch_body mc alg dat w b teg st0) in
  ((mc > 61 \/ mc < 1) /\ stored st' = stored st0)
  \/ (1 <= mc <= 61 /\ alg <> lit "Bayesian" /\ alg <> lit "legacy" /\
      stored st' =
        (mc, consensus_algorithm st0, do_autotrim st0, autotrim_winsize st0,
         autotrim_basecnt st0, trim_endgaps st0))
  \/ (1 <= mc <= 61 /\ (alg = lit "Bayesian" \/ alg = lit "legacy") /\
      b > w /\
      stored st' =
        (mc, alg, dat, autotrim_winsize st0, autotrim_basecnt st0,
         trim_endgaps st0))
  \/ (accepted mc alg w b /\ stored st' = (mc, alg, dat, w, b, teg)).
Proof.
  intros Hq. unfold batch_body, bind, accepted.
  destruct (setMinConfScore_batch mc st0 Hq) as [(V1 & R1 & Q1)|(V1 & E1)].
  2: { rewrite E1. cbn [fst]. left. auto. }
  right.
  destruct (setMinConfScore mc st0) as [s1 r1]. simpl in R1, Q1. subst r1.
  pose proof (qs_stored _ _ _ _ Q1) as S1.
  destruct (setConsensusAlgorithm_batch alg s1 (qs_mode _ _ _ _ Q1))
    as [(V2 & R2 & Q2)|(V2 & V2' & E2)].
  2: { rewrite E2. cbn [fst]. left. repeat split; auto; lia. }
  right.
  destruct (setConsensusAlgorithm alg s1) as [s2 r2]. simpl in R2, Q2. subst r2.
  pose proof (qs_stored _ _ _ _ Q2) as S2. fields_of S1.
  destruct (setDoAutoTrim_batch dat s2 (qs_mode _ _ _ _ Q2)) as (R3 & Q3).
  destruct (setDoAutoTrim dat s2) as [s3 r3]. simpl in R3, Q3. subst r3.
  pose proof (qs_stored _ _ _ _ Q3) as S3. fields_of S2.
  destruct (setAutoTrimParams_batch w b s3 (qs_mode _ _ _ _ Q3))
    as [(V4 & R4 & Q4)|(V4 & E4)].
  2: { rewrite E4. cbn [fst]. left. rewrite S3.
       repeat split; auto; try lia. congruence. }
  right.
  destruct (setAutoTrimParams w b s3) as [s4 r4]. simpl in R4, Q4. subst r4.
  pose proof (qs_stored _ _ _ _ Q4) as S4. fields_of S3.
  destruct (setTrimEndGaps_batch teg s4 (qs_mode _ _ _ _ Q4)) as (R5 & Q5).
  destruct (setTrimEndGaps teg s4) as [s5 r5]. simpl in R5, Q5. subst r5.
  pose proof (qs_stored _ _ _ _ Q5) as S5. fields_of S4.
  cbn [fst]. split; [tauto|]. rewrite S5. congruence.
Qed.

Lemma setAll_stored_body (st : state) (mc : Z) (alg : str) (dat : bool)
    (w b : Z) (teg : bool) :
  stored (fst (setAll mc alg dat (w, b) teg st)) =
  stored (fst (batch_body mc alg dat w b teg
                 (set_change_made false (set_notify_all false st)))).
Proof.
  rewrite setAll_unfold.
  destruct (batch_body _ _ _ _ _ _ _) as [s r]. simpl.
  destruct (change_made s); reflexivity.
Qed.

(** X1: [setAll] applies its setters in order and rolls nothing back: when a
    setter raises, the settings of the setters before it are stored and the
    others are as they were; when none raises all six are stored. *)
Theorem setAll_partial_application (st : state) (mc : Z) (alg : str)
    (dat : bool) (w b : Z) (teg : bool) :
  let st' := fst (setAll mc alg dat (w, b) teg st) in
  ((mc > 61 \/ mc < 1) /\ stored st' = stored st)
  \/ (1 <= mc <= 61 /\ alg <> lit "Bayesian" /\ alg <> lit "legacy" /\
      stored st' =
        (mc, consensus_algorithm st, do_autotrim st, autotrim_winsize st,
         autotrim_basecnt st, trim_endgaps st))
  \/ (1 <= mc <= 61 /\ (alg = lit "Bayesian" \/ alg = lit "legacy") /\
      b > w /\
      stored st' =
        (mc, alg, dat, autotrim_winsize st, autotrim_basecnt st,
         trim_endgaps st))
  \/ (accepted mc alg w b /\ stored st' = (mc, alg, dat, w, b, teg)).
Proof.
  cbv zeta. rewrite setAll_stored_body.
  exact (batch_body_stored
           (set_change_made false (set_notify_all false st))
           mc alg dat w b teg eq_refl).
Qed.

Lemma valid_of_stored (st : state) (m : Z) (a : str) (d : bool) (w b : Z)
    (t : bool) :
  stored st = (m, a, d, w, b, t) ->
  1 <= m <= 61 -> (a = lit "Bayesian" \/ a = lit "legacy") -> b <= w ->
  valid st.
Proof.
  intros S Hm Ha Hb. fields_of S. unfold valid. subst. auto.
Qed.

Ltac setter_run :=
  repeat match goal with
         | |- context [Z.gtb ?x ?y] => destruct (Z.gtb_spec x y)
         | |- context [Z.ltb ?x ?y] => destruct (Z.ltb_spec x y)
         | |- context [Z.eqb ?x ?y] => destruct (Z.eqb_spec x y)
         | |- context [str_eqb ?x ?y] =>
             let E := fresh "E" in destruct (str_eqb x y) eqn:E
         | |- context [Bool.eqb ?x ?y] =>
             let E := fresh "E" in destruct (Bool.eqb x y) eqn:E
         | |- context [notify_all ?s] => destruct (notify_all s)
         end;
  str_cases; cbn [orb negb andb fst snd].

(** X2: the validating setters keep the invariant of a settings object
    (threshold in 1..61, a known algorithm name, no more good bases asked
    for than the window holds), whether they return or raise, and so does
    [setAll]; [copyFrom] keeps it when the source object has it. *)
Theorem settings_stay_valid (st : state) :
  valid st ->
  (forall v, valid (fst (setMinConfScore v st))) /\
  (forall v, valid (fst (setConsensusAlgorithm v st))) /\
  (forall v, valid (fst (setDoAutoTrim v st))) /\
  (forall w b, valid (fst (setAutoTrimParams w b st))) /\
  (forall v, valid (fst (setTrimEndGaps v st))) /\
  (forall mc alg dat w b teg,
     valid (fst (setAll mc alg dat (w, b) teg st))) /\
  (forall other, valid other -> valid (copyFrom other st)).
Proof.
  intros (Hm & Ha & Hb).
  assert (Setter : forall st', stored st' = stored st -> valid st').
  { intros st' S. symmetry in S. fields_of S. unfold valid.
    rewrite <- Fm, <- Fa, <- Fw, <- Fb. auto. }
  split; [|split; [|split; [|split; [|split; [|split]]]]].
  - intros v. unfold setMinConfScore, settings_changed, raise, ret.
    setter_run; auto; unfold valid; simpl; auto with zarith.
  - intros v. unfold setConsensusAlgorithm, settings_changed, raise, ret.
    cbn [existsb]. rewrite orb_false_r.
    setter_run; auto; unfold valid; simpl; auto.
  - intros v. unfold setDoAutoTrim, settings_changed, ret.
    setter_run; auto; unfold valid; simpl; auto.
  - intros w b. unfold setAutoTrimParams, settings_changed, raise, ret.
    setter_run; auto; unfold valid; simpl; auto with zarith.
  - intros v. unfold setTrimEndGaps, settings_changed, ret.
    setter_run; auto; unfold valid; simpl; auto.
  - intros mc alg dat w b teg.
    pose proof (setAll_stored_body st mc alg dat w b teg) as E.
    destruct (batch_body_stored
                (set_change_made false (set_notify_all false st))
                mc alg dat w b teg eq_refl)
      as [(V & S)|[(V & V1 & V2 & S)|[(V & V1 & V2 & S)|((V & V1 & V2) & S)]]];
      cbv zeta in S; rewrite <- E in S.
    + now apply Setter.
    + eapply valid_of_stored; eauto.
    + eapply valid_of_stored; eauto.
    + eapply valid_of_stored; eauto.
  - intros other H. exact H.
Qed.

Lemma settings_stay_valid_witness :
  valid (fst (setAll 0 (lit "legacy") false (5, 9) false init)) /\
  valid (fst (setAll 45 (lit "?") false (5, 9) false init)) /\
  valid (fst (setAutoTrimParams 5 9 init)).
Proof.
  assert (V : valid init) by (unfold valid; simpl; auto with zarith).
  destruct (settings_stay_valid init V) as (_ & _ & _ & H4 & _ & H6 & _).
  split; [apply H6 | split; [apply H6 | apply H4]].
Defined.

(** X3: a setter called with the value already stored, when that value
    passes its validation, changes nothing and publishes nothing, inside a
    batch or outside. *)
Theorem setter_same_value_silent (st : state) :
  (1 <= min_confscore st <= 61 ->
   setMinConfScore (min_confscore st) st = (st, Ok tt)) /\
  (consensus_algorithm st = lit "Bayesian"
   \/ consensus_algorithm st = lit "legacy" ->
   setConsensusAlgorithm (consensus_algorithm st) st = (st, Ok tt)) /\
  setDoAutoTrim (do_autotrim st) st = (st, Ok tt) /\
  (autotrim_basecnt st <= autotrim_winsize st ->
   setAutoTrimParams (autotrim_winsize st) (autotrim_basecnt st) st
   = (st, Ok tt)) /\
  setTrimEndGaps (trim_endgaps st) st = (st, Ok tt).
Proof.
  repeat split; try intros H;
    unfold setMinConfScore, setConsensusAlgorithm, setDoAutoTrim,
      setAutoTrimParams, setTrimEndGaps, settings_changed, raise, ret;
    cbn [existsb]; rewrite ?orb_false_r, ?Z.eqb_refl, ?str_eqb_refl,
      ?eqb_reflx; cbn [negb orb].
  - destruct (Z.gtb_spec (min_confscore st) 61); [lia|].
    destruct (Z.ltb_spec (min_confscore st) 1); [lia|]. reflexivity.
  - destruct H as [H|H]; rewrite H at 1 2; reflexivity.
  - reflexivity.
  - destruct (Z.gtb_spec (autotrim_basecnt st) (autotrim_winsize st));
      [lia | reflexivity].
  - reflexivity.
Qed.

Lemma setter_same_value_silent_witness :
  setMinConfScore 30 init = (init, Ok tt) /\
  setConsensusAlgorithm (lit "Bayesian") init = (init, Ok tt) /\
  setAutoTrimParams 10 8 init = (init, Ok tt).
Proof.
  destruct (setter_same_value_silent init) as (H1 & H2 & _ & H4 & _).
  split; [apply H1 | split; [apply H2 | apply H4]]; simpl; auto with zarith.
Defined.

(** X4: outside a batch, a setter that stores a new value publishes its own
    event and then [settings_change], and nothing more; a threshold or a
    pair of trimming parameters that fails validation publishes nothing and
    stores nothing. *)
Theorem setter_change_announced (st : state) :
  notify_all st = true ->
  (forall v, v <> min_confscore st ->
     (1 <= v <= 61 ->
      announces st (fst (setMinConfScore v st))
                (min_confscore_change v (min_confscore st)) /\
      min_confscore (fst (setMinConfScore v st)) = v) /\
     (v > 61 \/ v < 1 ->
      setMinConfScore v st = (st, Raise ConsensSeqSettingsError))) /\
  (forall v, v <> consensus_algorithm st ->
     v = lit "Bayesian" \/ v = lit "legacy" ->
     announces st (fst (setConsensusAlgorithm v st))
               consensus_algorithm_change /\
     consensus_algorithm (fst (setConsensusAlgorithm v st)) = v) /\
  (forall v, v <> do_autotrim st ->
     announces st (fst (setDoAutoTrim v st)) autotrim_change /\
     do_autotrim (fst (setDoAutoTrim v st)) = v) /\
  (forall w b, w <> autotrim_winsize st \/ b <> autotrim_basecnt st ->
     (b <= w ->
      announces st (fst (setAutoTrimParams w b st)) autotrim_change /\
      getAutoTrimParams (fst (setAutoTrimParams w b st)) = (w, b)) /\
     (b > w ->
      setAutoTrimParams w b st = (st, Raise ConsensSeqSettingsError))) /\
  (forall v, v <> trim_endgaps st ->
     announces st (fst (setTrimEndGaps v st)) autotrim_change /\
     trim_endgaps (fst (setTrimEndGaps v st)) = v).
Proof.
  intros Hn. unfold announces.
  split; [|split; [|split; [|split]]].
  - intros v Hv. unfold setMinConfScore, settings_changed, raise, ret.
    destruct (Z.gtb_spec v 61), (Z.ltb_spec v 1); cbn [orb];
      (split; [intros ?; try lia | intros ?; try lia; try reflexivity]).
    destruct (Z.eqb_spec (min_confscore st) v); [congruence|].
    simpl. rewrite Hn. simpl. rewrite <- app_assoc. auto.
  - intros v Hv Hname.
    unfold setConsensusAlgorithm, settings_changed, raise, ret.
    cbn [existsb]. rewrite orb_false_r.
    assert (E : str_eqb v (lit "Bayesian") || str_eqb v (lit "legacy") = true)
      by (destruct Hname as [-> | ->]; reflexivity).
    rewrite E. cbn [negb].
    destruct (str_eqb (consensus_algorithm st) v) eqn:EC; str_cases;
      [congruence|].
    simpl. rewrite Hn. simpl. rewrite <- app_assoc. auto.
  - intros v Hv. unfold setDoAutoTrim, settings_changed, ret.
    assert (E : Bool.eqb (do_autotrim st) v = false)
      by (apply eqb_false_iff; congruence).
    rewrite E. simpl. rewrite Hn. simpl. rewrite <- app_assoc. auto.
  - intros w b Hwb.
    unfold setAutoTrimParams, settings_changed, raise, ret, getAutoTrimParams.
    destruct (Z.gtb_spec b w);
      (split; [intros ?; try lia | intros ?; try lia; try reflexivity]).
    destruct (Z.eqb_spec (autotrim_winsize st) w),
      (Z.eqb_spec (autotrim_basecnt st) b); try (exfalso; intuition congruence);
      simpl; rewrite Hn; simpl; rewrite <- app_assoc; auto.
  - intros v Hv. unfold setTrimEndGaps, settings_changed, ret.
    assert (E : Bool.eqb (trim_endgaps st) v = false)
      by (apply eqb_false_iff; congruence).
    rewrite E. simpl. rewrite Hn. simpl. rewrite <- app_assoc. auto.
Qed.

Lemma setter_change_announced_witness :
  published (fst (setMinConfScore 20 init)) =
    [min_confscore_change 20 30; settings_change] /\
  setAutoTrimParams 5 9 init = (init, Raise ConsensSeqSettingsError).
Proof.
  destruct (setter_change_announced init eq_refl) as (H1 & _ & _ & H3 & _).
  split.
  - destruct (H1 20) as [H _]; [simpl; lia|].
    destruct H as [(E & _) _]; [lia|]. exact E.
  - destruct (H3 5 9) as [_ H]; [left; simpl; lia|]. apply H. lia.
Defined.

End SettingsMore.

(** ** Editing: arguments, events and the two stacks *)

Section EditingMore.
Import Editable.

Lemma ordered_swap (a b : Z) : ordered a b = ordered b a.
Proof.
  unfold ordered.
  destruct (Z.gtb_spec a b), (Z.gtb_spec b a); try reflexivity; try lia.
  now replace b with a by lia.
Qed.

Lemma ordered_min_max (a b : Z) : ordered a b = (Z.min a b, Z.max a b).
Proof.
  unfold ordered. destruct (Z.gtb_spec a b); f_equal; lia.
Qed.

(** X5: the two indexes of an edit may come in either order. *)
Theorem edit_indexes_swapped (a b : Z) (newseq : str) (st : state) :
  deleteBases a b st = deleteBases b a st /\
  modifyBases a b newseq st = modifyBases b a newseq st.
Proof.
  unfold deleteBases, modifyBases. now rewrite (ordered_swap a b).
Qed.

Lemma len_append_1 {A : Type} (l : list A) (x : A) :
  (Py.len (Py.append l x) =? 1) = match l with [] => true | _ => false end.
Proof.
  unfold Py.len. rewrite length_append.
  destruct l; [reflexivity|]. apply Z.eqb_neq. simpl length. lia.
Qed.

Lemma len_0 {A : Type} (l : list A) :
  (Py.len l =? 0) = match l with [] => true | _ => false end.
Proof. destruct l; reflexivity. Qed.

(** X6: an edit pushes one record, the range in order with the characters
    it held, clears nothing, and publishes [consensus_changed] for the range
    in order, followed by [undo_state_changed (True)] exactly when the undo
    stack was empty before. *)
Theorem edit_record_and_events (a b : Z) (newseq : str) (st st' : state) :
  deleteBases a b st = st' \/ modifyBases a b newseq st = Ok st' ->
  undo_stack st' =
    Py.append (undo_stack st)
      (mkEdit (Z.min a b) (Z.max a b)
              (Py.slice (consensus st) (Z.min a b) (Z.max a b + 1))) /\
  redo_stack st' = redo_stack st /\
  published st' =
    published st ++ consensus_changed (Z.min a b) (Z.max a b)
    :: match undo_stack st with
       | [] => [undo_state_changed true]
       | _ => []
       end.
Proof.
  unfold deleteBases, modifyBases. rewrite ordered_min_max.
  intros [<- | H].
  - cbn [notifyObservers undo_stack]. rewrite len_append_1.
    destruct (undo_stack st); simpl; rewrite <- ?app_assoc; auto.
  - destruct (negb _); [discriminate|]. injection H as <-.
    cbn [notifyObservers undo_stack]. rewrite len_append_1.
    destruct (undo_stack st); simpl; rewrite <- ?app_assoc; auto.
Qed.

Lemma edit_record_and_events_witness :
  published (deleteBases 2 1 (mkState (lit "ACGT") [] [] [])) =
    [consensus_changed 1 2; undo_state_changed true].
Proof.
  destruct (edit_record_and_events 2 1 [] (mkState (lit "ACGT") [] [] []) _
              (or_introl eq_refl)) as (_ & _ & E).
  exact E.
Defined.

(** X7: [undo] with an empty undo stack does nothing at all.  Otherwise it
    moves the top record [u] to the redo stack, with the characters the
    range holds now, and publishes [consensus_changed] for that range, then
    [redo_state_changed (True)] exactly when the redo stack was empty, then
    [undo_state_changed (False)] exactly when [u] was the only record. *)
Theorem undo_records_and_events (st : state) :
  (undo_stack st = [] -> undo st = st) /\
  (forall rest u, undo_stack st = Py.append rest u ->
     undo_stack (undo st) = rest /\
     redo_stack (undo st) =
       Py.append (redo_stack st)
         (mkEdit (e_start u) (e_end u)
                 (Py.slice (consensus st) (e_start u) (e_end u + 1))) /\
     published (undo st) =
       published st ++ consensus_changed (e_start u) (e_end u)
       :: match redo_stack st with
          | [] => [redo_state_changed true]
          | _ => []
          end
       ++ match rest with
          | [] => [undo_state_changed false]
          | _ => []
          end).
Proof.
  split.
  - intros E. unfold undo. now rewrite E.
  - intros rest u E. unfold undo. rewrite E, pop_append.
    cbn [notifyObservers redo_stack undo_stack]. rewrite len_append_1.
    destruct (redo_stack st); cbn [notifyObservers redo_stack undo_stack];
      rewrite len_0; destruct rest; simpl; rewrite <- ?app_assoc; auto.
Qed.

Lemma undo_records_and_events_witness :
  let st := mkState (lit "A  T") [mkEdit 1 2 (lit "CG")] [] [] in
  undo_stack (undo st) = [] /\
  published (undo st) =
    [consensus_changed 1 2; redo_state_changed true;
     undo_state_changed false].
Proof.
  intros st.
  destruct (undo_records_and_events st) as [_ H].
  destruct (H [] (mkEdit 1 2 (lit "CG")) eq_refl) as (E1 & _ & E3).
  split; [exact E1 | exact E3].
Defined.

(** X8: [redo] mirrors [undo]: nothing with an empty redo stack; otherwise
    the top record goes back to the undo stack and the events are
    [consensus_changed], then [undo_state_changed (True)] exactly when the
    undo stack was empty, then [redo_state_changed (False)] exactly when the
    record was the only one. *)
Theorem redo_records_and_events (st : state) :
  (redo_stack st = [] -> redo st = st) /\
  (forall rest r, redo_stack st = Py.append rest r ->
     redo_stack (redo st) = rest /\
     undo_stack (redo st) =
       Py.append (undo_stack st)
         (mkEdit (e_start r) (e_end r)
                 (Py.slice (consensus st) (e_start r) (e_end r + 1))) /\
     published (redo st) =
       published st ++ consensus_changed (e_start r) (e_end r)
       :: match undo_stack st with
          | [] => [undo_state_changed true]
          | _ => []
          end
       ++ match rest with
          | [] => [redo_state_changed false]
          | _ => []
          end).
Proof.
  split.
  - intros E. unfold redo. now rewrite E.
  - intros rest r E. unfold redo. rewrite E, pop_append.
    cbn [notifyObservers redo_stack undo_stack]. rewrite len_append_1.
    destruct (undo_stack st); cbn [notifyObservers redo_stack undo_stack];
      rewrite len_0; destruct rest; simpl; rewrite <- ?app_assoc; auto.
Qed.

Lemma redo_records_and_events_witness :
  let st := mkState (lit "ACGT") [] [mkEdit 1 2 (lit "  ")] [] in
  redo_stack (redo st) = [] /\
  published (redo st) =
    [consensus_changed 1 2; undo_state_changed true;
     redo_state_changed false].
Proof.
  intros st.
  destruct (redo_records_and_events st) as [_ H].
  destruct (H [] (mkEdit 1 2 (lit "  ")) eq_refl) as (E1 & _ & E3).
  split; [exact E1 | exact E3].
Defined.

(** *** The invariant of the stacks *)

Lemma pop_some {A : Type} (l rest : list A) (x : A) :
  Py.pop l = Some (rest, x) -> l = Py.append rest x.
Proof.
  unfold Py.append. revert rest.
  induction l as [|a l IH]; intros rest; simpl; [discriminate|].
  destruct (Py.pop l) as [[r z]|] eqn:E.
  - intros H. injection H as <- <-. simpl. f_equal. now apply IH.
  - intros H. injection H as <- <-. destruct l; [reflexivity|].
    simpl in E. destruct (Py.pop l) as [[? ?]|]; discriminate.
Qed.

Lemma pop_cases {A : Type} (l : list A) :
  l = [] \/ exists rest x, l = Py.append rest x.
Proof.
  destruct (Py.pop l) as [[rest x]|] eqn:E.
  - right. exists rest, x. now apply pop_some.
  - left. destruct l; [reflexivity|]. simpl in E.
    destruct (Py.pop l) as [[? ?]|]; discriminate.
Qed.

Lemma Forall_append {A : Type} (P : A -> Prop) (l : list A) (x : A) :
  Forall P (Py.append l x) <-> Forall P l /\ P x.
Proof.
  unfold Py.append. rewrite Forall_app. split.
  - intros [H1 H2]. split; [assumption|]. now inversion H2.
  - intros [H1 H2]. split; auto.
Qed.

(** What an edit in range does to the consensus and the stacks. *)
Lemma run_op_effect (o : op) (st : state) :
  in_range (Py.len (consensus st)) o ->
  exists lo hi mid st',
    run_op o st = Ok st' /\
    0 <= lo <= hi /\ hi < Py.len (consensus st) /\
    Py.len mid = hi - lo + 1 /\
    consensus st' = splice (consensus st) lo hi mid /\
    undo_stack st' =
      Py.append (undo_stack st)
        (mkEdit lo hi (Py.slice (consensus st) lo (hi + 1))) /\
    redo_stack st' = redo_stack st.
Proof.
  destruct o as [a b | a b newseq]; simpl.
  - intros (Ha & Hb).
    exists (Z.min a b), (Z.max a b),
      (Py.spaces (Z.max a b - Z.min a b + 1)). eexists.
    split; [reflexivity|].
    unfold deleteBases. rewrite ordered_min_max.
    split; [lia|]. split; [lia|]. split; [apply len_spaces; lia|].
    destruct (_ =? 1); simpl; auto.
  - intros (Ha & Hb & Hl).
    exists (Z.min a b), (Z.max a b), newseq.
    unfold modifyBases. rewrite ordered_min_max.
    replace (Z.max a b - Z.min a b + 1) with (Z.abs (b - a) + 1) by lia.
    rewrite Hl, Z.eqb_refl. cbn [negb].
    eexists. split; [reflexivity|].
    split; [lia|]. split; [lia|]. split; [lia|].
    destruct (_ =? 1); simpl; auto.
Qed.

Lemma fits_slice (s : str) (lo hi : Z) :
  0 <= lo <= hi -> hi < Py.len s ->
  fits (Py.len s) (mkEdit lo hi (Py.slice s lo (hi + 1))).
Proof.
  intros H1 H2. unfold fits. simpl.
  rewrite len_slice_range by lia. lia.
Qed.

(** What [undo] does with a record that fits. *)
Lemma undo_effect (st : state) (rest : list edit) (u : edit) :
  undo_stack st = Py.append rest u -> fits (Py.len (consensus st)) u ->
  consensus (undo st) = splice (consensus st) (e_start u) (e_end u) (e_data u)
  /\ Py.len (consensus (undo st)) = Py.len (consensus st)
  /\ undo_stack (undo st) = rest
  /\ redo_stack (undo st) =
       Py.append (redo_stack st)
         (mkEdit (e_start u) (e_end u)
                 (Py.slice (consensus st) (e_start u) (e_end u + 1))).
Proof.
  intros E (F1 & F2 & F3).
  destruct (undo_after_push st u rest E) as (Hc & Hr & Hu).
  repeat split; auto. rewrite Hc. apply len_splice; assumption.
Qed.

Lemma redo_effect (st : state) (rest : list edit) (r : edit) :
  redo_stack st = Py.append rest r -> fits (Py.len (consensus st)) r ->
  consensus (redo st) = splice (consensus st) (e_start r) (e_end r) (e_data r)
  /\ Py.len (consensus (redo st)) = Py.len (consensus st)
  /\ redo_stack (redo st) = rest
  /\ undo_stack (redo st) =
       Py.append (undo_stack st)
         (mkEdit (e_start r) (e_end r)
                 (Py.slice (consensus st) (e_start r) (e_end r + 1))).
Proof.
  intros E (F1 & F2 & F3).
  assert (H : consensus (redo st)
              = splice (consensus st) (e_start r) (e_end r) (e_data r)
              /\ redo_stack (redo st) = rest
              /\ undo_stack (redo st) =
                 Py.append (undo_stack st)
                   (mkEdit (e_start r) (e_end r)
                      (Py.slice (consensus st) (e_start r) (e_end r + 1)))).
  { unfold redo. rewrite E, pop_append.
    repeat match goal with |- context [if ?c then _ else _] => destruct c end;
      simpl; auto. }
  destruct H as (Hc & Hr & Hu). repeat split; auto.
  rewrite Hc. apply len_splice; assumption.
Qed.

(** X9: the editor keeps its invariant.  From a state whose stack records
    all fit the consensus, an edit in range, [undo] and [redo] lead to such
    a state again, and none of them changes the length of the consensus. *)
Theorem editor_invariant (st : state) :
  well_formed st ->
  (forall o, in_range (Py.len (consensus st)) o ->
     exists st', run_op o st = Ok st' /\ well_formed st' /\
                 Py.len (consensus st') = Py.len (consensus st)) /\
  (well_formed (undo st) /\
   Py.len (consensus (undo st)) = Py.len (consensus st)) /\
  (well_formed (redo st) /\
   Py.len (consensus (redo st)) = Py.len (consensus st)).
Proof.
  intros (Wu & Wr). split; [|split].
  - intros o Ho.
    destruct (run_op_effect o st Ho)
      as (lo & hi & mid & st' & E & H1 & H2 & H3 & Hc & Hu & Hr).
    exists st'. split; [exact E|].
    assert (L : Py.len (consensus st') = Py.len (consensus st))
      by (rewrite Hc; now apply len_splice).
    split; [|exact L].
    unfold well_formed. rewrite L, Hu, Hr, Forall_append.
    repeat split; auto; simpl; try lia. rewrite len_slice_range; lia.
  - destruct (pop_cases (undo_stack st)) as [E | (rest & u & E)].
    + unfold undo. rewrite E. simpl. split; [split|]; auto.
    + rewrite E, Forall_append in Wu. destruct Wu as [Wrest Fu].
      destruct (undo_effect st rest u E Fu) as (Hc & L & Hu & Hr).
      split; [|exact L].
      unfold well_formed. rewrite L, Hu, Hr, Forall_append.
      split; [exact Wrest | split; [exact Wr | apply fits_slice; apply Fu]].
  - destruct (pop_cases (redo_stack st)) as [E | (rest & r & E)].
    + unfold redo. rewrite E. simpl. split; [split|]; auto.
    + rewrite E, Forall_append in Wr. destruct Wr as [Wrest Fr].
      destruct (redo_effect st rest r E Fr) as (Hc & L & Hr & Hu).
      split; [|exact L].
      unfold well_formed. rewrite L, Hu, Hr, Forall_append.
      split; [split; [exact Wu | apply fits_slice; apply Fr] | exact Wrest].
Qed.

Lemma editor_invariant_witness :
  let st := mkState (lit "ACGT") [mkEdit 0 1 (lit "NN")] [] [] in
  well_formed (undo st) /\
  exists st', run_op (Modify 3 2 (lit "TT")) st = Ok st' /\ well_formed st'.
Proof.
  intros st.
  assert (W : well_formed st).
  { split; repeat constructor; simpl; lia. }
  destruct (editor_invariant st W) as (Hop & (Hu & _) & _).
  split; [exact Hu|].
  destruct (Hop (Modify 3 2 (lit "TT"))) as (st' & E & W' & _).
  - simpl. repeat split; try lia; vm_compute; reflexivity.
  - exists st'. auto.
Defined.

(** X10: on a state that keeps the invariant, [redo] takes back an [undo]:
    the consensus and both stacks are as before the [undo]; and [undo] takes
    back a [redo] in the same way. *)
Theorem undo_redo_cancel (st : state) :
  well_formed st ->
  (undo_stack st <> [] ->
   consensus (redo (undo st)) = consensus st /\
   undo_stack (redo (undo st)) = undo_stack st /\
   redo_stack (redo (undo st)) = redo_stack st) /\
  (redo_stack st <> [] ->
   consensus (undo (redo st)) = consensus st /\
   undo_stack (undo (redo st)) = undo_stack st /\
   redo_stack (undo (redo st)) = redo_stack st).
Proof.
  intros (Wu & Wr). split; intros Hne.
  - destruct (pop_cases (undo_stack st)) as [E | (rest & u & E)];
      [contradiction|].
    rewrite E, Forall_append in Wu. destruct Wu as [_ Fu].
    destruct (undo_effect st rest u E Fu) as (Hc & L & Hu & Hr).
    pose proof Fu as (F1 & F2 & F3).
    destruct (redo_effect (undo st) (redo_stack st) _ Hr) as (Hc' & _ & Hr' & Hu').
    { rewrite L. now apply fits_slice. }
    simpl in Hc', Hu'.
    split; [|split].
    + rewrite Hc', Hc, splice_splice by assumption. now apply splice_same.
    + rewrite Hu', Hu, Hc, slice_splice, E by assumption. now destruct u.
    + exact Hr'.
  - destruct (pop_cases (redo_stack st)) as [E | (rest & r & E)];
      [contradiction|].
    rewrite E, Forall_append in Wr. destruct Wr as [_ Fr].
    destruct (redo_effect st rest r E Fr) as (Hc & L & Hr & Hu).
    pose proof Fr as (F1 & F2 & F3).
    destruct (undo_effect (redo st) (undo_stack st) _ Hu) as (Hc' & _ & Hu' & Hr').
    { rewrite L. now apply fits_slice. }
    simpl in Hc', Hr'.
    split; [|split].
    + rewrite Hc', Hc, splice_splice by assumption. now apply splice_same.
    + exact Hu'.
    + rewrite Hr', Hr, Hc, slice_splice, E by assumption. now destruct r.
Qed.

Lemma undo_redo_cancel_witness :
  let st := mkState (lit "A  T") [mkEdit 1 2 (lit "CG")] [] [] in
  consensus (redo (undo st)) = lit "A  T" /\
  undo_stack (redo (undo st)) = [mkEdit 1 2 (lit "CG")].
Proof.
  intros st.
  assert (W : well_formed st).
  { split; repeat constructor; simpl; lia. }
  destruct (undo_redo_cancel st W) as [H _].
  destruct H as (Hc & Hu & _); [discriminate|].
  split; [exact Hc | exact Hu].
Defined.

(** *** Unlimited undo *)

Lemma undo_same_core (st1 st2 : state) :
  consensus st1 = consensus st2 -> undo_stack st1 = undo_stack st2 ->
  consensus (undo st1) = consensus (undo st2) /\
  undo_stack (undo st1) = undo_stack (undo st2).
Proof.
  intros Ec Eu. unfold undo. rewrite Eu, Ec.
  destruct (Py.pop (undo_stack st2)) as [[rest u]|]; [|auto].
  repeat match goal with |- context [if ?c then _ else _] => destruct c end;
    simpl; auto.
Qed.

Lemma op_then_undo (o : op) (st : state) :
  in_range (Py.len (consensus st)) o ->
  exists st', run_op o st = Ok st' /\
    Py.len (consensus st') = Py.len (consensus st) /\
    consensus (undo st') = consensus st /\
    undo_stack (undo st') = undo_stack st.
Proof.
  intros Ho.
  destruct (run_op_effect o st Ho)
    as (lo & hi & mid & st' & E & H1 & H2 & H3 & Hc & Hu & Hr).
  exists st'. split; [exact E|].
  assert (L : Py.len (consensus st') = Py.len (consensus st))
    by (rewrite Hc; now apply len_splice).
  split; [exact L|].
  destruct (undo_effect st' _ _ Hu) as (Hc' & _ & Hu' & _).
  { rewrite L. now apply fits_slice. }
  simpl in Hc'. split; [|exact Hu'].
  rewrite Hc', Hc, splice_splice by assumption. now apply splice_same.
Qed.

(** X11: undo is unlimited.  After any list of edits in range, as many
    calls of [undo] as there were edits give back the consensus and the undo
    stack of the start. *)
Theorem undo_all_edits (os : list op) (st : state) :
  Forall (in_range (Py.len (consensus st))) os ->
  exists st',
    run_ops os st = Ok st' /\
    Py.len (consensus st') = Py.len (consensus st) /\
    consensus (Nat.iter (length os) undo st') = consensus st /\
    undo_stack (Nat.iter (length os) undo st') = undo_stack st.
Proof.
  revert st. induction os as [|o os IH]; intros st Hos.
  - exists st. simpl. auto.
  - inversion Hos as [|? ? Ho Hrest]; subst.
    destruct (op_then_undo o st Ho) as (st1 & E1 & L1 & Hc1 & Hu1).
    rewrite <- L1 in Hrest.
    destruct (IH st1 Hrest) as (st' & E' & L' & Hc' & Hu').
    exists st'. simpl. rewrite E1. simpl.
    split; [exact E'|]. split; [congruence|].
    destruct (undo_same_core _ _ Hc' Hu') as [Gc Gu].
    rewrite Gc, Gu. auto.
Qed.

Lemma undo_all_edits_witness :
  exists st',
    run_ops [Delete 0 1; Modify 3 2 (lit "AA"); Delete 1 1]
            (mkState (lit "ACGT") [] [] []) = Ok st' /\
    consensus (Nat.iter 3 undo st') = lit "ACGT".
Proof.
  destruct (undo_all_edits [Delete 0 1; Modify 3 2 (lit "AA"); Delete 1 1]
              (mkState (lit "ACGT") [] [] []))
    as (st' & E & _ & Hc & _).
  - repeat constructor; simpl; try lia; vm_compute; reflexivity.
  - exists st'. split; [exact E | exact Hc].
Defined.

End EditingMore.

(** ** Editing without bounds *)

Section EditingBounds.
Import Editable.

(** X12: [deleteBases] checks no bound.  With the start inside the string
    and the end at or past its length, the tail is blanked and the consensus
    grows to [end + 1] characters. *)
Theorem deleteBases_past_the_end (a b : Z) (st : state) :
  0 <= a <= Py.len (consensus st) -> Py.len (consensus st) <= b ->
  consensus (deleteBases a b st)
  = Py.slice (consensus st) 0 a ++ Py.spaces (b - a + 1) /\
  Py.len (consensus (deleteBases a b st)) = b + 1.
Proof.
  intros Ha Hb.
  assert (E : consensus (deleteBases a b st)
              = Py.slice (consensus st) 0 a ++ Py.spaces (b - a + 1)).
  { unfold deleteBases, ordered.
    destruct (Z.gtb_spec a b); [lia|].
    assert (T : Py.slice_from (consensus st) (b + 1) = []).
    { unfold Py.slice_from, Py.clip.
      destruct (Z.ltb_spec (b + 1) 0); [lia|].
      apply skipn_all2. unfold Py.len in *. lia. }
    destruct (_ =? 1); simpl; unfold splice; rewrite T, app_nil_r;
      reflexivity. }
  split; [exact E|].
  rewrite E, len_app, len_slice_prefix, len_spaces by lia. lia.
Qed.

Lemma deleteBases_past_the_end_witness :
  consensus (deleteBases 2 5 (mkState (lit "ACG") [] [] [])) = lit "AC    ".
Proof.
  destruct (deleteBases_past_the_end 2 5 (mkState (lit "ACG") [] [] []))
    as [E _]; [vm_compute; split; discriminate | vm_compute; discriminate |].
  exact E.
Defined.

End EditingBounds.

(** ** The accessors of a builder *)

Section Accessors.
Import Builder BuilderObject.

Lemma index_range (n i : Z) :
  0 <= i < n -> Py.index (Py.range n) i = Ok i.
Proof.
  intros H. unfold Py.range.
  rewrite <- (Z2Nat.id i) at 1 by lia.
  rewrite <- (Z2Nat.id i) at 2 by lia.
  apply index_nth_error.
  rewrite nth_error_map, nth_error_seq.
  destruct (Nat.ltb_spec (Z.to_nat i) (Z.to_nat n)); [reflexivity | lia].
Qed.

Lemma firstn_plus {A : Type} (n m : nat) (l : list A) :
  firstn (n + m) l = firstn n l ++ firstn m (skipn n l).
Proof.
  revert l. induction n as [|n IH]; intros l; [reflexivity|].
  destruct l as [|x l]; simpl.
  - now rewrite firstn_nil.
  - now rewrite IH.
Qed.

(** A negative index counts from the end. *)
Lemma index_from_end {A : Type} (l : list A) (i : Z) :
  i < 0 -> 0 <= i + Py.len l -> Py.index l i = Py.index l (i + Py.len l).
Proof.
  intros Hi Hl. unfold Py.index.
  assert (E1 : (i <? 0) = true) by (apply Z.ltb_lt; lia).
  assert (E2 : (i + Py.len l <? 0) = false) by (apply Z.ltb_ge; lia).
  rewrite E1, E2. cbv beta iota zeta. rewrite E2. reflexivity.
Qed.

Lemma len_range (n : Z) : 0 <= n -> Py.len (Py.range n) = n.
Proof.
  intros H. unfold Py.len, Py.range. rewrite length_map, length_seq. lia.
Qed.

(** X13: for a builder made from one trace, column [i] of the alignment is
    index [i] of the trace; an index from the end counts back from the
    length, an index outside raises [IndexError], and any sequence number
    but 0 raises the builder's error. *)
Theorem single_trace_index_map (t : trace) (st : Settings.state)
    (c : str) (conf : list R) (seqnum i : Z) :
  let o := mkObject 1 st (init_single t) c conf in
  let n := Py.len (getBaseCalls t) in
  (seqnum <> 0 -> getActualSeqIndex seqnum i o = Raise ConsensSeqBuilderError)
  /\ (0 <= i < n -> getActualSeqIndex 0 i o = Ok i)
  /\ (- n <= i < 0 -> getActualSeqIndex 0 i o = Ok (i + n))
  /\ (i < - n \/ n <= i -> getActualSeqIndex 0 i o = Raise IndexError).
Proof.
  intros o n. unfold getActualSeqIndex, invalid_sequence_number. simpl.
  assert (Hn : 0 <= n) by apply len_nonneg.
  change (Py.len (getBaseCalls t)) with n. clearbody n. clear o.
  split; [|split; [|split]].
  - intros H. destruct (Z.ltb_spec seqnum 0); [reflexivity|].
    destruct (Z.geb_spec seqnum 1); [reflexivity | lia].
  - intros H. now apply index_range.
  - intros H. rewrite index_from_end by (rewrite ?len_range; lia).
    rewrite len_range by lia. apply index_range. lia.
  - intros H. unfold Py.index. rewrite len_range by lia.
    destruct (Z.ltb_spec i 0).
    + destruct (Z.ltb_spec (i + n) 0); [reflexivity | lia].
    + destruct (Z.ltb_spec i 0); [lia|].
      destruct (Z.leb_spec n i); [reflexivity | lia].
Qed.

Lemma single_trace_index_map_witness :
  let o := mkObject 1 Settings.init
             (init_single (mkTrace (lit "ACG") (fun _ => 40))) [] [] in
  getActualSeqIndex 0 2 o = Ok 2 /\
  getActualSeqIndex 0 (-1) o = Ok 2 /\
  getActualSeqIndex 0 3 o = Raise IndexError /\
  getActualSeqIndex 1 0 o = Raise ConsensSeqBuilderError.
Proof.
  intros o.
  destruct (single_trace_index_map (mkTrace (lit "ACG") (fun _ => 40))
              Settings.init [] [] 0 2) as (_ & H2 & _).
  destruct (single_trace_index_map (mkTrace (lit "ACG") (fun _ => 40))
              Settings.init [] [] 0 (-1)) as (_ & _ & H3 & _).
  destruct (single_trace_index_map (mkTrace (lit "ACG") (fun _ => 40))
              Settings.init [] [] 0 3) as (_ & _ & _ & H4).
  destruct (single_trace_index_map (mkTrace (lit "ACG") (fun _ => 40))
              Settings.init [] [] 1 0) as (H1 & _).
  split; [apply H2; vm_compute; split; [discriminate | reflexivity]|].
  split; [apply H3; vm_compute; split; [discriminate | reflexivity]|].
  split; [apply H4; right; vm_compute; discriminate|].
  apply H1. discriminate.
Defined.

(** X14: [getConsensus] reads closed ranges, and its end index -1 stands
    for the last position: with the defaults it returns the whole consensus,
    two adjacent ranges read as one, and a range whose end is given as -1
    reads to the end of the string, never to position -1. *)
Theorem getConsensus_ranges (o : object) (a b c : Z) :
  getConsensus 0 (-1) o = consensus o /\
  getConsensus a (-1) o = getConsensus a (Py.len (consensus o) - 1) o /\
  (0 <= a <= b + 1 -> b <= c -> c < Py.len (consensus o) -> b <> -1 ->
   c <> -1 ->
   getConsensus a b o ++ getConsensus (b + 1) c o = getConsensus a c o).
Proof.
  unfold getConsensus. simpl. split; [|split].
  - rewrite slice_prefix by (pose proof (len_nonneg (consensus o)); lia).
    replace (Py.len (consensus o) - 1 + 1) with (Py.len (consensus o)) by lia.
    unfold Py.len. rewrite Nat2Z.id. apply firstn_all.
  - destruct (Z.eqb_spec (Py.len (consensus o) - 1) (-1)); reflexivity.
  - intros Ha Hb Hc Nb Nc.
    destruct (Z.eqb_spec b (-1)); [contradiction|].
    destruct (Z.eqb_spec c (-1)); [contradiction|].
    rewrite !slice_range by lia.
    replace (Z.to_nat (b + 1)) with (Z.to_nat (b + 1 - a) + Z.to_nat a)%nat
      by lia.
    rewrite <- skipn_skipn.
    replace (Z.to_nat (c + 1 - a))
      with (Z.to_nat (b + 1 - a) + Z.to_nat (c + 1 - (b + 1)))%nat by lia.
    rewrite firstn_plus. reflexivity.
Qed.

Lemma getConsensus_ranges_witness :
  let o := mkObject 1 Settings.init
             (init_single (mkTrace (lit "ACGT") (fun _ => 40)))
             (lit "ACGT") [] in
  getConsensus 0 1 o ++ getConsensus 2 3 o = getConsensus 0 3 o.
Proof.
  intros o.
  destruct (getConsensus_ranges o 0 1 3) as (_ & _ & H).
  apply H; try lia; vm_compute; reflexivity.
Defined.

End Accessors.

(** ** The compact consensus *)

Section Compact.
Import Builder BuilderObject.

Lemma compact_spaces (n : Z) :
  filter (fun c => negb (Ascii.eqb c Py.space)) (Py.spaces n) = [].
Proof.
  unfold Py.spaces, Py.times.
  induction (Z.to_nat n) as [|k IH]; simpl; auto.
Qed.

(** X15: bases deleted in the editor are absent from the compact consensus:
    after [deleteBases] on a range in order, the compact consensus is the
    one of the string with the range cut out. *)
Theorem compact_after_delete (o : object) (st : Editable.state) (a b : Z) :
  a <= b ->
  getCompactConsensus
    (set_consensus (Editable.consensus (Editable.deleteBases a b st)) o)
  = getCompactConsensus
      (set_consensus
         (Py.slice (Editable.consensus st) 0 a
          ++ Py.slice_from (Editable.consensus st) (b + 1)) o).
Proof.
  intros Hab. unfold getCompactConsensus. simpl.
  assert (E : Editable.consensus (Editable.deleteBases a b st)
              = Editable.splice (Editable.consensus st) a b
                  (Py.spaces (b - a + 1))).
  { unfold Editable.deleteBases, Editable.ordered.
    destruct (Z.gtb_spec a b); [lia|]. destruct (_ =? 1); reflexivity. }
  rewrite E. unfold Editable.splice.
  now rewrite !filter_app, compact_spaces.
Qed.

Lemma compact_after_delete_witness :
  getCompactConsensus
    (set_consensus
       (Editable.consensus
          (Editable.deleteBases 1 2
             (Editable.mkState (lit "AC GT") [] [] [])))
       (mkObject 1 Settings.init
          (init_single (mkTrace (lit "ACGGT") (fun _ => 40))) [] []))
  = lit "AGT".
Proof.
  rewrite (compact_after_delete _ _ 1 2); [reflexivity | lia].
Defined.

End Compact.

(** ** The order of the two traces *)

Section Symmetry.
Import Builder.

Lemma legacy_base_sym (m : Z) (c1 c2 : ascii) (s1 s2 : Z) :
  legacy_base m c1 s1 c2 s2 = legacy_base m c2 s2 c1 s1.
Proof.
  unfold legacy_base.
  destruct (m <=? s1), (m <=? s2); try reflexivity.
  rewrite (Ascii.eqb_sym c2 c1).
  destruct (Ascii.eqb_spec c1 c2); congruence.
Qed.

(** X16: legacy mode does not depend on the order of the two traces:
    swapping them gives the same consensus and the same scores. *)
Theorem legacy_consensus_symmetric (b : builder) (min_confscore : Z) :
  -1 < min_confscore ->
  length (seq2aligned b) = length (seq1aligned b) ->
  length (seq1indexed b) = length (seq1aligned b) ->
  length (seq2indexed b) = length (seq1aligned b) ->
  makeLegacyConsensus min_confscore (swapped b)
  = makeLegacyConsensus min_confscore b.
Proof.
  intros Hmin H2 H3 H4.
  destruct (makeLegacyConsensus_done b min_confscore Hmin H2 H3 H4)
    as (v & E & L1 & L2 & Hcols).
  destruct (makeLegacyConsensus_done (swapped b) min_confscore Hmin)
    as (v' & E' & L1' & L2' & Hcols'); simpl; try congruence.
  simpl in L1', L2', Hcols'.
  rewrite E, E'. f_equal.
  assert (G : forall j,
             nth_error (l_cons v') j = nth_error (l_cons v) j /\
             nth_error (l_consconf v') j = nth_error (l_consconf v) j).
  { intros j. destruct (Nat.lt_ge_cases j (length (seq1aligned b))) as [Hj|Hj].
    - destruct (nth_error (seq1aligned b) j) as [c1|] eqn:E1;
        [|apply nth_error_None in E1; lia].
      destruct (nth_error (seq2aligned b) j) as [c2|] eqn:E2;
        [|apply nth_error_None in E2; lia].
      destruct (nth_error (seq1indexed b) j) as [i1|] eqn:E3;
        [|apply nth_error_None in E3; lia].
      destruct (nth_error (seq2indexed b) j) as [i2|] eqn:E4;
        [|apply nth_error_None in E4; lia].
      destruct (Hcols j c1 c2 i1 i2 Hj E1 E2 E3 E4) as [A1 A2].
      destruct (Hcols' j c2 c1 i2 i1) as [B1 B2]; try assumption; try lia.
      cbv zeta in *. rewrite A1, A2, B1, B2, Z.max_comm.
      now rewrite legacy_base_sym.
    - split.
      + transitivity (@None ascii); [|symmetry]; apply nth_error_None; lia.
      + transitivity (@None Z); [|symmetry]; apply nth_error_None; lia. }
  f_equal; apply nth_error_ext; intros j; apply G.
Qed.

Lemma legacy_consensus_symmetric_witness :
  let b := mkBuilder (mkTrace (lit "ACG") (fun i => 10 * (i + 1)))
                     (mkTrace (lit "AG") (fun i => 25 + i))
                     (lit "ACG") (lit "A-G") [0; 1; 2] [0; -1; 1] in
  makeLegacyConsensus 20 (swapped b) = makeLegacyConsensus 20 b.
Proof.
  intros b.
  apply (legacy_consensus_symmetric b 20); [lia | reflexivity ..].
Defined.

End Symmetry.

Section BayesSymmetry.
Import Builder.
Local Open Scope R_scope.

Lemma posterior_sym (c1 c2 : ascii) (s1 s2 : Z) (x : ascii) :
  posterior c2 s2 c1 s1 x = posterior c1 s1 c2 s2 x.
Proof.
  unfold posterior, evidence, joint. f_equal; [ring|]. ring.
Qed.

Lemma rank_injective (x y : ascii) :
  In x bases -> In y bases -> rank x = rank y -> x = y.
Proof.
  unfold bases. simpl.
  intros [<-|[<-|[<-|[<-|[]]]]] [<-|[<-|[<-|[<-|[]]]]];
    vm_compute; congruence.
Qed.

(** The most probable base is determined by the distribution. *)
Lemma most_probable_unique (p q : ascii -> R) (x y : ascii) :
  (forall z, In z bases -> p z = q z) ->
  most_probable p x -> most_probable q y -> x = y.
Proof.
  intros Hpq (Hx & Mx & Tx) (Hy & My & Ty).
  destruct (Nat.lt_total (rank x) (rank y)) as [H|[H|H]].
  - specialize (Ty x Hx H). specialize (Mx y Hy).
    rewrite <- !Hpq in Ty by assumption. lra.
  - now apply rank_injective.
  - specialize (Tx y Hy H). specialize (My x Hx).
    rewrite <- !Hpq in My by assumption. lra.
Qed.

Lemma bayes_column_sym (m : Z) (c1 c2 : ascii) (s1 s2 : Z)
    (base base' : ascii) (score score' : R) :
  bayes_column m c1 s1 c2 s2 base score ->
  bayes_column m c2 s2 c1 s1 base' score' ->
  base' = base /\ score' = score.
Proof.
  intros (cb & Lo & Hi & H00 & H10 & H01 & H11)
         (cb' & Lo' & Hi' & H00' & H10' & H01' & H11').
  assert (E : cb' = cb /\ score' = score).
  { destruct (usable c1) eqn:U1, (usable c2) eqn:U2.
    - destruct (H11 eq_refl eq_refl) as [M S].
      destruct (H11' eq_refl eq_refl) as [M' S'].
      assert (cb' = cb).
      { eapply most_probable_unique; [|exact M'|exact M].
        intros z _. apply posterior_sym. }
      subst cb'. split; [reflexivity|].
      rewrite S, S'. now rewrite posterior_sym.
    - destruct (H10 eq_refl eq_refl). destruct (H01' eq_refl eq_refl).
      split; congruence.
    - destruct (H01 eq_refl eq_refl). destruct (H10' eq_refl eq_refl).
      split; congruence.
    - destruct (H00 eq_refl eq_refl). destruct (H00' eq_refl eq_refl).
      split; congruence. }
  destruct E as [-> ->]. split; [|reflexivity].
  destruct (Rlt_le_dec score (IZR m)) as [H|H].
  - rewrite (Lo H), (Lo' H). reflexivity.
  - rewrite (Hi H), (Hi' H). reflexivity.
Qed.

(** X17: Bayesian mode does not depend on the order of the two traces
    either: prior and likelihood trade places, and the consensus and the
    scores are the same. *)
Theorem bayesian_consensus_symmetric (b : builder) (min_confscore : Z) :
  length (seq2aligned b) = length (seq1aligned b) ->
  length (seq1indexed b) = length (seq1aligned b) ->
  length (seq2indexed b) = length (seq1aligned b) ->
  (forall i, (0 <= getBaseCallConf (seqt1 b) i)%Z) ->
  (forall i, (0 <= getBaseCallConf (seqt2 b) i)%Z) ->
  makeBayesianConsensus min_confscore (swapped b)
  = makeBayesianConsensus min_confscore b.
Proof.
  intros H2 H3 H4 H5 H6.
  destruct (makeBayesianConsensus_done b min_confscore H2 H3 H4 H5 H6)
    as (v & E & L1 & L2 & Hcols).
  destruct (makeBayesianConsensus_done (swapped b) min_confscore)
    as (v' & E' & L1' & L2' & Hcols'); simpl; try congruence; auto.
  simpl in L1', L2', Hcols'.
  rewrite E, E'. f_equal.
  assert (G : forall j,
             nth_error (b_cons v') j = nth_error (b_cons v) j /\
             nth_error (b_consconf v') j = nth_error (b_consconf v) j).
  { intros j. destruct (Nat.lt_ge_cases j (length (seq1aligned b))) as [Hj|Hj].
    - destruct (nth_error (seq1aligned b) j) as [c1|] eqn:E1;
        [|apply nth_error_None in E1; lia].
      destruct (nth_error (seq2aligned b) j) as [c2|] eqn:E2;
        [|apply nth_error_None in E2; lia].
      destruct (nth_error (seq1indexed b) j) as [i1|] eqn:E3;
        [|apply nth_error_None in E3; lia].
      destruct (nth_error (seq2indexed b) j) as [i2|] eqn:E4;
        [|apply nth_error_None in E4; lia].
      destruct (Hcols j c1 c2 i1 i2 Hj E1 E2 E3 E4)
        as (base & score & A1 & A2 & A3).
      destruct (Hcols' j c2 c1 i2 i1) as (base' & score' & B1 & B2 & B3);
        try assumption; try lia.
      destruct (bayes_column_sym _ _ _ _ _ _ _ _ _ A3 B3) as [-> ->].
      rewrite A1, A2, B1, B2. auto.
    - split.
      + transitivity (@None ascii); [|symmetry]; apply nth_error_None; lia.
      + transitivity (@None R); [|symmetry]; apply nth_error_None; lia. }
  f_equal; apply nth_error_ext; intros j; apply G.
Qed.

Lemma bayesian_consensus_symmetric_witness :
  let b := mkBuilder (mkTrace (lit "AC") (fun _ => 40%Z))
                     (mkTrace (lit "AG") (fun _ => 35%Z))
                     (lit "AC") (lit "AG") [0; 1]%Z [0; 1]%Z in
  makeBayesianConsensus 30 (swapped b) = makeBayesianConsensus 30 b.
Proof.
  intros b.
  apply (bayesian_consensus_symmetric b 30);
    [reflexivity | reflexivity | reflexivity
    | intros i; simpl; lia | intros i; simpl; lia].
Defined.

End BayesSymmetry.

(** ** Agreement and conflict of two calls *)

Section TwoCalls.
Import Builder.
Local Open Scope R_scope.

(** In terms of the joint weights, without the division. *)
Lemma most_probable_joint (b1 b2 : ascii) (s1 s2 : Z) (cb x : ascii) :
  (0 <= s1)%Z -> (0 <= s2)%Z ->
  most_probable (posterior b1 s1 b2 s2) cb -> In x bases ->
  joint b1 s1 b2 s2 x <= joint b1 s1 b2 s2 cb.
Proof.
  intros H1 H2 (_ & Hmax & _) Hx.
  pose proof (evidence_pos b1 b2 s1 s2 H1 H2) as D.
  specialize (Hmax x Hx). unfold posterior in Hmax.
  apply Rmult_le_reg_r with (/ evidence b1 s1 b2 s2); [|exact Hmax].
  now apply Rinv_0_lt_compat.
Qed.

(** X18: two concordant calls of one score between 2 and 61 have the called
    base as consensus; two concordant calls of score 1 do not: each says the
    base is more likely wrong than right, and another base wins. *)
Theorem bayes_concordant_base (base : ascii) (s : Z) (d0 : dict) :
  In base bases -> (1 <= s <= 61)%Z ->
  exists d cbase cscore,
    calcPosteriorBasePrDist base s base s d0 = Ok d /\
    getMostProbableBase d = Ok (cbase, cscore) /\
    ((2 <= s)%Z -> cbase = base) /\
    (s = 1%Z -> cbase <> base).
Proof.
  intros Hbase [Hs1 Hs61].
  assert (Hs0 : (0 <= s)%Z) by lia.
  destruct (bayes_both_usable base base s s Hs0 Hs0 d0)
    as (d & cb & Ed & Eg & Hm).
  exists d, cb, (phred (posterior base s base s cb)).
  split; [exact Ed|]. split; [exact Eg|].
  assert (Hcb : In cb bases) by apply Hm.
  pose proof (error_prob_pos s) as E0.
  split.
  - intros Hs2. pose proof (error_prob_from_2 s Hs2) as E34.
    destruct (Ascii.eqb_spec cb base) as [|Hne]; [assumption|]. exfalso.
    pose proof (most_probable_joint base base s s cb base Hs0 Hs0 Hm Hbase)
      as J.
    rewrite concordant_joint_called, (concordant_joint_other base s cb Hne)
      in J.
    assert (P : 0 < (3 / 4 - error_prob s) * (1 - 2 / 3 * error_prob s))
      by (apply Rmult_lt_0_compat; lra).
    nra.
  - intros -> Hcbb. subst cb.
    destruct (free_base base base base Hbase) as (y & Hy & Hyb & _).
    pose proof (most_probable_joint base base 1 1 base y Hs0 Hs0 Hm Hy) as J.
    rewrite concordant_joint_called, (concordant_joint_other base 1 y Hyb)
      in J.
    pose proof error_prob_1 as [Lo Hi].
    assert (P : 0 < (error_prob 1 - 3 / 4) * (1 - 2 / 3 * error_prob 1))
      by (apply Rmult_lt_0_compat; lra).
    nra.
Qed.

Lemma bayes_concordant_base_witness :
  exists d cbase cscore,
    calcPosteriorBasePrDist "C" 1 "C" 1 zero_dist = Ok d /\
    getMostProbableBase d = Ok (cbase, cscore) /\
    cbase <> "C"%char.
Proof.
  destruct (bayes_concordant_base "C" 1 zero_dist)
    as (d & cb & sc & E1 & E2 & _ & H); [simpl; tauto | lia |].
  exists d, cb, sc. auto.
Defined.

(** Two discordant calls of one score: no base gets more than half. *)
Lemma discordant_half (b1 b2 : ascii) (s : Z) (x : ascii) :
  In b1 bases -> In b2 bases -> b1 <> b2 -> (0 <= s)%Z -> In x bases ->
  2 * joint b1 s b2 s x <= evidence b1 s b2 s.
Proof.
  intros H1 H2 Hne Hs Hx.
  pose proof (error_prob_pos s) as E0.
  pose proof (error_prob_le_1 s Hs) as E1.
  unfold evidence, joint, call_dist.
  generalize dependent (error_prob s). intros e E0 E1.
  simpl in H1, H2, Hx.
  destruct H1 as [<-|[<-|[<-|[<-|[]]]]];
    destruct H2 as [<-|[<-|[<-|[<-|[]]]]]; try congruence;
    destruct Hx as [<-|[<-|[<-|[<-|[]]]]]; simpl; nra.
Qed.

Lemma ln_2_bound : 20 * ln 2 < 7 * ln 10.
Proof.
  assert (H : ln (2 ^ 20) < ln (10 ^ 7)).
  { apply ln_increasing; [apply pow_lt; lra|]. simpl. lra. }
  rewrite !ln_pow in H by lra. simpl INR in H. lra.
Qed.

(** X19: two discordant calls of one and the same score never make a
    confident consensus: for every score between 0 and 61, the Bayesian
    score of the column stays below 4. *)
Theorem bayes_discordant_equal_scores (b1 b2 : ascii) (s : Z) (d0 : dict) :
  In b1 bases -> In b2 bases -> b1 <> b2 -> (0 <= s <= 61)%Z ->
  exists d cbase cscore,
    calcPosteriorBasePrDist b1 s b2 s d0 = Ok d /\
    getMostProbableBase d = Ok (cbase, cscore) /\
    cscore < 4.
Proof.
  intros H1 H2 Hne [Hs0 Hs61].
  destruct (bayes_both_usable b1 b2 s s Hs0 Hs0 d0)
    as (d & cb & Ed & Eg & Hm).
  exists d, cb, (phred (posterior b1 s b2 s cb)).
  split; [exact Ed|]. split; [exact Eg|].
  assert (Hcb : In cb bases) by apply Hm.
  pose proof (evidence_pos b1 b2 s s Hs0 Hs0) as D.
  pose proof (most_probable_pos b1 b2 s s Hs0 Hs0 cb Hm) as Ppos.
  pose proof (discordant_half b1 b2 s cb H1 H2 Hne Hs0 Hcb) as Half.
  assert (Hp : posterior b1 s b2 s cb <= 1 / 2).
  { unfold posterior.
    apply Rmult_le_reg_r with (evidence b1 s b2 s); [exact D|].
    replace (joint b1 s b2 s cb / evidence b1 s b2 s * evidence b1 s b2 s)
      with (joint b1 s b2 s cb) by (field; lra).
    lra. }
  unfold phred.
  destruct (Req_dec_T (posterior b1 s b2 s cb) 0) as [Hz|_]; [lra|].
  assert (Hln : - ln 2 <= ln (1 - posterior b1 s b2 s cb)).
  { rewrite <- ln_Rinv by lra. apply ln_monotone; lra. }
  pose proof ln_10_pos as L10. pose proof ln_2_bound as L2.
  assert (Hq : - (7 / 20) <= ln (1 - posterior b1 s b2 s cb) / ln 10).
  { apply Rmult_le_reg_r with (ln 10); [exact L10|].
    replace (ln (1 - posterior b1 s b2 s cb) / ln 10 * ln 10)
      with (ln (1 - posterior b1 s b2 s cb)) by (field; lra).
    lra. }
  lra.
Qed.

Lemma bayes_discordant_equal_scores_witness :
  exists d cbase cscore,
    calcPosteriorBasePrDist "A" 50 "G" 50 zero_dist = Ok d /\
    getMostProbableBase d = Ok (cbase, cscore) /\
    cscore < 4.
Proof.
  apply (bayes_discordant_equal_scores "A" "G" 50 zero_dist);
    [simpl; tauto | simpl; tauto | discriminate | lia].
Defined.

End TwoCalls.

(** ** Quality trimming: what the cutoffs are *)

Section WindowSums.

Lemma sum_from (l : list Z) (a : Z) : fold_left Z.add l a = a + Py.sum l.
Proof.
  unfold Py.sum. revert a. induction l as [|x l IH]; intros a; simpl; [lia|].
  rewrite (IH (a + x)), (IH x). lia.
Qed.

Lemma sum_cons (x : Z) (l : list Z) : Py.sum (x :: l) = x + Py.sum l.
Proof. unfold Py.sum at 1. simpl. apply sum_from. Qed.

(** Dropping the first element of a window and taking in the next one. *)
Lemma sum_shift (w : nat) (y x : Z) (rest : list Z) :
  nth_error (y :: rest) w = Some x ->
  Py.sum (firstn w rest) + y = Py.sum (firstn w (y :: rest)) + x.
Proof.
  revert y rest. induction w as [|w IH]; intros y rest H.
  - simpl in H. injection H as <-. simpl. lia.
  - destruct rest as [|z rest]; [destruct w; discriminate|].
    simpl in H. cbn [firstn]. rewrite !sum_cons.
    pose proof (IH z rest H). lia.
Qed.

Lemma sum_slide (cv : list Z) (i w : Z) :
  0 <= i -> 0 <= w -> i + w < Py.len cv ->
  exists x y,
    Py.index cv (i + w) = Ok x /\ Py.index cv i = Ok y /\
    Py.sum (Py.slice cv (i + 1) (i + 1 + w))
    = Py.sum (Py.slice cv i (i + w)) + x - y.
Proof.
  intros Hi Hw Hn.
  destruct (index_in_range cv (i + w)) as (x & Ex & Nx); [lia|].
  destruct (index_in_range cv i) as (y & Ey & Ny); [lia|].
  exists x, y. split; [exact Ex|]. split; [exact Ey|].
  rewrite !slice_range by lia.
  replace (i + 1 + w - (i + 1)) with w by lia.
  replace (i + w - i) with w by lia.
  assert (S : skipn (Z.to_nat i) cv = y :: skipn (Z.to_nat (i + 1)) cv).
  { replace (Z.to_nat (i + 1)) with (Datatypes.S (Z.to_nat i)) by lia.
    clear - Ny. revert cv Ny.
    induction (Z.to_nat i) as [|k IH]; intros [|a cv] H; try discriminate.
    - simpl in H. injection H as <-. reflexivity.
    - simpl in H. simpl. now apply IH. }
  rewrite S.
  assert (X : nth_error (y :: skipn (Z.to_nat (i + 1)) cv) (Z.to_nat w)
              = Some x).
  { rewrite <- S, nth_error_skipn, <- Nx. f_equal. lia. }
  pose proof (sum_shift _ _ _ _ X). lia.
Qed.

End WindowSums.

Section CutoffMeaning.
Import Builder.
Variables (winsize basecnt : Z) (s : str) (cv : list Z).
Hypothesis Hcv : consvals_of s = Ok cv.
Hypothesis Hlen : length cv = length s.
Hypothesis Hwin : 0 <= winsize <= Py.len s.

Lemma window_slide (i : Z) :
  0 <= i -> i + winsize < Py.len s ->
  exists x y,
    Py.index cv (i + winsize) = Ok x /\ Py.index cv i = Ok y /\
    window winsize cv (i + 1) = window winsize cv i + x - y.
Proof.
  intros Hi Hn. unfold window.
  apply sum_slide; try lia. unfold Py.len in *. lia.
Qed.

(** The left loop stops at the first window with enough good bases, or at
    the last window; the right loop stops at the end of the last such window
    that starts at or after the left cutoff, or at the end of the window of
    the left cutoff. *)
Lemma trimCutoffs_windows :
  exists l r g,
    trimCutoffs winsize basecnt s = Ok (l, r, g) /\
    0 <= l /\ l + winsize <= Py.len s /\
    (forall j, 0 <= j < l -> window winsize cv j < basecnt) /\
    (l + winsize < Py.len s -> basecnt <= window winsize cv l) /\
    l + winsize - 1 <= r /\ r <= Py.len s - 1 /\
    (forall j, r < j <= Py.len s - 1 -> window winsize cv (j - winsize + 1) < basecnt) /\
    (l + winsize - 1 < r -> basecnt <= window winsize cv (r - winsize + 1)) /\
    g = window winsize cv (r - winsize + 1).
Proof.
  unfold trimCutoffs. rewrite Hcv. cbn [rbind].
  set (n := Py.len s) in *.
  assert (Hn : n = Z.of_nat (length s)) by reflexivity.
  destruct (while_rule
    (fun '(index, num_good) =>
       (num_good <? basecnt) && (index + winsize <? n))
    (slide_right cv winsize)
    (fun '(index, g) =>
       0 <= index /\ index + winsize <= n /\ g = window winsize cv index /\
       forall j, 0 <= j < index -> window winsize cv j < basecnt)
    (fun '(index, _) => Z.to_nat (n - winsize - index)))
    with (fuel := Datatypes.S (Datatypes.S (length s)))
         (s := (0, Py.sum (Py.slice cv 0 winsize)))
    as ([l g1] & E1 & (Hl0 & Hl1 & Hg1 & Hbad1) & C1).
  { intros [i g] (Hi0 & Hi1 & Hg & Hbad) C.
    apply andb_prop in C. destruct C as [C0 C]. apply Z.ltb_lt in C, C0.
    destruct (window_slide i) as (x & y & Ex & Ey & Hsl); [lia | lia |].
    unfold slide_right. rewrite Ex, Ey. cbn [rbind].
    eexists. split; [reflexivity|]. repeat split; try lia.
    intros j Hj. destruct (Z.eq_dec j i) as [->|]; [lia|]. apply Hbad. lia. }
  { repeat split; try lia. }
  { lia. }
  rewrite E1. cbn [rbind].
  assert (Hgood1 : l + winsize < n -> basecnt <= window winsize cv l).
  { intros H. apply andb_false_elim in C1. destruct C1 as [C|C].
    - apply Z.ltb_ge in C. lia.
    - apply Z.ltb_ge in C. lia. }
  destruct (while_rule
    (fun '(index, num_good) =>
       (num_good <? basecnt) && (index - winsize >=? l))
    (slide_left cv winsize)
    (fun '(index, g) =>
       l + winsize - 1 <= index /\ index <= n - 1 /\
       g = window winsize cv (index - winsize + 1) /\
       forall j, index < j <= n - 1 -> window winsize cv (j - winsize + 1) < basecnt)
    (fun '(index, _) => Z.to_nat (index - winsize - l + 1)))
    with (fuel := Datatypes.S (Datatypes.S (length s)))
         (s := (n - 1, Py.sum (Py.slice cv (Py.len cv - winsize) (Py.len cv))))
    as ([r g2] & E2 & (Hr0 & Hr1 & Hg2 & Hbad2) & C2).
  { intros [i g] (Hi0 & Hi1 & Hg & Hbad) C.
    apply andb_prop in C. destruct C as [C0 C].
    apply Z.geb_le in C. apply Z.ltb_lt in C0.
    destruct (window_slide (i - winsize)) as (x & y & Ex & Ey & Hsl);
      [lia | lia |].
    replace (i - winsize + winsize) with i in Ex by lia.
    unfold slide_left. rewrite Ex, Ey. cbn [rbind].
    eexists. split; [reflexivity|]. repeat split; try lia.
    - replace (i - 1 - winsize + 1) with (i - winsize) by lia. lia.
    - intros j Hj. destruct (Z.eq_dec j i) as [->|]; [lia|]. apply Hbad. lia. }
  { repeat split; try lia.
    unfold window. replace (Py.len cv) with n by (unfold Py.len; lia).
    f_equal. f_equal; lia. }
  { lia. }
  rewrite E2. cbn [rbind].
  exists l, r, g2. repeat split; try assumption; lia.
Qed.

End CutoffMeaning.

Section GoodBases.
Import Builder.

(** The value [base_to_int] gives to a character of the alphabet. *)
Lemma base_to_int_is_base (c : ascii) :
  in_alphabet c -> base_to_int c = Ok (if is_base c then 1 else 0).
Proof.
  unfold in_alphabet. simpl.
  intros [<-|[<-|[<-|[<-|[<-|[<-|[]]]]]]]; reflexivity.
Qed.

Lemma consvals_of_map (s : str) :
  Forall in_alphabet s ->
  consvals_of s = Ok (map (fun c => if is_base c then 1 else 0) s).
Proof.
  induction 1 as [|c s Hc Hs IH]; simpl; [reflexivity|].
  rewrite IH, (base_to_int_is_base c Hc). reflexivity.
Qed.

Lemma slice_map {A B : Type} (f : A -> B) (l : list A) (i j : Z) :
  Py.slice (map f l) i j = map f (Py.slice l i j).
Proof.
  unfold Py.slice, Py.len. rewrite length_map.
  now rewrite skipn_map, firstn_map.
Qed.

Lemma sum_count (l : str) :
  Py.sum (map (fun c => if is_base c then 1 else 0) l)
  = Py.len (filter is_base l).
Proof.
  induction l as [|c l IH]; [reflexivity|].
  cbn [map filter]. rewrite sum_cons, IH.
  destruct (is_base c); unfold Py.len; cbn [length]; lia.
Qed.

Lemma window_good_bases (winsize : Z) (s : str) (cv : list Z) (i : Z) :
  Forall in_alphabet s -> consvals_of s = Ok cv ->
  window winsize cv i = good_bases s winsize i.
Proof.
  intros Hs Hcv. rewrite (consvals_of_map s Hs) in Hcv.
  injection Hcv as <-. unfold window, good_bases.
  now rewrite slice_map, sum_count.
Qed.

Lemma alphabet_check (s : str) :
  forallb (fun c => existsb (Ascii.eqb c) (lit "ACGTN ")) s = true ->
  Forall in_alphabet s.
Proof.
  intros H. apply Forall_forall. intros c Hc.
  rewrite forallb_forall in H. specialize (H c Hc).
  apply existsb_exists in H. destruct H as (x & Hx & E).
  apply Ascii.eqb_eq in E. subst x. exact Hx.
Qed.

Lemma good_bases_range (s : str) (winsize i : Z) :
  0 <= good_bases s winsize i.
Proof. unfold good_bases. apply len_nonneg. Qed.

(** The cutoffs in terms of the called bases of the consensus. *)
Lemma cutoffs_by_good_bases (winsize basecnt : Z) (s : str) :
  0 <= winsize <= Py.len s -> Forall in_alphabet s ->
  exists index_left index_right num_good,
    trimCutoffs winsize basecnt s = Ok (index_left, index_right, num_good) /\
    0 <= index_left <= Py.len s - winsize /\
    (forall j, 0 <= j < index_left -> good_bases s winsize j < basecnt) /\
    (index_left < Py.len s - winsize ->
     basecnt <= good_bases s winsize index_left) /\
    index_left + winsize - 1 <= index_right <= Py.len s - 1 /\
    (forall j, index_right - winsize + 1 < j <= Py.len s - winsize ->
       good_bases s winsize j < basecnt) /\
    (index_left < index_right - winsize + 1 ->
     basecnt <= good_bases s winsize (index_right - winsize + 1)) /\
    num_good = good_bases s winsize (index_right - winsize + 1).
Proof.
  intros Hw Hs.
  destruct (consvals_of_ok s Hs) as (cv & Hcv & Hlen).
  destruct (trimCutoffs_windows winsize basecnt s cv Hcv Hlen Hw)
    as (l & r & g & E & Hl0 & Hl1 & Hbad1 & Hgood1 & Hr0 & Hr1 & Hbad2
        & Hgood2 & Hg).
  assert (W : forall i, window winsize cv i = good_bases s winsize i)
    by (intros i; now apply window_good_bases).
  exists l, r, g. split; [exact E|].
  split; [lia|].
  split; [intros j Hj; rewrite <- W; now apply Hbad1|].
  split; [intros H; rewrite <- W; apply Hgood1; lia|].
  split; [lia|].
  split.
  { intros j Hj. rewrite <- W.
    replace j with (j + winsize - 1 - winsize + 1) by lia.
    apply Hbad2. lia. }
  split; [intros H; rewrite <- W; apply Hgood2; lia|].
  now rewrite <- W.
Qed.

(** X20: the two cutoffs of the quality trimming, for a window that fits in
    a consensus over its alphabet.  The left cutoff is the start of the first
    window with at least [basecnt] called bases, or the start of the last
    window when there is none before it.  The right cutoff is the end of the
    last window with at least [basecnt] called bases among those that start
    after the left cutoff, or the end of the window of the left cutoff when
    there is none.  The count the loops leave is that of the window ending at
    the right cutoff, and it is below [basecnt] exactly when no window at all
    has [basecnt] called bases. *)
Theorem trimCutoffs_good_windows (winsize basecnt : Z) (s : str) :
  0 <= winsize <= Py.len s -> Forall in_alphabet s ->
  exists index_left index_right num_good,
    trimCutoffs winsize basecnt s = Ok (index_left, index_right, num_good) /\
    0 <= index_left <= Py.len s - winsize /\
    (forall j, 0 <= j < index_left -> good_bases s winsize j < basecnt) /\
    (index_left < Py.len s - winsize ->
     basecnt <= good_bases s winsize index_left) /\
    index_left + winsize - 1 <= index_right <= Py.len s - 1 /\
    (forall j, index_right - winsize + 1 < j <= Py.len s - winsize ->
       good_bases s winsize j < basecnt) /\
    (index_left < index_right - winsize + 1 ->
     basecnt <= good_bases s winsize (index_right - winsize + 1)) /\
    num_good = good_bases s winsize (index_right - winsize + 1) /\
    (num_good < basecnt <->
     forall j, 0 <= j <= Py.len s - winsize ->
       good_bases s winsize j < basecnt).
Proof.
  intros Hw Hs.
  destruct (cutoffs_by_good_bases winsize basecnt s Hw Hs)
    as (l & r & g & E & Hl & Hbad1 & Hgood1 & Hr & Hbad2 & Hgood2 & Hg).
  exists l, r, g.
  repeat (split; [assumption|]).
  split.
  - intros Hg' j Hj.
    destruct (Z_lt_le_dec j l) as [Hjl|Hjl]; [apply Hbad1; lia|].
    destruct (Z_lt_le_dec l (r - winsize + 1)) as [Hlr|Hlr].
    { specialize (Hgood2 Hlr). lia. }
    assert (r - winsize + 1 = l) as Hrl by lia. rewrite Hrl in *.
    destruct (Z.eq_dec j l) as [->|]; [lia|].
    apply Hbad2. lia.
  - intros Hall. rewrite Hg. apply Hall. lia.
Qed.

Lemma trimCutoffs_good_windows_witness :
  exists index_left index_right num_good,
    trimCutoffs 3 2 (lit "NNNACGTNNN") = Ok (index_left, index_right, num_good)
    /\ 0 <= index_left <= 7
    /\ (forall j, 0 <= j < index_left ->
          good_bases (lit "NNNACGTNNN") 3 j < 2)
    /\ num_good = good_bases (lit "NNNACGTNNN") 3 (index_right - 3 + 1).
Proof.
  destruct (trimCutoffs_good_windows 3 2 (lit "NNNACGTNNN"))
    as (l & r & g & E & Hl & Hbad & _ & _ & _ & _ & Hg & _).
  - vm_compute. split; discriminate.
  - apply alphabet_check. reflexivity.
  - exists l, r, g. split; [exact E|]. split; [exact Hl|].
    split; [exact Hbad | exact Hg].
Defined.

(** X21: when the window fits in a consensus over its alphabet and no
    window of the consensus has [basecnt] called bases, the quality trimming
    blanks the whole consensus. *)
Theorem trimConsensus_blank_iff (winsize basecnt : Z) (s : str) :
  0 <= winsize <= Py.len s -> Forall in_alphabet s ->
  (forall j, 0 <= j <= Py.len s - winsize ->
     good_bases s winsize j < basecnt) ->
  trimConsensus winsize basecnt s = Ok (Py.spaces (Py.len s)).
Proof.
  intros Hw Hs Hall.
  destruct (cutoffs_by_good_bases winsize basecnt s Hw Hs)
    as (l & r & g & E & Hl & _ & _ & Hr & _ & _ & Hg).
  unfold trimConsensus.
  destruct (Z.ltb_spec (Py.len s) winsize); [lia|].
  rewrite E. cbn [rbind].
  destruct (Z.ltb_spec g basecnt) as [|Hge]; [reflexivity|].
  specialize (Hall (r - winsize + 1)). lia.
Qed.

Lemma trimConsensus_blank_iff_witness :
  trimConsensus 3 2 (lit "NANNCNNT") = Ok (Py.spaces 8).
Proof.
  apply (trimConsensus_blank_iff 3 2 (lit "NANNCNNT")).
  - vm_compute. split; discriminate.
  - apply alphabet_check. reflexivity.
  - intros j Hj. change (Py.len (lit "NANNCNNT") - 3) with 5 in Hj.
    assert (C : j = 0 \/ j = 1 \/ j = 2 \/ j = 3 \/ j = 4 \/ j = 5) by lia.
    destruct C as [->|[->|[->|[->|[->| ->]]]]]; reflexivity.
Defined.

(** X22: when the window fits in a consensus over its alphabet, and both the
    first and the last window have at least [basecnt] called bases, the
    quality trimming leaves the consensus as it is. *)
Theorem trimConsensus_good_ends (winsize basecnt : Z) (s : str) :
  0 <= winsize <= Py.len s -> Forall in_alphabet s ->
  basecnt <= good_bases s winsize 0 ->
  basecnt <= good_bases s winsize (Py.len s - winsize) ->
  trimConsensus winsize basecnt s = Ok s.
Proof.
  intros Hw Hs Hfirst Hlast.
  destruct (cutoffs_by_good_bases winsize basecnt s Hw Hs)
    as (l & r & g & E & Hl & Hbad1 & _ & Hr & Hbad2 & _ & Hg).
  unfold trimConsensus.
  destruct (Z.ltb_spec (Py.len s) winsize); [lia|].
  rewrite E. cbn [rbind].
  assert (l = 0).
  { destruct (Z.eq_dec l 0); [assumption|].
    specialize (Hbad1 0). lia. }
  assert (r = Py.len s - 1).
  { destruct (Z.eq_dec r (Py.len s - 1)); [assumption|].
    specialize (Hbad2 (Py.len s - winsize)). lia. }
  subst l r.
  replace (Py.len s - 1 - winsize + 1) with (Py.len s - winsize) in Hg by lia.
  destruct (Z.ltb_spec g basecnt); [lia|].
  replace (Py.len s - 1 + 1) with (Py.len s) by lia.
  replace (Py.len s - (Py.len s - 1) - 1) with 0 by lia.
  rewrite slice_prefix by lia.
  unfold Py.spaces, Py.times, Py.len. cbn [Z.to_nat repeat app].
  rewrite Nat2Z.id, firstn_all, app_nil_r. reflexivity.
Qed.

Lemma trimConsensus_good_ends_witness :
  trimConsensus 3 2 (lit "ANCNNNGTN") = Ok (lit "ANCNNNGTN").
Proof.
  apply (trimConsensus_good_ends 3 2 (lit "ANCNNNGTN")).
  - vm_compute. split; discriminate.
  - apply alphabet_check. reflexivity.
  - vm_compute. discriminate.
  - vm_compute. discriminate.
Defined.

End GoodBases.

(** ** End gaps *)

Section EndGaps.
Import Builder BuilderObject.

Lemma leading_gaps_range (s : str) : 0 <= leading_gaps s <= Py.len s.
Proof.
  unfold Py.len. induction s as [|c s IH]; cbn [leading_gaps length]; [lia|]. destruct (Ascii.eqb c gap); lia.
Qed.

Lemma trailing_gaps_range (s : str) : 0 <= trailing_gaps s <= Py.len s.
Proof.
  unfold trailing_gaps. pose proof (leading_gaps_range (rev s)) as H.
  unfold Py.len in *. now rewrite length_rev in H.
Qed.

Lemma skipn_cons_nth {A : Type} (l : list A) (k : nat) (c : A) :
  nth_error l k = Some c -> skipn k l = c :: skipn (Datatypes.S k) l.
Proof.
  revert l. induction k as [|k IH]; intros [|a l] H; try discriminate.
  - simpl in H. injection H as <-. reflexivity.
  - simpl in H. simpl. now apply IH.
Qed.

Lemma firstn_snoc_nth {A : Type} (l : list A) (k : nat) (c : A) :
  nth_error l k = Some c -> firstn (Datatypes.S k) l = firstn k l ++ [c].
Proof.
  revert l. induction k as [|k IH]; intros [|a l] H; try discriminate.
  - simpl in H. injection H as <-. reflexivity.
  - simpl in H. cbn [firstn app]. f_equal. now apply IH.
Qed.

(** The gaps a sequence has at the positions from [k] on, counted from
    [k], and those it has at the positions up to [k], counted back. *)
Lemma leading_gaps_gap (s : str) (i : nat) :
  (Z.of_nat i < leading_gaps s) -> nth_error s i = Some gap.
Proof.
  revert i. induction s as [|c s IH]; intros i H; cbn [leading_gaps] in H;
    [lia|].
  destruct (Ascii.eqb_spec c gap) as [->|]; [|lia].
  destruct i as [|i]; [reflexivity|]. cbn [nth_error]. apply IH. lia.
Qed.

Lemma leading_gaps_stop (s : str) :
  leading_gaps s < Py.len s ->
  exists c, nth_error s (Z.to_nat (leading_gaps s)) = Some c /\ c <> gap.
Proof.
  unfold Py.len. induction s as [|c s IH]; cbn [leading_gaps length]; [lia|].
  destruct (Ascii.eqb_spec c gap) as [->|Hc].
  - intros H. destruct IH as (c & E & Hc); [lia|].
    exists c. split; [|exact Hc].
    pose proof (leading_gaps_range s).
    replace (Z.to_nat (1 + leading_gaps s))
      with (Datatypes.S (Z.to_nat (leading_gaps s))) by lia.
    exact E.
  - intros _. exists c. split; [reflexivity | exact Hc].
Qed.

Lemma trailing_gaps_gap (s : str) (i : nat) :
  (i < length s)%nat -> Py.len s - trailing_gaps s <= Z.of_nat i ->
  nth_error s i = Some gap.
Proof.
  intros Hi H. unfold trailing_gaps, Py.len in *.
  rewrite <- (rev_involutive s), nth_error_rev; rewrite length_rev.
  - destruct (Nat.ltb_spec i (length s)); [|lia].
    apply leading_gaps_gap. lia.
Qed.

Lemma scan_ahead (o : object) (seq : str) :
  length seq = length (seq1aligned (alignment o)) ->
  forall (fuel : nat) (k : Z),
    0 <= k <= Py.len seq -> Py.len seq - k < Z.of_nat fuel ->
    Py.while_raising fuel (gap_ahead o seq) (fun i => Ok (i + 1)) k
    = Ok (k + leading_gaps (skipn (Z.to_nat k) seq)).
Proof.
  intros Hlen. induction fuel as [|fuel IH]; intros k Hk Hf; [lia|].
  cbn [Py.while_raising]. unfold gap_ahead at 1.
  replace (Py.len (seq1aligned (alignment o))) with (Py.len seq)
    by (unfold Py.len; now rewrite Hlen).
  destruct (Z.ltb_spec k (Py.len seq)) as [Hlt|Hge].
  - destruct (index_in_range seq k) as (c & Ec & Nc); [lia|].
    rewrite Ec. cbn [rbind].
    rewrite (skipn_cons_nth _ _ _ Nc). cbn [leading_gaps].
    destruct (Ascii.eqb c gap).
    + cbn [rbind]. rewrite IH by lia.
      replace (Z.to_nat (k + 1)) with (Datatypes.S (Z.to_nat k)) by lia.
      f_equal. lia.
    + f_equal. lia.
  - cbn [rbind]. unfold Py.len in *.
    rewrite skipn_all2 by lia. simpl. f_equal. lia.
Qed.

Lemma scan_behind (seq : str) :
  forall (fuel : nat) (k : Z),
    -1 <= k < Py.len seq -> k + 1 < Z.of_nat fuel ->
    Py.while_raising fuel (gap_behind seq) (fun i => Ok (i - 1)) k
    = Ok (k - leading_gaps (rev (firstn (Z.to_nat (k + 1)) seq))).
Proof.
  induction fuel as [|fuel IH]; intros k Hk Hf; [lia|].
  cbn [Py.while_raising]. unfold gap_behind at 1.
  destruct (Z.geb_spec k 0) as [Hge|Hlt].
  - destruct (index_in_range seq k) as (c & Ec & Nc); [lia|].
    rewrite Ec. cbn [rbind].
    replace (Z.to_nat (k + 1)) with (Datatypes.S (Z.to_nat k)) by lia.
    rewrite (firstn_snoc_nth _ _ _ Nc), rev_unit. cbn [leading_gaps].
    destruct (Ascii.eqb c gap).
    + cbn [rbind]. rewrite IH by lia.
      replace (Z.to_nat (k - 1 + 1)) with (Z.to_nat k) by lia.
      f_equal. lia.
    + f_equal. lia.
  - cbn [rbind]. replace (Z.to_nat (k + 1)) with 0%nat by lia.
    simpl. f_equal. lia.
Qed.

(** The first and the last character of a sequence that is not empty. *)
Lemma first_char (s : str) :
  0 < Py.len s ->
  exists c, Py.index s 0 = Ok c /\
            (Ascii.eqb c gap = (negb (leading_gaps s =? 0))).
Proof.
  intros H. destruct s as [|c s]; [unfold Py.len in H; simpl in H; lia|].
  exists c. split.
  - apply (index_nth_error (c :: s) 0 c). reflexivity.
  - cbn [leading_gaps]. pose proof (leading_gaps_range s).
    destruct (Ascii.eqb c gap); [|reflexivity].
    destruct (Z.eqb_spec (1 + leading_gaps s) 0); [lia | reflexivity].
Qed.

Lemma last_char (s : str) :
  0 < Py.len s ->
  exists c, Py.index s (Py.len s - 1) = Ok c /\
            (Ascii.eqb c gap = (negb (trailing_gaps s =? 0))).
Proof.
  intros H. unfold trailing_gaps.
  destruct (rev s) as [|c r] eqn:R.
  - apply (f_equal (@length _)) in R. rewrite length_rev in R.
    unfold Py.len in H. simpl in R. lia.
  - assert (S : s = rev r ++ [c])
      by (rewrite <- (rev_involutive s), R; reflexivity).
    exists c. split.
    + replace (Py.len s - 1) with (Z.of_nat (length (rev r)))
        by (subst s; unfold Py.len; rewrite length_app; simpl; lia).
      apply index_nth_error. subst s.
      rewrite nth_error_app2 by lia. now rewrite Nat.sub_diag.
    + cbn [leading_gaps]. pose proof (leading_gaps_range r).
      destruct (Ascii.eqb c gap); [|reflexivity].
      destruct (Z.eqb_spec (1 + leading_gaps r) 0); [lia | reflexivity].
Qed.


Lemma getLeftEndGapStart_two (o : object) :
  numseqs o <> 1 ->
  length (seq2aligned (alignment o)) = length (seq1aligned (alignment o)) ->
  0 < Py.len (seq1aligned (alignment o)) ->
  getLeftEndGapStart o =
  Ok (let k := if leading_gaps (seq1aligned (alignment o)) =? 0
               then leading_gaps (seq2aligned (alignment o))
               else leading_gaps (seq1aligned (alignment o)) in
      if k =? Py.len (seq1aligned (alignment o)) then -1 else k).
Proof.
  intros Hn Hlen Hpos. unfold getLeftEndGapStart.
  destruct (Z.eqb_spec (numseqs o) 1) as [|_]; [contradiction|].
  set (a := seq1aligned (alignment o)) in *.
  set (b := seq2aligned (alignment o)) in *.
  assert (Hb : 0 < Py.len b) by (unfold Py.len in *; lia).
  destruct (first_char a Hpos) as (c1 & E1 & G1).
  destruct (first_char b Hb) as (c2 & E2 & G2).
  rewrite E1. cbn [rbind]. rewrite G1.
  destruct (Z.eqb_spec (leading_gaps a) 0) as [Za|Za]; cbn [negb].
  - rewrite E2. cbn [rbind]. rewrite G2.
    destruct (Z.eqb_spec (leading_gaps b) 0) as [Zb|Zb]; cbn [negb].
    + cbn [rbind]. rewrite Zb. cbv zeta.
      destruct (0 =? Py.len a); reflexivity.
    + rewrite (scan_ahead o b Hlen)
        by (unfold scan_fuel, Py.len in *; fold a; lia).
      cbn [rbind]. change (Z.to_nat 0) with 0%nat. cbn [skipn].
      rewrite Z.add_0_l. cbv zeta.
      destruct (leading_gaps b =? Py.len a); reflexivity.
  - rewrite (scan_ahead o a eq_refl)
      by (unfold scan_fuel, Py.len in *; fold a; lia).
    cbn [rbind]. change (Z.to_nat 0) with 0%nat. cbn [skipn].
    rewrite Z.add_0_l. cbv zeta.
    destruct (leading_gaps a =? Py.len a); reflexivity.
Qed.

Lemma getRightEndGapStart_two (o : object) :
  numseqs o <> 1 ->
  length (seq2aligned (alignment o)) = length (seq1aligned (alignment o)) ->
  0 < Py.len (seq1aligned (alignment o)) ->
  getRightEndGapStart o =
  Ok (Py.len (seq1aligned (alignment o)) - 1
      - (if trailing_gaps (seq1aligned (alignment o)) =? 0
         then trailing_gaps (seq2aligned (alignment o))
         else trailing_gaps (seq1aligned (alignment o)))).
Proof.
  intros Hn Hlen Hpos. unfold getRightEndGapStart.
  destruct (Z.eqb_spec (numseqs o) 1) as [|_]; [contradiction|].
  set (a := seq1aligned (alignment o)) in *.
  set (b := seq2aligned (alignment o)) in *.
  assert (Hab : Py.len b = Py.len a) by (unfold Py.len; now rewrite Hlen).
  assert (Hb : 0 < Py.len b) by lia.
  destruct (last_char a Hpos) as (c1 & E1 & G1).
  destruct (last_char b Hb) as (c2 & E2 & G2).
  rewrite Hab in E2.
  assert (Fa : firstn (Z.to_nat (Py.len a - 1 + 1)) a = a).
  { replace (Z.to_nat (Py.len a - 1 + 1)) with (length a)
      by (unfold Py.len; lia).
    apply firstn_all. }
  assert (Fb : firstn (Z.to_nat (Py.len a - 1 + 1)) b = b).
  { replace (Z.to_nat (Py.len a - 1 + 1)) with (length b)
      by (unfold Py.len; lia).
    apply firstn_all. }
  rewrite E1. cbn [rbind]. rewrite G1.
  destruct (Z.eqb_spec (trailing_gaps a) 0) as [Za|Za]; cbn [negb].
  - rewrite E2. cbn [rbind]. rewrite G2.
    destruct (Z.eqb_spec (trailing_gaps b) 0) as [Zb|Zb]; cbn [negb].
    + rewrite Zb. f_equal. lia.
    + rewrite scan_behind by (unfold scan_fuel, Py.len in *; fold a; lia).
      rewrite Fb. reflexivity.
  - rewrite scan_behind by (unfold scan_fuel, Py.len in *; fold a; lia).
    rewrite Fa. reflexivity.
Qed.

(** X23: the end gaps of an alignment of two sequences that is not empty.
    [getLeftEndGapStart] returns the number of gaps the first sequence
    starts with, or the second when the first starts with none, and -1 when
    that number is the whole length; [getRightEndGapStart] returns the last
    index less the number of gaps the first sequence ends with, or the second
    when the first ends with none. *)
Theorem end_gap_starts (o : object) :
  numseqs o <> 1 ->
  length (seq2aligned (alignment o)) = length (seq1aligned (alignment o)) ->
  0 < Py.len (seq1aligned (alignment o)) ->
  getLeftEndGapStart o =
    Ok (let k := if leading_gaps (seq1aligned (alignment o)) =? 0
                 then leading_gaps (seq2aligned (alignment o))
                 else leading_gaps (seq1aligned (alignment o)) in
        if k =? Py.len (seq1aligned (alignment o)) then -1 else k) /\
  getRightEndGapStart o =
    Ok (Py.len (seq1aligned (alignment o)) - 1
        - (if trailing_gaps (seq1aligned (alignment o)) =? 0
           then trailing_gaps (seq2aligned (alignment o))
           else trailing_gaps (seq1aligned (alignment o)))).
Proof.
  intros Hn Hlen Hpos. split.
  - now apply getLeftEndGapStart_two.
  - now apply getRightEndGapStart_two.
Qed.


Lemma end_gap_starts_witness :
  getLeftEndGapStart
    (mkObject 2 Settings.init
       (mkBuilder (mkTrace (lit "ACG") (fun _ => 20))
                  (mkTrace (lit "CGT") (fun _ => 20))
                  (lit "ACG-") (lit "-CGT") [] []) (lit "ACGT") [])
  = Ok 1.
Proof.
  refine (proj1 (end_gap_starts _ _ _ _)).
  - discriminate.
  - reflexivity.
  - reflexivity.
Defined.

Lemma all_gaps (s : str) :
  leading_gaps s = Py.len s -> trailing_gaps s = Py.len s.
Proof.
  intros H.
  assert (G : forall t : str, Forall (eq gap) t -> leading_gaps t = Py.len t).
  { unfold Py.len. induction 1 as [|c t <- Ht IH]; [reflexivity|].
    cbn [leading_gaps length]. rewrite Ascii.eqb_refl, IH. lia. }
  unfold trailing_gaps.
  replace (Py.len s) with (Py.len (rev s))
    by (unfold Py.len; now rewrite length_rev).
  apply G. apply Forall_forall. intros x Hx.
  apply in_rev in Hx. apply In_nth_error in Hx. destruct Hx as [i Hi].
  assert (i < length s)%nat by (apply nth_error_Some; congruence).
  rewrite (leading_gaps_gap s i) in Hi by (unfold Py.len in H; lia).
  congruence.
Qed.

Lemma gap_runs_same (s : str) :
  leading_gaps s < Py.len s -> leading_gaps s + trailing_gaps s <= Py.len s.
Proof.
  intros H. destruct (leading_gaps_stop s H) as (c & E & Hc).
  pose proof (leading_gaps_range s). pose proof (trailing_gaps_range s).
  destruct (Z_le_gt_dec (leading_gaps s + trailing_gaps s) (Py.len s));
    [assumption|].
  rewrite (trailing_gaps_gap s (Z.to_nat (leading_gaps s))) in E
    by (unfold Py.len in *; lia).
  congruence.
Qed.

Lemma gap_runs_apart (x y : str) :
  length x = length y ->
  (forall i, ~ (nth_error x i = Some gap /\ nth_error y i = Some gap)) ->
  leading_gaps x + trailing_gaps y <= Py.len x.
Proof.
  intros Hlen Hno.
  assert (Hxy : Py.len y = Py.len x) by (unfold Py.len; lia).
  pose proof (leading_gaps_range x). pose proof (trailing_gaps_range y).
  destruct (Z_le_gt_dec (leading_gaps x + trailing_gaps y) (Py.len x));
    [assumption|].
  exfalso. apply (Hno (Z.to_nat (leading_gaps x - 1))). split.
  - apply leading_gaps_gap. lia.
  - apply trailing_gaps_gap; unfold Py.len in *; lia.
Qed.

Lemma no_double_gap_sym (a b : str) : no_double_gap a b -> no_double_gap b a.
Proof. intros H i [Hb Ha]. apply (H i). split; assumption. Qed.

(** The two numbers the end gap methods work with are the longer of the two
    runs of gaps at each end, and the runs of the two ends do not meet unless
    one sequence is all gaps. *)
Lemma overlap_bounds (a b : str) :
  length b = length a -> 0 < Py.len a -> no_double_gap a b ->
  (if leading_gaps a =? 0 then leading_gaps b else leading_gaps a)
    = Z.max (leading_gaps a) (leading_gaps b) /\
  (if trailing_gaps a =? 0 then trailing_gaps b else trailing_gaps a)
    = Z.max (trailing_gaps a) (trailing_gaps b) /\
  ((Z.max (leading_gaps a) (leading_gaps b) = Py.len a /\
    Z.max (trailing_gaps a) (trailing_gaps b) = Py.len a) \/
   (Z.max (leading_gaps a) (leading_gaps b) < Py.len a /\
    Z.max (leading_gaps a) (leading_gaps b)
    + Z.max (trailing_gaps a) (trailing_gaps b) <= Py.len a)).
Proof.
  intros Hlen Hpos Hno.
  assert (Hab : Py.len b = Py.len a) by (unfold Py.len; now rewrite Hlen).
  pose proof (leading_gaps_range a) as RLa.
  pose proof (leading_gaps_range b) as RLb.
  pose proof (trailing_gaps_range a) as RTa.
  pose proof (trailing_gaps_range b) as RTb.
  assert (L0 : leading_gaps a = 0 \/ leading_gaps b = 0).
  { destruct (Z.eq_dec (leading_gaps a) 0); [now left|].
    destruct (Z.eq_dec (leading_gaps b) 0); [now right|].
    exfalso. apply (Hno 0%nat). split; apply leading_gaps_gap; lia. }
  assert (T0 : trailing_gaps a = 0 \/ trailing_gaps b = 0).
  { destruct (Z.eq_dec (trailing_gaps a) 0); [now left|].
    destruct (Z.eq_dec (trailing_gaps b) 0); [now right|].
    exfalso. apply (Hno (length a - 1)%nat).
    split; apply trailing_gaps_gap; unfold Py.len in *; lia. }
  split; [destruct (Z.eqb_spec (leading_gaps a) 0); lia|].
  split; [destruct (Z.eqb_spec (trailing_gaps a) 0); lia|].
  pose proof (gap_runs_apart a b (eq_sym Hlen) Hno) as Xab.
  pose proof (gap_runs_apart b a Hlen (no_double_gap_sym a b Hno)) as Xba.
  destruct (Z.eq_dec (leading_gaps a) (Py.len a)) as [Ea|Na].
  { pose proof (all_gaps a Ea). left. lia. }
  destruct (Z.eq_dec (leading_gaps b) (Py.len b)) as [Eb|Nb].
  { pose proof (all_gaps b Eb). left. lia. }
  right.
  pose proof (gap_runs_same a ltac:(lia)).
  pose proof (gap_runs_same b ltac:(lia)).
  split; lia.
Qed.

(** X24: [trimEndGaps] keeps the overlap.  For two aligned sequences of one
    length, not empty, with no column that is a gap in both, and a consensus
    of that length, the consensus keeps its length, holds what it held at
    the columns where neither sequence is inside its leading or trailing run
    of gaps, and a space at all others; nothing else of the object
    changes. *)
Theorem trimEndGaps_keeps_overlap (o : object) :
  numseqs o <> 1 ->
  length (seq2aligned (alignment o)) = length (seq1aligned (alignment o)) ->
  length (consensus o) = length (seq1aligned (alignment o)) ->
  0 < Py.len (seq1aligned (alignment o)) ->
  no_double_gap (seq1aligned (alignment o)) (seq2aligned (alignment o)) ->
  exists c,
    trimEndGaps o = Ok (set_consensus c o) /\
    length c = length (consensus o) /\
    forall i, (i < length (consensus o))%nat ->
      nth_error c i =
      if in_overlap (seq1aligned (alignment o)) (seq2aligned (alignment o))
                    (Z.of_nat i)
      then nth_error (consensus o) i else Some Py.space.
Proof.
  intros Hn Hlen Hcons Hpos Hno. unfold trimEndGaps.
  destruct (Z.eqb_spec (numseqs o) 1) as [|_]; [contradiction|].
  rewrite getLeftEndGapStart_two, getRightEndGapStart_two by assumption.
  cbn [rbind]. cbv zeta.
  destruct (overlap_bounds _ _ Hlen Hpos Hno) as (-> & -> & Hb).
  set (a := seq1aligned (alignment o)) in *.
  set (b := seq2aligned (alignment o)) in *.
  set (L := Z.max (leading_gaps a) (leading_gaps b)) in *.
  set (T := Z.max (trailing_gaps a) (trailing_gaps b)) in *.
  assert (Hc : Py.len (consensus o) = Py.len a)
    by (unfold Py.len; now rewrite Hcons).
  assert (RL : 0 <= L)
    by (pose proof (leading_gaps_range a); unfold L; lia).
  assert (RT : 0 <= T)
    by (pose proof (trailing_gaps_range a); unfold T; lia).
  set (r := Py.len a - 1 - T).
  set (l := if r =? -1 then 0 else if L =? Py.len a then -1 else L).
  assert (Hl : 0 <= l /\ l <= r + 1 /\ r < Py.len a /\
               forall i, 0 <= i < Py.len a ->
                 (l <=? i) && (i <=? r) = (L <=? i) && (i <=? r)).
  { unfold l, r.
    destruct (Z.eqb_spec (Py.len a - 1 - T) (-1));
      destruct (Z.eqb_spec L (Py.len a));
      (split; [lia|]; split; [lia|]; split; [lia|]); intros i Hi;
      destruct (Z.leb_spec L i); destruct (Z.leb_spec i (Py.len a - 1 - T));
      try destruct (Z.leb_spec 0 i); try reflexivity; lia. }
  destruct Hl as (Hl0 & Hl1 & Hr & Hsame).
  eexists. split; [reflexivity|].
  split.
  - apply masked_length; lia.
  - intros i Hi. rewrite masked_nth_error by lia.
    unfold in_overlap. fold a b L T r l.
    rewrite Hsame by (unfold Py.len in *; lia). reflexivity.
Qed.

Lemma trimEndGaps_keeps_overlap_witness :
  exists c,
    trimEndGaps
      (mkObject 2 Settings.init
         (mkBuilder (mkTrace (lit "ACG") (fun _ => 20))
                    (mkTrace (lit "CGT") (fun _ => 20))
                    (lit "ACG-") (lit "-CGT") [] []) (lit "ACGT") [])
    = Ok (set_consensus c
            (mkObject 2 Settings.init
               (mkBuilder (mkTrace (lit "ACG") (fun _ => 20))
                          (mkTrace (lit "CGT") (fun _ => 20))
                          (lit "ACG-") (lit "-CGT") [] []) (lit "ACGT") []))
    /\ length c = 4%nat.
Proof.
  destruct (trimEndGaps_keeps_overlap
    (mkObject 2 Settings.init
       (mkBuilder (mkTrace (lit "ACG") (fun _ => 20))
                  (mkTrace (lit "CGT") (fun _ => 20))
                  (lit "ACG-") (lit "-CGT") [] []) (lit "ACGT") []))
    as (c & E & L & _).
  - discriminate.
  - reflexivity.
  - reflexivity.
  - reflexivity.
  - intros [|[|[|[|i]]]] [Ha Hb]; try discriminate.
    destruct i; discriminate.
  - exists c. split; [exact E | exact L].
Defined.

(** X25: the edges of the end gap methods.  With one sequence the two
    searches return -1 and [trimEndGaps] does nothing.  With two sequences
    and an empty alignment none of the three returns: reading the first
    column raises [IndexError]. *)
Theorem end_gaps_edges (o : object) :
  (numseqs o = 1 ->
   getLeftEndGapStart o = Ok (-1) /\ getRightEndGapStart o = Ok (-1) /\
   trimEndGaps o = Ok o) /\
  (numseqs o <> 1 -> seq1aligned (alignment o) = [] ->
   getLeftEndGapStart o = Raise IndexError /\
   getRightEndGapStart o = Raise IndexError /\
   trimEndGaps o = Raise IndexError).
Proof.
  split.
  - intros H. unfold trimEndGaps, getLeftEndGapStart, getRightEndGapStart.
    rewrite H. auto.
  - intros H E. unfold trimEndGaps, getLeftEndGapStart, getRightEndGapStart.
    destruct (Z.eqb_spec (numseqs o) 1) as [|_]; [contradiction|].
    rewrite E. auto.
Qed.

End EndGaps.

(** ** Building the consensus of one trace *)

Section OneTrace.
Import Builder BuilderObject.

Lemma nth_error_range (n : Z) (j : nat) :
  (j < Z.to_nat n)%nat -> nth_error (Py.range n) j = Some (Z.of_nat j).
Proof.
  intros H. unfold Py.range. rewrite nth_error_map.
  rewrite (nth_error_nth' _ 0%nat) by (rewrite length_seq; lia).
  rewrite seq_nth by lia. reflexivity.
Qed.

(** What [trimConsensus] can do to a consensus over its alphabet. *)
Lemma trimConsensus_shape (winsize basecnt : Z) (s : str) :
  0 <= winsize -> Forall in_alphabet s ->
  exists s',
    Builder.trimConsensus winsize basecnt s = Ok s' /\
    length s' = length s /\
    forall i, (i < length s)%nat ->
      nth_error s' i = nth_error s i \/ nth_error s' i = Some Py.space.
Proof.
  intros Hw Hs. unfold Builder.trimConsensus.
  destruct (Z.ltb_spec (Py.len s) winsize) as [Hshort|Hlong].
  { exists s. repeat split; auto. }
  destruct (consvals_of_ok s Hs) as (cv & Hcv & Hlen).
  destruct (trimCutoffs_spec winsize basecnt s cv (fun _ => True))
    as (l & r & g & E & Hl0 & Hl1 & Hr0 & Hr1 & _); auto.
  rewrite E. cbn [rbind].
  destruct (Z.ltb_spec g basecnt) as [Hbad|Hgood].
  - exists (Py.spaces (Py.len s)).
    split; [reflexivity|]. split.
    + unfold Py.spaces, Py.times, Py.len. rewrite repeat_length. lia.
    + intros i Hi. right. apply nth_error_repeat. unfold Py.len. lia.
  - eexists. split; [reflexivity|].
    split; [apply masked_length; lia|].
    intros i Hi. rewrite masked_nth_error by lia.
    destruct (_ && _); auto.
Qed.

(** A character that [base_to_int] does not know stops the trimming. *)
Lemma consvals_of_foreign (s : str) (c : ascii) :
  In c s -> ~ in_alphabet c -> consvals_of s = Raise KeyError.
Proof.
  intros Hin Hc. induction s as [|a s IH]; [destruct Hin|].
  cbn [consvals_of].
  assert (B : forall x, (exists v, base_to_int x = Ok v /\ in_alphabet x)
                        \/ base_to_int x = Raise KeyError).
  { intros x. unfold base_to_int, in_alphabet.
    destruct (existsb (Ascii.eqb x) ["A"; "C"; "G"; "T"]%char) eqn:E1.
    - left. eexists. split; [reflexivity|].
      apply existsb_exists in E1. destruct E1 as (y & Hy & Ey).
      apply Ascii.eqb_eq in Ey. subst y.
      change (lit "ACGTN ") with ["A"; "C"; "G"; "T"; "N"; " "]%char.
      simpl in Hy. simpl. tauto.
    - destruct (existsb (Ascii.eqb x) ["N"; " "]%char) eqn:E2.
      + left. eexists. split; [reflexivity|].
        apply existsb_exists in E2. destruct E2 as (y & Hy & Ey).
        apply Ascii.eqb_eq in Ey. subst y.
        change (lit "ACGTN ") with ["A"; "C"; "G"; "T"; "N"; " "]%char.
        simpl in Hy. simpl. tauto.
      + now right. }
  destruct (B a) as [(v & Ev & Ha)| ->]; [|reflexivity].
  rewrite Ev. cbn [rbind].
  destruct Hin as [->|Hin]; [contradiction|].
  rewrite (IH Hin). reflexivity.
Qed.

Section Built.
Variables (t : trace) (st : Settings.state).

(** The consensus and the scores [makeSingleConsensus] leaves for the
    builder of one trace. *)
Lemma single_of_trace :
  exists c conf,
    makeSingleConsensus (Settings.getMinConfScore st) (init_single t)
      = Ok (c, conf) /\
    length c = length (getBaseCalls t) /\
    length conf = length (getBaseCalls t) /\
    forall j x, nth_error (getBaseCalls t) j = Some x ->
      nth_error conf j = Some (getBaseCallConf t (Z.of_nat j)) /\
      nth_error c j =
        Some (if getBaseCallConf t (Z.of_nat j)
                 <? Settings.getMinConfScore st then N else x).
Proof.
  assert (Hidx : length (seq1indexed (init_single t))
                 = length (seq1aligned (init_single t))).
  { cbn [init_single seq1indexed seq1aligned].
    pose proof (len_range (Py.len (getBaseCalls t)) (len_nonneg _)) as H.
    unfold Py.len in *. lia. }
  destruct (makeSingleConsensus_done (init_single t)
              (Settings.getMinConfScore st) Hidx)
    as ([c conf] & E & L1 & L2 & D).
  exists c, conf. split; [exact E|].
  cbn [init_single seq1aligned fst snd] in *.
  split; [exact L1|]. split; [exact L2|].
  intros j x Hj.
  assert (j < length (getBaseCalls t))%nat
    by (apply nth_error_Some; congruence).
  apply (D j x (Z.of_nat j)); [assumption | exact Hj |].
  cbn [seq1indexed]. apply nth_error_range. unfold Py.len. lia.
Qed.

End Built.

(** X26: building the consensus of one trace.  With base calls over the
    alphabet of the consensus and a trimming window that is not negative,
    the constructor returns a builder whose consensus has one character and
    one score per base call: the score is the confidence of the call, and
    the character is the call, or ['N'] below the threshold, or, only
    with automatic trimming, a space. *)
Theorem init_one_builds (t : trace) (st : Settings.state) :
  0 <= Settings.autotrim_winsize st ->
  Forall in_alphabet (getBaseCalls t) ->
  exists o,
    init_one t st = Ok o /\
    numseqs o = 1 /\ settings o = st /\ alignment o = init_single t /\
    length (consensus o) = length (getBaseCalls t) /\
    length (consconf o) = length (getBaseCalls t) /\
    forall j x, nth_error (getBaseCalls t) j = Some x ->
      nth_error (consconf o) j = Some (IZR (getBaseCallConf t (Z.of_nat j)))
      /\
      (nth_error (consensus o) j =
         Some (if getBaseCallConf t (Z.of_nat j)
                  <? Settings.getMinConfScore st then N else x)
       \/ (Settings.getDoAutoTrim st = true /\
           nth_error (consensus o) j = Some Py.space)).
Proof.
  intros Hw Hs.
  destruct (single_of_trace t st) as (c & conf & E & L1 & L2 & D).
  unfold init_one, makeConsensusSequence.
  cbn [numseqs settings alignment]. change (1 =? 1) with true. cbv iota.
  rewrite E. cbn [rbind]. unfold set_result.
  cbn [numseqs settings alignment consensus consconf].
  assert (Hconf : forall j x, nth_error (getBaseCalls t) j = Some x ->
            nth_error (map IZR conf) j
            = Some (IZR (getBaseCallConf t (Z.of_nat j)))).
  { intros j x Hj. rewrite nth_error_map.
    destruct (D j x Hj) as [-> _]. reflexivity. }
  destruct (Settings.getDoAutoTrim st) eqn:Auto.
  - assert (Hc : Forall in_alphabet c).
    { apply Forall_forall. intros y Hy.
      apply In_nth_error in Hy. destruct Hy as [j Hj].
      assert (j < length (getBaseCalls t))%nat
        by (rewrite <- L1; apply nth_error_Some; congruence).
      destruct (nth_error (getBaseCalls t) j) as [x|] eqn:Ex;
        [|apply nth_error_None in Ex; lia].
      destruct (D j x Ex) as [_ Hcj]. rewrite Hcj in Hj.
      injection Hj as <-.
      destruct (_ <? _).
      - unfold in_alphabet. change (lit "ACGTN ")
          with ["A"; "C"; "G"; "T"; "N"; " "]%char.
        unfold N. simpl. tauto.
      - rewrite Forall_forall in Hs. apply Hs.
        eapply nth_error_In; eauto. }
    destruct (trimConsensus_shape (Settings.autotrim_winsize st)
                (Settings.autotrim_basecnt st) c Hw Hc)
      as (s' & Es & Ls & Hs').
    assert (Egaps :
      (if Settings.getTrimEndGaps st
       then trimEndGaps (mkObject 1 st (init_single t) c (map IZR conf))
       else Ok (mkObject 1 st (init_single t) c (map IZR conf)))
      = Ok (mkObject 1 st (init_single t) c (map IZR conf))).
    { destruct (Settings.getTrimEndGaps st); reflexivity. }
    rewrite Egaps. cbn [rbind]. unfold Settings.getAutoTrimParams.
    unfold BuilderObject.trimConsensus.
  cbn [numseqs settings alignment consensus consconf].
    rewrite Es. cbn [rbind].
    eexists. split; [reflexivity|].
    unfold set_consensus.
    cbn [numseqs settings alignment consensus consconf].
    repeat (split; [first [reflexivity | congruence
                           | rewrite length_map; congruence]|]).
    intros j x Hj. split; [now apply (Hconf j x)|].
    assert (j < length c)%nat
      by (rewrite L1; apply nth_error_Some; congruence).
    destruct (D j x Hj) as [_ Hcj].
    destruct (Hs' j ltac:(assumption)) as [Hk|Hk].
    + left. now rewrite Hk.
    + right. split; [reflexivity | exact Hk].
  - eexists. split; [reflexivity|].
    cbn [numseqs settings alignment consensus consconf].
    repeat (split; [first [reflexivity | congruence
                           | rewrite length_map; congruence]|]).
    intros j x Hj. split; [now apply (Hconf j x)|].
    left. now destruct (D j x Hj).
Qed.

Lemma init_one_builds_witness :
  exists o,
    init_one (mkTrace (lit "ACGT") (fun i => 10 * (i + 1))) Settings.init
      = Ok o /\
    length (consensus o) = 4%nat.
Proof.
  destruct (init_one_builds
    (mkTrace (lit "ACGT") (fun i => 10 * (i + 1))) Settings.init)
    as (o & E & _ & _ & _ & L & _).
  - vm_compute. discriminate.
  - apply alphabet_check. reflexivity.
  - exists o. split; [exact E | exact L].
Defined.

(** X27: a base call the trimming does not know.  With automatic trimming
    on and a window no longer than the trace, one base call outside the
    alphabet of the consensus with a confidence at or above the threshold
    makes the constructor raise [KeyError]. *)
Theorem init_one_foreign_base (t : trace) (st : Settings.state)
    (j : nat) (x : ascii) :
  Settings.getDoAutoTrim st = true ->
  Settings.autotrim_winsize st <= Py.len (getBaseCalls t) ->
  nth_error (getBaseCalls t) j = Some x -> ~ in_alphabet x ->
  Settings.getMinConfScore st <= getBaseCallConf t (Z.of_nat j) ->
  init_one t st = Raise KeyError.
Proof.
  intros Auto Hw Hj Hx Hconf.
  destruct (single_of_trace t st) as (c & conf & E & L1 & L2 & D).
  unfold init_one, makeConsensusSequence.
  cbn [numseqs settings alignment]. change (1 =? 1) with true. cbv iota.
  rewrite E. cbn [rbind]. unfold set_result.
  cbn [numseqs settings alignment consensus consconf]. rewrite Auto.
  assert (Egaps :
    (if Settings.getTrimEndGaps st
     then trimEndGaps (mkObject 1 st (init_single t) c (map IZR conf))
     else Ok (mkObject 1 st (init_single t) c (map IZR conf)))
    = Ok (mkObject 1 st (init_single t) c (map IZR conf))).
  { destruct (Settings.getTrimEndGaps st); reflexivity. }
  rewrite Egaps. cbn [rbind]. unfold Settings.getAutoTrimParams.
  unfold BuilderObject.trimConsensus.
  cbn [numseqs settings alignment consensus consconf].
  unfold Builder.trimConsensus.
  destruct (Z.ltb_spec (Py.len c) (Settings.autotrim_winsize st)) as [Hs|_].
  { unfold Py.len in *. lia. }
  unfold trimCutoffs.
  destruct (D j x Hj) as [_ Hcj].
  destruct (Z.ltb_spec (getBaseCallConf t (Z.of_nat j))
              (Settings.getMinConfScore st)); [lia|].
  rewrite (consvals_of_foreign c x); [reflexivity | | exact Hx].
  eapply nth_error_In; eauto.
Qed.

Lemma init_one_foreign_base_witness :
  init_one (mkTrace (lit "ACRT") (fun _ => 40))
           (Settings.mkState 30 (lit "Bayesian") true 3 2 true true false [])
  = Raise KeyError.
Proof.
  apply (init_one_foreign_base
           (mkTrace (lit "ACRT") (fun _ => 40))
           (Settings.mkState 30 (lit "Bayesian") true 3 2 true true false [])
           2 "R"%char).
  - reflexivity.
  - vm_compute. discriminate.
  - reflexivity.
  - vm_compute. intuition discriminate.
  - vm_compute. discriminate.
Defined.

End OneTrace.
